(** * opkg_go: a shallow embedding of the metadata pipeline

    The development follows the package layout of the Go sources:
    [version] (Debian-style version ordering), [format] (control
    paragraphs), [config] (the parsed configuration and its derived
    paths), [pkgdb] (the status database), [downloader], [repo] (feed
    acquisition and the index set) and [pkgmgr] (the manager and its
    queries).

    Go strings are byte sequences and are modelled by [string]; Go maps by
    stdpp's [gmap]; an [(value, error)] result by [result]. Functions of
    the Go standard library and of the outside world (glob matching, path
    joining, the network, gzip, the file system) are parameters, bundled
    in the class [Runtime]. *)

From Stdlib Require Import ZArith Lia Bool Ascii String.
From stdpp Require Import gmap strings list fin_maps sorting pretty.

Local Open Scope string_scope.
Local Open Scope Z_scope.

(** ** Errors and results *)

(** A Go [error] value: [errors.New msg], or [fmt.Errorf] with a [%w]
    verb wrapping a cause. *)
Inductive error : Type :=
| errors_New (msg : string)
| Errorf_wrap (msg : string) (cause : error)
| os_ErrNotExist.

(** [errors.Is(err, os.ErrNotExist)] *)
Fixpoint errors_Is_NotExist (e : error) : bool :=
  match e with
  | os_ErrNotExist => true
  | Errorf_wrap _ cause => errors_Is_NotExist cause
  | errors_New _ => false
  end.

(** The pair [(value, error)] returned by a fallible Go function. *)
Inductive result (A : Type) : Type :=
| Ok (a : A)
| Err (e : error).
Arguments Ok {A} a.
Arguments Err {A} e.

Definition is_Ok {A} (r : result A) : bool :=
  match r with Ok _ => true | Err _ => false end.

(** ** Bytes of a string *)

(** [rune(s[i])]: the byte at an index, widened to a code point. *)
Definition rune (c : ascii) : Z := Z.of_N (N_of_ascii c).

(** [s[n:]] for [n <= len(s)]. *)
Fixpoint string_drop (n : nat) (s : string) : string :=
  match n, s with
  | O, _ => s
  | S n', String _ s' => string_drop n' s'
  | S _, EmptyString => EmptyString
  end.

(** [strings.IndexByte(s, c)] *)
Fixpoint IndexByte (s : string) (c : ascii) : option nat :=
  match s with
  | EmptyString => None
  | String x s' =>
      if Ascii.eqb x c then Some O
      else match IndexByte s' c with Some i => Some (S i) | None => None end
  end.

(** [strings.LastIndexByte(s, c)] *)
Fixpoint LastIndexByte (s : string) (c : ascii) : option nat :=
  match s with
  | EmptyString => None
  | String x s' =>
      match LastIndexByte s' c with
      | Some i => Some (S i)
      | None => if Ascii.eqb x c then Some O else None
      end
  end.

(** [s[:n]] *)
Fixpoint string_take (n : nat) (s : string) : string :=
  match n, s with
  | O, _ => EmptyString
  | S n', String c s' => String c (string_take n' s')
  | S _, EmptyString => EmptyString
  end.

(** [strings.HasPrefix(s, p)] *)
Fixpoint HasPrefix (s p : string) : bool :=
  match p, s with
  | EmptyString, _ => true
  | String c p', String d s' => Ascii.eqb c d && HasPrefix s' p'
  | String _ _, EmptyString => false
  end.

(** [strings.Contains(s, sub)] *)
Fixpoint Contains (s sub : string) : bool :=
  HasPrefix s sub ||
  match s with
  | EmptyString => false
  | String _ s' => Contains s' sub
  end.

(** ** More string functions of the Go library *)

Definition LF : ascii := "010"%char.

(** [strings.TrimLeft(s, cutset)] for a cutset given as a predicate. *)
Fixpoint TrimLeftFunc (f : ascii -> bool) (s : string) : string :=
  match s with
  | String c s' => if f c then TrimLeftFunc f s' else s
  | EmptyString => EmptyString
  end.

Definition TrimRightFunc (f : ascii -> bool) (s : string) : string :=
  String.rev (TrimLeftFunc f (String.rev s)).

(** [strings.TrimSpace]. A Go string holds UTF-8, and the function
    removes from both ends the code points [unicode.IsSpace] accepts: the
    bytes 09 to 0D and 20, U+0085, U+00A0, U+1680, U+2000 to U+200A,
    U+2028, U+2029, U+202F, U+205F and U+3000. Any other byte sequence
    decodes to another code point or to [RuneError] and stops the
    trimming. *)

(** The width of the white space code point at the start of [s], or 0. *)
Definition space_width (s : string) : nat :=
  match s with
  | String c (String d (String e _)) =>
      if Ascii.is_space c then 1
      else if Ascii.eqb c "194" && (Ascii.eqb d "133" || Ascii.eqb d "160") then 2
      else if Ascii.eqb c "225" && Ascii.eqb d "154" && Ascii.eqb e "128" then 3
      else if Ascii.eqb c "226" && Ascii.eqb d "128"
              && ((128 <=? rune e) && (rune e <=? 138) || Ascii.eqb e "168"
                  || Ascii.eqb e "169" || Ascii.eqb e "175") then 3
      else if Ascii.eqb c "226" && Ascii.eqb d "129" && Ascii.eqb e "159" then 3
      else if Ascii.eqb c "227" && Ascii.eqb d "128" && Ascii.eqb e "128" then 3
      else 0
  | String c (String d EmptyString) =>
      if Ascii.is_space c then 1
      else if Ascii.eqb c "194" && (Ascii.eqb d "133" || Ascii.eqb d "160") then 2
      else 0
  | String c EmptyString => if Ascii.is_space c then 1 else 0
  | EmptyString => 0
  end.

(** The same at the end of a string, read on the reversed string, as
    [utf8.DecodeLastRuneInString] finds it. *)
Definition space_width_last (r : string) : nat :=
  match r with
  | String e (String d (String c _)) =>
      if Ascii.is_space e then 1
      else if Ascii.eqb d "194" && (Ascii.eqb e "133" || Ascii.eqb e "160") then 2
      else if Ascii.eqb c "225" && Ascii.eqb d "154" && Ascii.eqb e "128" then 3
      else if Ascii.eqb c "226" && Ascii.eqb d "128"
              && ((128 <=? rune e) && (rune e <=? 138) || Ascii.eqb e "168"
                  || Ascii.eqb e "169" || Ascii.eqb e "175") then 3
      else if Ascii.eqb c "226" && Ascii.eqb d "129" && Ascii.eqb e "159" then 3
      else if Ascii.eqb c "227" && Ascii.eqb d "128" && Ascii.eqb e "128" then 3
      else 0
  | String e (String d EmptyString) =>
      if Ascii.is_space e then 1
      else if Ascii.eqb d "194" && (Ascii.eqb e "133" || Ascii.eqb e "160") then 2
      else 0
  | String e EmptyString => if Ascii.is_space e then 1 else 0
  | EmptyString => 0
  end.

(** The loop that drops code points of the given width from the start:
    [skip] bytes of the current one are still to be dropped. *)
Fixpoint trim_runes (width : string -> nat) (skip : nat) (s : string) : string :=
  match s with
  | EmptyString => EmptyString
  | String _ s' =>
      match skip with
      | S k => trim_runes width k s'
      | O =>
          match width s with
          | O => s
          | S k => trim_runes width k s'
          end
      end
  end.

Definition TrimSpace (s : string) : string :=
  String.rev (trim_runes space_width_last 0
                (String.rev (trim_runes space_width 0 s))).

Definition is_blank_or_tab (c : ascii) : bool :=
  Ascii.eqb c " " || Ascii.eqb c "009".

(** ASCII lower case of a byte, and [strings.ToLower] on ASCII strings. *)
Definition lower_byte (c : ascii) : ascii :=
  if (65 <=? rune c) && (rune c <=? 90)
  then ascii_of_N (N_of_ascii c + 32) else c.

Fixpoint strings_ToLower (s : string) : string :=
  match s with
  | EmptyString => EmptyString
  | String c s' => String (lower_byte c) (strings_ToLower s')
  end.

(** A string of ASCII bytes. *)
Fixpoint ascii_only (s : string) : bool :=
  match s with
  | EmptyString => true
  | String c s' => (rune c <? 128) && ascii_only s'
  end.

(** What [strings.EqualFold] answers on two ASCII strings: they are
    equal up to the case of the letters. *)
Definition EqualFold_ASCII (s t : string) : bool :=
  String.eqb (strings_ToLower s) (strings_ToLower t).

(** [strings.ReplaceAll(s, "\n", new)] *)
Fixpoint ReplaceAll_LF (s new : string) : string :=
  match s with
  | EmptyString => EmptyString
  | String c s' =>
      if Ascii.eqb c LF then new ++ ReplaceAll_LF s' new
      else String c (ReplaceAll_LF s' new)
  end.

(** [strings.Split(s, sep)] for a one-byte separator: always at least one
    piece. *)
Fixpoint Split (s : string) (sep : ascii) : list string :=
  match s with
  | EmptyString => [EmptyString]
  | String c s' =>
      if Ascii.eqb c sep then EmptyString :: Split s' sep
      else match Split s' sep with
           | piece :: rest => String c piece :: rest
           | [] => [String c EmptyString]
           end
  end.

(** [strings.IndexAny(s, chars)] with the byte set given as a predicate. *)
Fixpoint IndexFunc (f : ascii -> bool) (s : string) : option nat :=
  match s with
  | EmptyString => None
  | String c s' =>
      if f c then Some O
      else match IndexFunc f s' with Some i => Some (S i) | None => None end
  end.

(** [strings.TrimSuffix(s, "/")] and [strings.TrimPrefix(s, "/")] *)
Definition TrimPrefix_slash (s : string) : string :=
  match s with
  | String c s' => if Ascii.eqb c "/" then s' else s
  | EmptyString => EmptyString
  end.

Definition TrimSuffix_slash (s : string) : string :=
  String.rev (TrimPrefix_slash (String.rev s)).

(** ** The Go runtime and library functions the code calls *)

(** [sort.Slice(xs, func(i, j) { return key(xs[i]) < key(xs[j]) })] and
    [sort.Strings]: the list in ascending order of [key]. Go's sort is not
    stable; when the keys are pairwise distinct every sort returns the
    same list. *)
Definition sort_Slice {A} (key : A -> string) (xs : list A) : list A :=
  merge_sort (fun x y => String.le (key x) (key y)) xs.

Definition sort_Strings (xs : list string) : list string :=
  sort_Slice (fun s => s) xs.

(** What the Go library and runtime decide:
    - [path_Match pattern name]: [path.Match]; [None] is [ErrBadPattern];
    - [filepath_Join], [filepath_Base], [filepath_Dir];
    - [gzip_NewReader] followed by [ioReadAll]: decompression;
    - [ScanLines]: the lines a [bufio.Scanner] with a 10 MiB limit
      delivers, and the value of [scanner.Err()];
    - [strings_EqualFold]: equality under Unicode simple case folding,
      which on ASCII strings is equality up to the case of letters;
    - [strconv_Quote]: what the verb [%q] of [fmt] prints for a string,
      a double-quoted Go string literal with its escapes;
    - [map_range]: the order in which a [for ... range] visits a map,
      some enumeration of its entries. The order is fixed per map here,
      whereas Go may choose another one at every loop. *)
Class Runtime : Type := {
  path_Match : string -> string -> option bool;
  filepath_Join : string -> string -> string;
  filepath_Base : string -> string;
  filepath_Dir : string -> string;
  gzip_NewReader : string -> result string;
  ioReadAll : string -> result string;
  ScanLines : string -> list string * option error;
  strings_EqualFold : string -> string -> bool;
  strings_EqualFold_ascii : forall s t,
      ascii_only s = true -> ascii_only t = true ->
      strings_EqualFold s t = EqualFold_ASCII s t;
  strconv_Quote : string -> string;
  map_range : forall {V : Type}, gmap string V -> list (string * V);
  map_range_perm : forall (V : Type) (m : gmap string V),
      map_range m ≡ₚ map_to_list m
}.

(** ** Package version: Debian-style version comparison *)

Module version.

(** [unicode.IsDigit] on the Latin-1 range, the only runes a byte yields:
    Go tests ['0' <= r && r <= '9'] there. *)
Definition IsDigit (r : Z) : bool := (48 <=? r) && (r <=? 57).

(** [unicode.IsLetter] on the Latin-1 range (the [pLmask] entries of Go's
    property table). *)
Definition IsLetter (r : Z) : bool :=
  ((65 <=? r) && (r <=? 90)) || ((97 <=? r) && (r <=? 122))
  || (r =? 170) || (r =? 181) || (r =? 186)
  || ((192 <=? r) && (r <=? 214)) || ((216 <=? r) && (r <=? 246))
  || ((248 <=? r) && (r <=? 255)).

(** [unicode.ToLower] on the Latin-1 range. *)
Definition ToLower (r : Z) : Z :=
  if ((65 <=? r) && (r <=? 90)) || ((192 <=? r) && (r <=? 214))
     || ((216 <=? r) && (r <=? 222))
  then r + 32 else r.

Definition order (r : Z) : Z :=
  if r =? 0 then 0
  else if r =? 126 then -1
  else if IsDigit r then r
  else if IsLetter r then ToLower r + 256
  else r + 256.

(** [nextRune(s, &i)], on the suffix of [s] that starts at [i]: the rune
    read and the suffix after the index moved. *)
Definition nextRune (s : string) : Z * string :=
  match s with
  | EmptyString => (0, EmptyString)
  | String c s' => (rune c, s')
  end.

(** One turn of the loop of [compareNonDigits]; [continue] is the value of
    the remaining turns. *)
Definition nonDigitsTurn (ra rb : Z) (continue : Z) : Z :=
  let oa := order ra in
  let ob := order rb in
  if negb (oa =? ob) then (if oa <? ob then -1 else 1)
  else if (ra =? 0) && (rb =? 0) then 0
  else continue.

(** [compareNonDigits]: the arguments are the suffixes [a[ia:]] and
    [b[ib:]]; the loop runs while one of them is non-empty. *)
Fixpoint compareNonDigits (a b : string) : Z :=
  match a with
  | EmptyString =>
      (fix a_exhausted (b : string) : Z :=
         match b with
         | EmptyString => 0
         | String cb b' => nonDigitsTurn 0 (rune cb) (a_exhausted b')
         end) b
  | String ca a' =>
      match b with
      | EmptyString => nonDigitsTurn (rune ca) 0 (compareNonDigits a' EmptyString)
      | String cb b' => nonDigitsTurn (rune ca) (rune cb) (compareNonDigits a' b')
      end
  end.

(** [strings.TrimLeft(s, "0")] *)
Fixpoint TrimLeft0 (s : string) : string :=
  match s with
  | String c s' => if Ascii.eqb c "0" then TrimLeft0 s' else s
  | EmptyString => EmptyString
  end.

Definition compareDigits (a b : string) : Z :=
  let a := TrimLeft0 a in
  let b := TrimLeft0 b in
  if negb (String.length a =? String.length b)%nat then
    (if (String.length a <? String.length b)%nat then -1 else 1)
  else if String.eqb a b then 0
  else if String.ltb a b then -1
  else 1.

Fixpoint leadingNonDigits (s : string) : string :=
  match s with
  | EmptyString => EmptyString
  | String c s' =>
      if negb (IsDigit (rune c)) then String c (leadingNonDigits s')
      else EmptyString
  end.

Fixpoint leadingDigits (s : string) : string :=
  match s with
  | EmptyString => EmptyString
  | String c s' =>
      if IsDigit (rune c) then String c (leadingDigits s') else EmptyString
  end.

(** The loop of [comparePart]. Each turn that continues removes at least
    one byte from [a] or [b]; [None] means the fuel ran out. *)
Fixpoint comparePart_loop (fuel : nat) (a b : string) : option Z :=
  if (0 <? String.length a)%nat || (0 <? String.length b)%nat then
    match fuel with
    | O => None
    | S fuel =>
        let an := leadingNonDigits a in
        let bn := leadingNonDigits b in
        if negb (String.eqb an "") || negb (String.eqb bn "") then
          let c := compareNonDigits an bn in
          if negb (c =? 0) then Some c
          else comparePart_loop fuel (string_drop (String.length an) a)
                                     (string_drop (String.length bn) b)
        else
          let ad := leadingDigits a in
          let bd := leadingDigits b in
          if negb (String.eqb ad "") || negb (String.eqb bd "") then
            let c := compareDigits ad bd in
            if negb (c =? 0) then Some c
            else comparePart_loop fuel (string_drop (String.length ad) a)
                                       (string_drop (String.length bd) b)
          else if (String.length a =? 0)%nat && (String.length b =? 0)%nat then Some 0
          else if (String.length a =? 0)%nat then Some (-1)
          else if (String.length b =? 0)%nat then Some 1
          else comparePart_loop fuel a b
    end
  else Some 0.

(** Fuel that always suffices (lemma [comparePart_loop_total]). *)
Definition comparePart_fuel (a b : string) : nat :=
  S (String.length a + String.length b).

Definition comparePart (a b : string) : Z :=
  default 0 (comparePart_loop (comparePart_fuel a b) a b).

(** [strconv.Atoi] with a 64-bit [int]: an optional sign, then one or
    more decimal digits, and a value in the range of [int]. *)
Fixpoint digits_value (acc : Z) (s : string) : option Z :=
  match s with
  | EmptyString => Some acc
  | String c s' =>
      if IsDigit (rune c) then digits_value (10 * acc + (rune c - 48)) s'
      else None
  end.

Definition Atoi (s : string) : option Z :=
  let '(neg, body) :=
    match s with
    | String c s' =>
        if Ascii.eqb c "-" then (true, s')
        else if Ascii.eqb c "+" then (false, s')
        else (false, s)
    | EmptyString => (false, s)
    end in
  match body with
  | EmptyString => None
  | _ =>
      match digits_value 0 body with
      | None => None
      | Some v =>
          let v := if neg : bool then - v else v in
          if (- 2 ^ 63 <=? v) && (v <=? 2 ^ 63 - 1) then Some v else None
      end
  end.

(** [splitEpoch]: [strings.SplitN(s, ":", 2)] has two parts exactly when
    [s] contains a colon. *)
Definition splitEpoch (s : string) : Z * string :=
  match IndexByte s ":" with
  | None => (0, s)
  | Some i =>
      match Atoi (string_take i s) with
      | None => (0, s)
      | Some epoch => (epoch, string_drop (S i) s)
      end
  end.

Definition splitRevision (s : string) : string * string :=
  match LastIndexByte s "-" with
  | Some idx => (string_take idx s, string_drop (S idx) s)
  | None => (s, "")
  end.

Definition Compare (a b : string) : Z :=
  let '(ea, ra) := splitEpoch a in
  let '(eb, rb) := splitEpoch b in
  if negb (ea =? eb) then (if ea <? eb then -1 else 1)
  else
    let '(ua, da) := splitRevision ra in
    let '(ub, db) := splitRevision rb in
    let c := comparePart ua ub in
    if negb (c =? 0) then c
    else comparePart da db.

(** The operators [CompareOp] accepts. *)
Definition supported_operators : list string :=
  ["<"; "<="; "="; "=="; ">"; ">="; "<<"; ">>"].

Section operators.
Context `{Runtime}.

Definition CompareOp (a op b : string) : result bool :=
  if negb (existsb (String.eqb op) supported_operators) then
    Err (errors_New ("unsupported operator " ++ strconv_Quote op))
  else
    let cmp := Compare a b in
    if String.eqb op "<" || String.eqb op "<<" then Ok (cmp <? 0)
    else if String.eqb op "<=" then Ok (cmp <=? 0)
    else if String.eqb op "=" || String.eqb op "==" then Ok (cmp =? 0)
    else if String.eqb op ">" || String.eqb op ">>" then Ok (cmp >? 0)
    else if String.eqb op ">=" then Ok (cmp >=? 0)
    else Ok false.

End operators.

End version.

(** ** The outside world *)

(** File system operations a call performs, in order. *)
Inductive FsOp : Type :=
| FsMkdirAll (dir : string) (perm : Z)
| FsWriteFile (name : string) (data : string) (perm : Z)
| FsRename (oldpath newpath : string).

(** The outside world during one call: the answer to an HTTP GET of a
    URL, the content of a file, and the error of a file system operation
    that fails. *)
Record World : Type := {
  http_Get : string -> result string;
  os_ReadFile : string -> result string;
  fs_error : FsOp -> option error
}.

(** ** Package format: control paragraphs *)

Module format.
Section format.
Context `{Runtime}.

Record Paragraph : Type := { Fields : gmap string string }.

(** [Value]: the first key met by the iteration that folds to [key]. *)
Definition Value (p : Paragraph) (key : string) : string :=
  match List.find (fun kv => strings_EqualFold (fst kv) key) (map_range (Fields p)) with
  | Some kv => snd kv
  | None => ""
  end.

Record ControlFile : Type := { Paragraphs : list Paragraph }.

(** The variables of [ParseControl]'s loop. [current_fields] is the map of
    [current]; [lastKey] is the empty string when no key was seen. *)
Record parser : Type := {
  current_fields : gmap string string;
  file_paragraphs : list Paragraph;
  lastKey : string
}.

Definition flush (st : parser) : parser :=
  if (size (current_fields st) =? 0)%nat then st
  else {| current_fields := ∅;
          file_paragraphs := file_paragraphs st ++ [{| Fields := current_fields st |}];
          lastKey := lastKey st |}.

(** One turn of the scanning loop. *)
Definition parseLine (st : parser) (line : string) : result parser :=
  if String.eqb line "" then
    let st := flush st in
    Ok {| current_fields := current_fields st;
          file_paragraphs := file_paragraphs st;
          lastKey := "" |}
  else if HasPrefix line " " || HasPrefix line (String "009" "") then
    if String.eqb (lastKey st) "" then
      Err (errors_New ("continuation line encountered before key: "
                       ++ strconv_Quote line))
    else
      let old := default "" (current_fields st !! lastKey st) in
      Ok {| current_fields :=
              <[lastKey st := old ++ String LF (TrimLeftFunc is_blank_or_tab line)]>
                (current_fields st);
            file_paragraphs := file_paragraphs st;
            lastKey := lastKey st |}
  else
    match IndexByte line ":" with
    | None => Err (errors_New ("malformed control line: " ++ strconv_Quote line))
    | Some colon =>
        let key := TrimSpace (string_take colon line) in
        let value := TrimSpace (string_drop (S colon) line) in
        Ok {| current_fields := <[key := value]> (current_fields st);
              file_paragraphs := file_paragraphs st;
              lastKey := key |}
    end.

Fixpoint parseLines (st : parser) (lines : list string) : result parser :=
  match lines with
  | [] => Ok st
  | line :: lines =>
      match parseLine st line with
      | Err e => Err e
      | Ok st => parseLines st lines
      end
  end.

Definition ParseControl (data : string) : result ControlFile :=
  let '(lines, scan_err) := ScanLines data in
  match parseLines {| current_fields := ∅; file_paragraphs := []; lastKey := "" |} lines with
  | Err e => Err e
  | Ok st =>
      match scan_err with
      | Some e => Err e
      | None => Ok {| Paragraphs := file_paragraphs (flush st) |}
      end
  end.

(** [Keys]: the keys of the paragraph, sorted. *)
Definition Keys (p : Paragraph) : list string :=
  sort_Strings (map fst (map_range (Fields p))).

End format.
End format.

(** ** Package config: the parsed configuration and its derived paths *)

Module config.
Section config.
Context `{Runtime}.

Record Feed : Type := { Feed_Name : string; URI : string; Type_ : string }.

Record Destination : Type := { Destination_Name : string; Path : string }.

Record Architecture : Type := { Architecture_Name : string; Priority : Z }.

Record Config : Type := {
  Options : gmap string string;
  Feeds : list Feed;
  Destinations : list Destination;
  Includes : list string;
  Architectures : list Architecture
}.

(** A [*Config] receiver is [None] when it is [nil]. *)
Definition FindOption (c : option Config) (key fallback : string) : string :=
  match c with
  | None => fallback
  | Some c =>
      match Options c !! key with
      | Some v => v
      | None => fallback
      end
  end.

Definition StatusPath (c : option Config) : result string :=
  match c with
  | None => Err (errors_New "nil config")
  | Some cfg =>
      let path := FindOption c "status" "" in
      if negb (String.eqb path "") then Ok path
      else
        match List.find (fun dest => String.eqb (Destination_Name dest) "root")
                        (Destinations cfg) with
        | Some dest => Ok (filepath_Join (Path dest) "usr/lib/opkg/status")
        | None => Err (errors_New "status path not configured")
        end
  end.

Definition CacheDir (c : option Config) : string :=
  match c with
  | None => ""
  | Some _ =>
      let cache := FindOption c "cache_dir" "" in
      if negb (String.eqb cache "") then cache
      else
        let tmp := FindOption c "tmp_dir" "" in
        if negb (String.eqb tmp "") then tmp
        else "/tmp"
  end.

(** [fs.ModePerm] *)
Definition ModePerm : Z := 511.

(** [EnsureCacheDir]: the result and the file system operations made. *)
Definition EnsureCacheDir (w : World) (cfg : option Config)
  : result string * list FsOp :=
  match cfg with
  | None => (Err (errors_New "nil config"), [])
  | Some _ =>
      let cache := CacheDir cfg in
      if String.eqb cache "" then (Err (errors_New "cache directory not configured"), [])
      else
        let op := FsMkdirAll cache ModePerm in
        match fs_error w op with
        | Some err => (Err (Errorf_wrap "create cache dir: " err), [op])
        | None => (Ok cache, [op])
        end
  end.

Definition ResolveDest (c : option Config) (name : string) : result string :=
  match c with
  | None => Err (errors_New "nil config")
  | Some cfg =>
      match List.find (fun dest => String.eqb (Destination_Name dest) name)
                      (Destinations cfg) with
      | Some dest => Ok (Path dest)
      | None => Err (errors_New ("unknown destination " ++ strconv_Quote name))
      end
  end.

(** The loop of [fields] over the bytes of the line, with its variables
    [inQuote], [current] and [result]. *)
Fixpoint fields_loop (line : string) (inQuote : bool) (current : string)
    (result : list string) : list string :=
  match line with
  | EmptyString =>
      if (0 <? String.length current)%nat then result ++ [current] else result
  | String ch line =>
      if Ascii.eqb ch "034" then fields_loop line (negb inQuote) current result
      else if Ascii.eqb ch " " || Ascii.eqb ch "009" then
        if inQuote then fields_loop line inQuote (current ++ String ch "") result
        else if (0 <? String.length current)%nat
             then fields_loop line inQuote "" (result ++ [current])
             else fields_loop line inQuote current result
      else fields_loop line inQuote (current ++ String ch "") result
  end.

Definition fields (line : string) : list string :=
  fields_loop line false "" [].

(** [strings.Join(elems, sep)] *)
Fixpoint Join (elems : list string) (sep : string) : string :=
  match elems with
  | [] => ""
  | [e] => e
  | e :: rest => e ++ sep ++ Join rest sep
  end.

(** What [Load] asks of the file system: the lines a default
    [bufio.Scanner] reads from the opened file with the value of
    [scanner.Err()], and the matches of [filepath.Glob]. *)
Record Files : Type := {
  open_lines : string -> result (list string * option error);
  Glob : string -> result (list string)
}.

(** The variables of [Load] that the closure [load] updates. *)
Record loader : Type := {
  loader_cfg : Config;
  visited : gmap string bool
}.

Definition with_cfg (st : loader) (c : Config) : loader :=
  {| loader_cfg := c; visited := visited st |}.

(** [fmt.Errorf("%s:%d: " + msg, p, lineNo)] *)
Definition at_line (p : string) (lineNo : nat) (msg : string) : error :=
  errors_New (p ++ ":" ++ pretty (N.of_nat lineNo) ++ ": " ++ msg).

(** What a line asks of the loop, once it is trimmed and split: a new
    configuration, an error, or the files of an [include] to load. *)
Inductive directive : Type :=
| Updated (c : Config)
| Failed (err : error)
| Include (c : Config) (pattern : string).

(** The [switch] of [load] on the tokens of a line, up to the call of
    [filepath.Glob]. *)
Definition interpret (c : Config) (p : string) (lineNo : nat) (tokens : list string)
  : directive :=
  match tokens with
  | [] => Updated c
  | t0 :: args =>
      if String.eqb t0 "option" then
        match args with
        | key :: (_ :: _) as values =>
            Updated {| Options := <[key := Join values " "]> (Options c);
                       Feeds := Feeds c; Destinations := Destinations c;
                       Includes := Includes c; Architectures := Architectures c |}
        | _ => Failed (at_line p lineNo "option expects key and value")
        end
      else if String.eqb t0 "dest" then
        match args with
        | name :: path :: _ =>
            Updated {| Options := Options c; Feeds := Feeds c;
                       Destinations := Destinations c
                                       ++ [{| Destination_Name := name; Path := path |}];
                       Includes := Includes c; Architectures := Architectures c |}
        | _ => Failed (at_line p lineNo "dest expects name and path")
        end
      else if String.eqb t0 "src" || String.eqb t0 "src/gz" || String.eqb t0 "src/sig" then
        match args with
        | name :: uri :: _ =>
            Updated {| Options := Options c;
                       Feeds := Feeds c ++ [{| Feed_Name := name; URI := uri; Type_ := t0 |}];
                       Destinations := Destinations c;
                       Includes := Includes c; Architectures := Architectures c |}
        | _ => Failed (at_line p lineNo (t0 ++ " expects name and URI"))
        end
      else if String.eqb t0 "arch" then
        match args with
        | [] => Failed (at_line p lineNo "arch expects name and optional priority")
        | name :: rest =>
            let prio :=
              match rest with
              | [] => Some 0
              | t2 :: _ => version.Atoi t2
              end in
            match prio with
            | None =>
                Failed (at_line p lineNo
                          ("invalid architecture priority "
                           ++ strconv_Quote (default "" (head rest))))
            | Some prio =>
                Updated {| Options := Options c; Feeds := Feeds c;
                           Destinations := Destinations c; Includes := Includes c;
                           Architectures := Architectures c
                                            ++ [{| Architecture_Name := name;
                                                   Priority := prio |}] |}
            end
        end
      else if String.eqb t0 "include" then
        match args with
        | [] => Failed (at_line p lineNo "include expects a glob")
        | pattern :: _ =>
            Include {| Options := Options c; Feeds := Feeds c;
                       Destinations := Destinations c;
                       Includes := Includes c ++ [pattern];
                       Architectures := Architectures c |} pattern
        end
      else
        match args with
        | _ :: _ =>
            Updated {| Options := <[t0 := Join args " "]> (Options c);
                       Feeds := Feeds c; Destinations := Destinations c;
                       Includes := Includes c; Architectures := Architectures c |}
        | [] =>
            match IndexByte t0 "=" with
            | Some i =>
                Updated {| Options := <[TrimSpace (string_take i t0)
                                        := TrimSpace (string_drop (S i) t0)]> (Options c);
                           Feeds := Feeds c; Destinations := Destinations c;
                           Includes := Includes c; Architectures := Architectures c |}
            | None =>
                Failed (at_line p lineNo ("unsupported directive " ++ strconv_Quote t0))
            end
        end
  end.

(** A line the loop skips: empty once trimmed, or a comment. *)
Definition skipped (raw : string) : bool :=
  String.eqb raw "" || HasPrefix raw "#" || HasPrefix raw "//".

(** The closure [load] of [Load]. A call that opens a file marks a path
    that was not visited; [None] means the fuel ran out. The loops over
    the lines of the file and over the matches of an [include] are the
    inner fixpoints. *)
Fixpoint load (fuel : nat) (fs : Files) (p : string) (st : loader)
  : option (result loader) :=
  match fuel with
  | O => None
  | S fuel =>
      if default false (visited st !! p) then Some (Ok st)
      else
        let st := {| loader_cfg := loader_cfg st;
                     visited := <[p := true]> (visited st) |} in
        match open_lines fs p with
        | Err err => Some (Err (Errorf_wrap ("open config " ++ p ++ ": ") err))
        | Ok (lines, scan_err) =>
            let scanned :=
              (fix scan (lines : list string) (lineNo : nat) (st : loader)
                 : option (result loader) :=
                 match lines with
                 | [] => Some (Ok st)
                 | line :: lines =>
                     let lineNo := S lineNo in
                     let raw := TrimSpace line in
                     if skipped raw then scan lines lineNo st
                     else
                       match interpret (loader_cfg st) p lineNo (fields raw) with
                       | Updated c => scan lines lineNo (with_cfg st c)
                       | Failed err => Some (Err err)
                       | Include c pattern =>
                           match Glob fs pattern with
                           | Err err =>
                               Some (Err (Errorf_wrap
                                            (p ++ ":" ++ pretty (N.of_nat lineNo)
                                             ++ ": invalid glob: ") err))
                           | Ok matches =>
                               let included :=
                                 (fix each (matches : list string) (st : loader)
                                    : option (result loader) :=
                                    match matches with
                                    | [] => Some (Ok st)
                                    | m :: matches =>
                                        match load fuel fs m st with
                                        | Some (Ok st) => each matches st
                                        | other => other
                                        end
                                    end) matches (with_cfg st c) in
                               match included with
                               | Some (Ok st) => scan lines lineNo st
                               | other => other
                               end
                           end
                       end
                 end) lines O st in
            match scanned with
            | Some (Ok st) =>
                match scan_err with
                | Some err => Some (Err (Errorf_wrap ("read config " ++ p ++ ": ") err))
                | None => Some (Ok st)
                end
            | other => other
            end
        end
  end.

Definition empty_Config : Config :=
  {| Options := ∅; Feeds := []; Destinations := []; Includes := [];
     Architectures := [] |}.

(** [Load] *)
Definition Load (fuel : nat) (fs : Files) (path : string) : option (result Config) :=
  match load fuel fs path {| loader_cfg := empty_Config; visited := ∅ |} with
  | Some (Ok st) => Some (Ok (loader_cfg st))
  | Some (Err err) => Some (Err err)
  | None => None
  end.

End config.
End config.

(** ** Package pkgdb: the status database *)

Module pkgdb.
Section pkgdb.
Context `{Runtime}.

Record Entry : Type := {
  Name : string;
  Version : string;
  Architecture : string;
  Status_ : string;
  Raw : format.Paragraph
}.

(** The mutex of the Go structure guards reads only and is left out. *)
Record Status : Type := {
  path : string;
  byName : gmap string Entry
}.

Definition entryOf (paragraph : format.Paragraph) (name : string) : Entry :=
  {| Name := name;
     Version := format.Value paragraph "Version";
     Architecture := format.Value paragraph "Architecture";
     Status_ := format.Value paragraph "Status";
     Raw := paragraph |}.

(** The loop of [Load] over the paragraphs. *)
Fixpoint loadParagraphs (byName : gmap string Entry) (ps : list format.Paragraph)
  : gmap string Entry :=
  match ps with
  | [] => byName
  | paragraph :: ps =>
      let name := format.Value paragraph "Package" in
      if String.eqb name "" then loadParagraphs byName ps
      else loadParagraphs (<[name := entryOf paragraph name]> byName) ps
  end.

Definition Load (w : World) (path : string) : result Status :=
  match os_ReadFile w path with
  | Err err => Err (Errorf_wrap "read status: " err)
  | Ok data =>
      match format.ParseControl data with
      | Err err => Err (Errorf_wrap "parse status: " err)
      | Ok cf =>
          Ok {| path := path; byName := loadParagraphs ∅ (format.Paragraphs cf) |}
      end
  end.

Definition Empty : Status := {| path := ""; byName := ∅ |}.

Definition Installed (s : Status) (name : string) : bool :=
  match byName s !! name with
  | None => false
  | Some entry => Contains (Status_ entry) "installed"
  end.

Definition Entries (s : Status) : list Entry :=
  sort_Slice Name (map snd (map_range (byName s))).

Definition ErrNotFound : error := errors_New "package not found".

Definition Lookup (s : Status) (name : string) : result Entry :=
  match byName s !! name with
  | Some entry => Ok entry
  | None => Err ErrNotFound
  end.

End pkgdb.
End pkgdb.

(** ** Package downloader *)

Module downloader.
Section downloader.
Context `{Runtime}.

(** The HTTP client is the world's [http_Get]; the structure keeps the
    timeout, in seconds. *)
Record Client : Type := { timeout : Z }.

Definition New (timeout : Z) : Client :=
  {| timeout := if timeout =? 0 then 30 else timeout |}.

Definition GetBytes (w : World) (c : option Client) (url : string) : result string :=
  match c with
  | None => Err (errors_New "nil downloader client")
  | Some _ => http_Get w url
  end.

(** [DownloadToFile]: the error, if any, and the file system operations
    made, in order. *)
Definition DownloadToFile (w : World) (c : option Client) (url path : string)
  : option error * list FsOp :=
  match GetBytes w c url with
  | Err err => (Some err, [])
  | Ok data =>
      let mk := FsMkdirAll (filepath_Dir path) 493 in
      match fs_error w mk with
      | Some err => (Some (Errorf_wrap "prepare directory: " err), [mk])
      | None =>
          let tmp := path ++ ".tmp" in
          let wr := FsWriteFile tmp data 420 in
          match fs_error w wr with
          | Some err => (Some (Errorf_wrap "write temp file: " err), [mk; wr])
          | None =>
              let mv := FsRename tmp path in
              match fs_error w mv with
              | Some err => (Some (Errorf_wrap "commit download: " err), [mk; wr; mv])
              | None => (None, [mk; wr; mv])
              end
          end
      end
  end.

End downloader.
End downloader.

(** The write discipline of [DownloadToFile], read off a list of file
    system operations: [data] is written to [path ++ ".tmp"], and that
    file is renamed to [path]. *)
Definition writes_via_temp (path data : string) (ops : list FsOp) : bool :=
  existsb (fun op =>
             match op with
             | FsWriteFile name d _ => String.eqb name (path ++ ".tmp") && String.eqb d data
             | _ => false
             end) ops
  && existsb (fun op =>
                match op with
                | FsRename old new => String.eqb old (path ++ ".tmp") && String.eqb new path
                | _ => false
                end) ops.

(** ** Package repo: feed acquisition and the index set *)

Module repo.
Section repo.
Context `{Runtime}.

Record Package : Type := {
  Name : string;
  Version : string;
  Architecture : string;
  Description : string;
  Filename : string;
  Size : string;
  Feed : config.Feed;
  Raw : format.Paragraph
}.

(** The time stamp [Updated] is written once and never read; it is left
    out. *)
Record Index : Type := {
  Index_Feed : config.Feed;
  Packages : gmap string Package
}.

(** The loop of [fetchFeed] over the two URLs: it stops at the first
    success and otherwise keeps the last error. *)
Fixpoint tryUrls (w : World) (client : option downloader.Client)
    (urls : list string) (last : result string) : result string :=
  match urls with
  | [] => last
  | url :: urls =>
      match downloader.GetBytes w client url with
      | Ok data => Ok data
      | Err err => tryUrls w client urls (Err err)
      end
  end.

(** The gzip magic number [1F 8B]. *)
Definition gzip_magic : string := String "031" (String "139" "").

Definition packageOf (feed : config.Feed) (paragraph : format.Paragraph)
    (name : string) : Package :=
  {| Name := name;
     Version := format.Value paragraph "Version";
     Architecture := format.Value paragraph "Architecture";
     Description := format.Value paragraph "Description";
     Filename := format.Value paragraph "Filename";
     Size := format.Value paragraph "Size";
     Feed := feed;
     Raw := paragraph |}.

(** The loop of [fetchFeed] over the paragraphs: the last paragraph of a
    name wins. *)
Fixpoint indexParagraphs (feed : config.Feed) (pkgs : gmap string Package)
    (ps : list format.Paragraph) : gmap string Package :=
  match ps with
  | [] => pkgs
  | paragraph :: ps =>
      let name := format.Value paragraph "Package" in
      if String.eqb name "" then indexParagraphs feed pkgs ps
      else indexParagraphs feed (<[name := packageOf feed paragraph name]> pkgs) ps
  end.

(** The bytes of the feed after the download and the optional
    decompression. *)
Definition uncompress (feed : config.Feed) (data : string) : result string :=
  if HasPrefix data gzip_magic then
    match gzip_NewReader data with
    | Err err => Err (Errorf_wrap ("decompress " ++ config.Feed_Name feed ++ ": ") err)
    | Ok zr =>
        match ioReadAll zr with
        | Err err => Err (Errorf_wrap ("read " ++ config.Feed_Name feed ++ ": ") err)
        | Ok data => Ok data
        end
    end
  else Ok data.

(** [fetchFeed]: the result and the file system operations made. *)
Definition fetchFeed (w : World) (feed : config.Feed) (cacheDir : string)
    (client : option downloader.Client) : result Index * list FsOp :=
  if String.eqb (config.URI feed) "" then
    (Err (errors_New ("feed " ++ config.Feed_Name feed ++ " has empty URI")), [])
  else
    let base := TrimSuffix_slash (config.URI feed) in
    let urls := [base ++ "/Packages.gz"; base ++ "/Packages"] in
    match tryUrls w client urls (Ok "") with
    | Err err => (Err (Errorf_wrap ("fetch feed " ++ config.Feed_Name feed ++ ": ") err), [])
    | Ok data =>
        match uncompress feed data with
        | Err err => (Err err, [])
        | Ok data =>
            match format.ParseControl data with
            | Err err =>
                (Err (Errorf_wrap ("parse feed " ++ config.Feed_Name feed ++ ": ") err), [])
            | Ok cf =>
                let index := {| Index_Feed := feed;
                                Packages := indexParagraphs feed ∅ (format.Paragraphs cf) |} in
                if negb (String.eqb cacheDir "") then
                  let path := filepath_Join cacheDir (config.Feed_Name feed ++ ".Packages") in
                  let op := FsWriteFile path data 420 in
                  match fs_error w op with
                  | Some err =>
                      (Err (Errorf_wrap ("cache feed " ++ config.Feed_Name feed ++ ": ") err), [op])
                  | None => (Ok index, [op])
                  end
                else (Ok index, [])
            end
        end
    end.

(** The variables shared by the goroutines of [Update], guarded by [mu]. *)
Record shared : Type := {
  result_ : list Index;
  firstErr : option error
}.

(** The critical section a goroutine runs once its [fetchFeed] returned. *)
Definition complete (st : shared) (r : result Index) : shared :=
  match r with
  | Err err =>
      match firstErr st with
      | None => {| result_ := result_ st; firstErr := Some err |}
      | Some _ => st
      end
  | Ok idx => {| result_ := result_ st ++ [idx]; firstErr := firstErr st |}
  end.

(** [Update]. One goroutine runs per feed; [schedule] lists the positions
    of the feeds in [cfg.Feeds] in the order in which their goroutines
    enter the critical section. A run of the program corresponds to a
    schedule that is a permutation of all positions. *)
Definition Update (w : World) (schedule : list nat) (cfg : option config.Config)
    (cacheDir : string) (client : option downloader.Client) : result (list Index) :=
  match cfg with
  | None => Err (errors_New "configuration required")
  | Some cfg =>
      match client with
      | None => Err (errors_New "downloader required")
      | Some _ =>
          let outcomes :=
            omap (fun i => (fun feed => fst (fetchFeed w feed cacheDir client))
                             <$> config.Feeds cfg !! i) schedule in
          let st := fold_left complete outcomes {| result_ := []; firstErr := None |} in
          match firstErr st with
          | Some err => Err err
          | None => Ok (result_ st)
          end
      end
  end.

Record IndexSet : Type := { indexes : list Index }.

Definition NewIndexSet (indexes : list Index) : IndexSet :=
  {| indexes := indexes |}.

(** The loop of [Find] over the indexes. *)
Fixpoint find_in (idxs : list Index) (name : string) : option Package :=
  match idxs with
  | [] => None
  | idx :: idxs =>
      match Packages idx !! name with
      | Some pkg => Some pkg
      | None => find_in idxs name
      end
  end.

Definition Find (s : IndexSet) (name : string) : option Package :=
  find_in (indexes s) name.

Definition All (s : IndexSet) : list Package :=
  flat_map (fun idx => map snd (map_range (Packages idx))) (indexes s).

End repo.
End repo.

(** ** Package pkgmgr: the manager and its queries *)

Module pkgmgr.
Section pkgmgr.
Context `{Runtime}.

(** [indexesLoaded] is the field [ensureIndexesLoaded] reads. The
    revision of manager.go under src/ does not declare it and never
    assigns it; who writes it, and what, is taken from the specification
    in [flag_of_new_manager] and [flag_after_update]. *)
Record Manager : Type := {
  cfg : option config.Config;
  client : option downloader.Client;
  status : pkgdb.Status;
  indexes : repo.IndexSet;
  cache : string;
  indexesLoaded : bool
}.

(** Modelled from the spec: the value of the flag [indexesLoaded] in a
    new manager, whose declaration and assignments are missing from
    src/. The manager "remains unready for any query that needs feed
    data until an explicit update has succeeded". *)
Definition flag_of_new_manager : bool := false.

(** Modelled from the spec: the value a successful [Update] assigns to
    the flag [indexesLoaded]; the assignment is missing from src/. "After
    a successful update, the indexes-loaded flag is true until the facade
    is discarded"; when the update fails, "the indexes-loaded flag stays
    at its previous value", as everything else does when [Update] returns
    the error. *)
Definition flag_after_update : bool := true.

(** [New]. [loaded] is what [config.Load(cfgPath)] returned. *)
Definition New (w : World) (loaded : result config.Config) : result Manager :=
  match loaded with
  | Err err => Err err
  | Ok c =>
      match fst (config.EnsureCacheDir w (Some c)) with
      | Err err => Err err
      | Ok cache =>
          let status :=
            match config.StatusPath (Some c) with
            | Err _ => Ok pkgdb.Empty
            | Ok statusPath =>
                match pkgdb.Load w statusPath with
                | Ok st => Ok st
                | Err err =>
                    if errors_Is_NotExist err then Ok pkgdb.Empty else Err err
                end
            end in
          match status with
          | Err err => Err err
          | Ok status =>
              Ok {| cfg := Some c;
                    client := Some (downloader.New 0);
                    status := status;
                    indexes := {| repo.indexes := [] |};
                    cache := cache;
                    indexesLoaded := flag_of_new_manager |}
          end
      end
  end.

(** [Update]: the manager after the call and the error returned. *)
Definition Update (w : World) (schedule : list nat) (m : Manager)
  : Manager * option error :=
  match repo.Update w schedule (cfg m) (cache m) (client m) with
  | Err err => (m, Some err)
  | Ok indexes =>
      ({| cfg := cfg m;
          client := client m;
          status := status m;
          indexes := repo.NewIndexSet indexes;
          cache := cache m;
          indexesLoaded := flag_after_update |}, None)
  end.

Record ListOptions : Type := {
  InstalledOnly : bool;
  ListOptions_Patterns : list string;
  ShortDescription : bool;
  IncludeSize : bool
}.

Record UpgradeCandidate : Type := {
  Name : string;
  Installed : string;
  Available : string;
  Description : string
}.

Definition ErrIndexesNotLoaded : error :=
  errors_New "package indexes not loaded; run 'opkg update' first".

Definition ensureIndexesLoaded (m : Manager) : option error :=
  if negb (indexesLoaded m) then Some ErrIndexesNotLoaded else None.

Definition matchesAny (name : string) (patterns : list string) : bool :=
  if (length patterns =? 0)%nat then true
  else existsb (fun pattern =>
                  match path_Match pattern name with
                  | Some ok => ok
                  | None => false
                  end) patterns.

Definition firstLine (text : string) : string :=
  match IndexByte text LF with
  | Some idx => string_take idx text
  | None => text
  end.

(** The description shown by [ListPackages] and [listInstalled]. *)
Definition shownDescription (opts : ListOptions) (desc : string) : string :=
  let desc := if ShortDescription opts then firstLine desc
              else ReplaceAll_LF desc " " in
  if String.eqb desc "" then "(no description)" else desc.

Definition listInstalled (m : Manager) (opts : ListOptions) : result (list string) :=
  let entries := sort_Slice pkgdb.Name (pkgdb.Entries (status m)) in
  Ok (omap (fun entry =>
        if negb (matchesAny (pkgdb.Name entry) (ListOptions_Patterns opts)) then None
        else
          let desc := shownDescription opts (format.Value (pkgdb.Raw entry) "Description") in
          let size := format.Value (pkgdb.Raw entry) "Installed-Size" in
          if IncludeSize opts && negb (String.eqb size "")
          then Some (pkgdb.Name entry ++ " - " ++ desc ++ " (" ++ size ++ ")")
          else Some (pkgdb.Name entry ++ " - " ++ desc))
      entries).

Definition ListPackages (m : Manager) (opts : ListOptions) : result (list string) :=
  if InstalledOnly opts then listInstalled m opts
  else
    match ensureIndexesLoaded m with
    | Some err => Err err
    | None =>
        let pkgs := sort_Slice repo.Name (repo.All (indexes m)) in
        Ok (omap (fun pkg =>
              if negb (matchesAny (repo.Name pkg) (ListOptions_Patterns opts)) then None
              else
                let desc := shownDescription opts (repo.Description pkg) in
                let status_ := if pkgdb.Installed (status m) (repo.Name pkg)
                               then " [installed]" else "" in
                if IncludeSize opts && negb (String.eqb (repo.Size pkg) "")
                then Some (repo.Name pkg ++ " - " ++ desc ++ status_
                           ++ " (" ++ repo.Size pkg ++ ")")
                else Some (repo.Name pkg ++ " - " ++ desc ++ status_))
            pkgs)
    end.

(** The body of the loop of [ListUpgradable]: the candidate an entry
    contributes, if any. *)
Definition upgradeCandidate (m : Manager) (patterns : list string)
    (entry : pkgdb.Entry) : option UpgradeCandidate :=
  if negb (matchesAny (pkgdb.Name entry) patterns) then None
  else
    match repo.Find (indexes m) (pkgdb.Name entry) with
    | None => None
    | Some pkg =>
        if version.Compare (pkgdb.Version entry) (repo.Version pkg) >=? 0 then None
        else Some {| Name := pkgdb.Name entry;
                     Installed := pkgdb.Version entry;
                     Available := repo.Version pkg;
                     Description := firstLine (repo.Description pkg) |}
    end.

Definition ListUpgradable (m : Manager) (patterns : list string)
  : result (list UpgradeCandidate) :=
  match ensureIndexesLoaded m with
  | Some err => Err err
  | None =>
      let candidates := omap (upgradeCandidate m patterns) (pkgdb.Entries (status m)) in
      Ok (sort_Slice Name candidates)
  end.

Record ReverseDependencyQuery : Type := {
  Field : string;
  IncludeAll : bool;
  Recursive : bool;
  Patterns : list string
}.

Definition filterInstalled (pkgs : list repo.Package) (status : pkgdb.Status)
  : list repo.Package :=
  List.filter (fun pkg => pkgdb.Installed status (repo.Name pkg)) pkgs.

(** The byte set of [strings.IndexAny(part, " (<>=")]. *)
Definition relation_stop (c : ascii) : bool :=
  Ascii.eqb c " " || Ascii.eqb c "(" || Ascii.eqb c "<" || Ascii.eqb c ">"
  || Ascii.eqb c "=".

Definition tokensFromRelations (field : string) : list string :=
  flat_map (fun clause =>
    let clause := TrimSpace clause in
    if String.eqb clause "" then []
    else
      omap (fun part =>
        let part := TrimSpace part in
        if String.eqb part "" then None
        else
          match IndexFunc relation_stop part with
          | Some idx => Some (TrimSpace (string_take idx part))
          | None => Some part
          end)
      (Split clause "|"))
  (Split field ",").

Definition relationMatches (field pattern : string) : bool :=
  if String.eqb field "" then false
  else existsb (fun token =>
                  match path_Match pattern token with
                  | Some ok => ok
                  | None => false
                  end) (tokensFromRelations field).

(** A Go [map[string]bool] read with [m[key]]: absent keys read [false]. *)
Definition flag (m : gmap string bool) (key : string) : bool :=
  default false (m !! key).

Definition appendMissingInstalled (pkgs : list repo.Package) (status : pkgdb.Status)
  : list repo.Package :=
  let seen := fold_left (fun seen pkg => <[repo.Name pkg := true]> seen) pkgs
                        (∅ : gmap string bool) in
  fold_left (fun pkgs entry =>
    if flag seen (pkgdb.Name entry) then pkgs
    else (pkgs ++ [{| repo.Name := pkgdb.Name entry;
                     repo.Version := pkgdb.Version entry;
                     repo.Architecture := "";
                     repo.Description := format.Value (pkgdb.Raw entry) "Description";
                     repo.Filename := "";
                     repo.Size := "";
                     repo.Feed := {| config.Feed_Name := ""; config.URI := "";
                                     config.Type_ := "" |};
                     repo.Raw := pkgdb.Raw entry |}])%list)
    (pkgdb.Entries status) pkgs.

(** The variables of the search loop of [ReverseDependencies]. *)
Record search : Type := {
  queue : list string;
  seenTargets : gmap string bool;
  matched : gmap string bool
}.

(** The inner loop: one pass over the universe for [target]. *)
Definition scanUniverse (q : ReverseDependencyQuery) (universe : list repo.Package)
    (target : string) (st : search) : search :=
  fold_left (fun st pkg =>
    if flag (matched st) (repo.Name pkg) then st
    else if relationMatches (format.Value (repo.Raw pkg) (Field q)) target then
      {| queue := if Recursive q then queue st ++ [repo.Name pkg] else queue st;
         seenTargets := seenTargets st;
         matched := <[repo.Name pkg := true]> (matched st) |}
    else st)
  universe st.

(** The outer loop, [for len(queue) > 0]; [None] means the fuel ran
    out. *)
Fixpoint searchLoop (fuel : nat) (q : ReverseDependencyQuery)
    (universe : list repo.Package) (st : search) : option search :=
  match queue st with
  | [] => Some st
  | target :: rest =>
      match fuel with
      | O => None
      | S fuel =>
          let st := {| queue := rest; seenTargets := seenTargets st;
                       matched := matched st |} in
          if flag (seenTargets st) target then searchLoop fuel q universe st
          else
            let st := {| queue := queue st;
                         seenTargets := <[target := true]> (seenTargets st);
                         matched := matched st |} in
            searchLoop fuel q universe (scanUniverse q universe target st)
      end
  end.

Definition universeOf (m : Manager) (q : ReverseDependencyQuery) : list repo.Package :=
  let universe := repo.All (indexes m) in
  if IncludeAll q then appendMissingInstalled universe (status m)
  else appendMissingInstalled (filterInstalled universe (status m)) (status m).

(** Fuel that always suffices (lemma [searchLoop_total]): a turn removes
    one target, and a target is added only together with a newly matched
    package of the universe. *)
Definition search_fuel (q : ReverseDependencyQuery) (universe : list repo.Package) : nat :=
  S (length (Patterns q) + length universe).

Definition ReverseDependencies (m : Manager) (q : ReverseDependencyQuery)
  : result (list string) :=
  match ensureIndexesLoaded m with
  | Some err => Err err
  | None =>
      if (length (Patterns q) =? 0)%nat then
        Err (errors_New "at least one package name or glob is required")
      else
        let universe := universeOf m q in
        let st := {| queue := Patterns q; seenTargets := ∅; matched := ∅ |} in
        match searchLoop (search_fuel q universe) q universe st with
        | None => Ok []
        | Some st => Ok (sort_Strings (map fst (map_range (matched st))))
        end
  end.

Definition relation_fields : list string :=
  ["Depends"; "Pre-Depends"; "Recommends"; "Suggests"; "Provides"; "Conflicts";
   "Replaces"].

Definition dependenciesFromParagraph (p : format.Paragraph) : gmap string (list string) :=
  fold_left (fun result field =>
    let value := format.Value p field in
    if negb (String.eqb value "") then <[field := tokensFromRelations value]> result
    else result)
  relation_fields ∅.

Definition Dependencies (m : Manager) (name : string)
  : result (gmap string (list string)) :=
  match ensureIndexesLoaded m with
  | Some err => Err err
  | None =>
      match repo.Find (indexes m) name with
      | None =>
          match pkgdb.Lookup (status m) name with
          | Err _ => Err (errors_New ("package " ++ name ++ " not found"))
          | Ok entry => Ok (dependenciesFromParagraph (pkgdb.Raw entry))
          end
      | Some pkg => Ok (dependenciesFromParagraph (repo.Raw pkg))
      end
  end.

Definition FindPackages (m : Manager) (pattern : string) : result (list repo.Package) :=
  match ensureIndexesLoaded m with
  | Some err => Err err
  | None =>
      let pattern := strings_ToLower pattern in
      let matches :=
        List.filter (fun pkg =>
          Contains (strings_ToLower (repo.Name pkg)) pattern
          || Contains (strings_ToLower (repo.Description pkg)) pattern)
          (repo.All (indexes m)) in
      Ok (sort_Slice repo.Name matches)
  end.

Definition InfoParagraphs (m : Manager) (patterns : list string)
  : result (list format.Paragraph) :=
  match ensureIndexesLoaded m with
  | Some err => Err err
  | None =>
      let '(paragraphs, seen) :=
        fold_left (fun '(paragraphs, seen) pkg =>
          if negb (matchesAny (repo.Name pkg) patterns) then (paragraphs, seen)
          else ((paragraphs ++ [repo.Raw pkg])%list, <[repo.Name pkg := true]> seen))
          (repo.All (indexes m)) ([], (∅ : gmap string bool)) in
      Ok (fold_left (fun paragraphs entry =>
            if flag seen (pkgdb.Name entry) then paragraphs
            else if matchesAny (pkgdb.Name entry) patterns
                 then (paragraphs ++ [pkgdb.Raw entry])%list
                 else paragraphs)
          (pkgdb.Entries (status m)) paragraphs)
  end.

(** [Install] (and [Download], which calls it): the result and the file
    system operations made. *)
Definition Install (w : World) (m : Manager) (name : string)
  : result string * list FsOp :=
  match repo.Find (indexes m) name with
  | None => (Err (errors_New ("package " ++ name ++ " not available")), [])
  | Some pkg =>
      if String.eqb (repo.Filename pkg) "" then
        (Err (errors_New ("package " ++ name ++ " does not declare a Filename field")), [])
      else
        let url := TrimSuffix_slash (config.URI (repo.Feed pkg)) ++ "/"
                   ++ TrimPrefix_slash (repo.Filename pkg) in
        let dest := filepath_Join (cache m) (filepath_Base (repo.Filename pkg)) in
        match downloader.DownloadToFile w (client m) url dest with
        | (Some err, ops) => (Err err, ops)
        | (None, ops) => (Ok dest, ops)
        end
  end.

Definition Download (w : World) (m : Manager) (name : string)
  : result string * list FsOp :=
  Install w m name.

Record UpgradeResult : Type := {
  Upgrade_ : UpgradeCandidate;
  Destination : string
}.

(** The loop of [Upgrade] over the candidates: the results so far, the
    error that stopped it, and the file system operations made. *)
Fixpoint upgradeLoop (w : World) (m : Manager) (candidates : list UpgradeCandidate)
    (results : list UpgradeResult) (ops : list FsOp)
  : list UpgradeResult * option error * list FsOp :=
  match candidates with
  | [] => (results, None, ops)
  | candidate :: candidates =>
      match Install w m (Name candidate) with
      | (Err err, ops') => (results, Some err, (ops ++ ops')%list)
      | (Ok dest, ops') =>
          upgradeLoop w m candidates
            (results ++ [{| Upgrade_ := candidate; Destination := dest |}])%list
            (ops ++ ops')%list
      end
  end.

Definition Upgrade (w : World) (m : Manager) (patterns : list string)
  : list UpgradeResult * option error * list FsOp :=
  match ListUpgradable m patterns with
  | Err err => ([], Some err, [])
  | Ok candidates => upgradeLoop w m candidates [] []
  end.

Definition StatusParagraphs (m : Manager) (patterns : list string) : list pkgdb.Entry :=
  if (length patterns =? 0)%nat then pkgdb.Entries (status m)
  else
    sort_Slice pkgdb.Name
      (List.filter (fun entry => matchesAny (pkgdb.Name entry) patterns)
         (pkgdb.Entries (status m))).

Definition GlobStatus (m : Manager) (patterns : list string) : list format.Paragraph :=
  map pkgdb.Raw (StatusParagraphs m patterns).

Definition Architectures (m : Manager) : list config.Architecture :=
  match cfg m with
  | None => []
  | Some c => config.Architectures c
  end.

(** [formatParagraph] of manager.go: the lines it joins, and the text. *)
Definition paragraphLines (p : format.Paragraph) : list string :=
  map (fun key =>
         key ++ ": "
         ++ ReplaceAll_LF (default "" (format.Fields p !! key)) (String LF " "))
      (format.Keys p).

Definition formatParagraph (p : format.Paragraph) : string :=
  config.Join (paragraphLines p) (String LF "").

(** [Info] *)
Definition Info (m : Manager) (name : string) : result string :=
  match repo.Find (indexes m) name with
  | None =>
      match pkgdb.Lookup (status m) name with
      | Ok entry => Ok (formatParagraph (pkgdb.Raw entry))
      | Err _ => Err (errors_New ("package " ++ name ++ " not found"))
      end
  | Some pkg => Ok (formatParagraph (repo.Raw pkg))
  end.

End pkgmgr.
End pkgmgr.

(** ** A concrete runtime, used to evaluate the code on closed inputs *)

(** The bytes [path.Match] gives a meaning to. *)
Definition is_meta (c : ascii) : bool :=
  Ascii.eqb c "*" || Ascii.eqb c "?" || Ascii.eqb c "[" || Ascii.eqb c "092".

Definition is_literal (pattern : string) : bool :=
  match IndexFunc is_meta pattern with
  | None => true
  | Some _ => false
  end.

(** [path.Match] on patterns without such bytes compares the strings;
    the sample leaves every other pattern unmatched. *)
Definition literal_Match (pattern name : string) : option bool :=
  if is_literal pattern then Some (String.eqb pattern name) else None.

(** [filepath.Join] of two clean elements. *)
Definition simple_Join (a b : string) : string :=
  if String.eqb a "" then b
  else if String.eqb b "" then a
  else a ++ "/" ++ b.

Definition simple_Base (p : string) : string :=
  match LastIndexByte p "/" with
  | Some i => string_drop (S i) p
  | None => p
  end.

Definition simple_Dir (p : string) : string :=
  match LastIndexByte p "/" with
  | Some i => string_take i p
  | None => "."
  end.

(** [bufio.ScanLines] without the size limit: the pieces between line
    feeds, a final empty piece dropped, one trailing carriage return
    removed from each. *)
Definition dropCR (line : string) : string :=
  match String.rev line with
  | String c rest => if Ascii.eqb c "013" then String.rev rest else line
  | EmptyString => line
  end.

Definition simple_ScanLines (data : string) : list string * option error :=
  let pieces := Split data LF in
  let pieces := match rev pieces with
                | EmptyString :: rest => rev rest
                | _ => pieces
                end in
  (map dropCR pieces, None).

(** [strconv.Quote] of a string of printable ASCII bytes without quotes
    and backslashes. *)
Definition plain_Quote (s : string) : string :=
  String "034" (s ++ String "034" "").

(** The sample folds the case of ASCII letters only. *)
Definition sample_runtime : Runtime :=
  {| path_Match := literal_Match;
     filepath_Join := simple_Join;
     filepath_Base := simple_Base;
     filepath_Dir := simple_Dir;
     gzip_NewReader := fun _ => Err (errors_New "gzip: invalid header");
     ioReadAll := fun data => Ok data;
     ScanLines := simple_ScanLines;
     strings_EqualFold := EqualFold_ASCII;
     strings_EqualFold_ascii := fun _ _ _ _ => eq_refl;
     strconv_Quote := plain_Quote;
     map_range := fun V m => map_to_list m;
     map_range_perm := fun V m => Permutation_refl (map_to_list m) |}.

(** ** Closed inputs *)

Module examples.

Definition no_options : gmap string string := ∅.

(** A configuration without feeds, options or destinations. *)
Definition cfg_empty : config.Config :=
  {| config.Options := no_options; config.Feeds := []; config.Destinations := [];
     config.Includes := []; config.Architectures := [] |}.

(** The configuration [option status_dir /usr/lib/opkg]. *)
Definition cfg_status_dir : config.Config :=
  {| config.Options := {[ "status_dir" := "/usr/lib/opkg" ]};
     config.Feeds := []; config.Destinations := [];
     config.Includes := []; config.Architectures := [] |}.

Definition feed_a : config.Feed :=
  {| config.Feed_Name := "a"; config.URI := "http://h/a"; config.Type_ := "src/gz" |}.
Definition feed_b : config.Feed :=
  {| config.Feed_Name := "b"; config.URI := "http://h/b/"; config.Type_ := "src" |}.

(** Two feeds, declared in the order [a], [b]. *)
Definition cfg_two_feeds : config.Config :=
  {| config.Options := {[ "cache_dir" := "cache" ]};
     config.Feeds := [feed_a; feed_b]; config.Destinations := [];
     config.Includes := []; config.Architectures := [] |}.

(** A feed the sample world does not serve, after a feed it does. *)
Definition feed_c : config.Feed :=
  {| config.Feed_Name := "c"; config.URI := "http://h/c"; config.Type_ := "src/gz" |}.

Definition cfg_broken_feed : config.Config :=
  {| config.Options := {[ "cache_dir" := "cache" ]};
     config.Feeds := [feed_a; feed_c]; config.Destinations := [];
     config.Includes := []; config.Architectures := [] |}.

Definition packages_a : string :=
  "Package: foo" ++ String LF ("Version: 1.0" ++ String LF "").
Definition packages_b : string :=
  "Package: foo" ++ String LF ("Version: 2.0" ++ String LF "").

(** A world in which both feeds serve a plain [Packages] file, no other
    URL answers, no file exists and every file operation succeeds. *)
Definition world : World :=
  {| http_Get := fun url =>
       if String.eqb url "http://h/a/Packages" then Ok packages_a
       else if String.eqb url "http://h/b/Packages" then Ok packages_b
       else Err (errors_New ("unexpected status 404 Not Found for " ++ url));
     os_ReadFile := fun _ => Err os_ErrNotExist;
     fs_error := fun _ => None |}.

Definition paragraph (fields : list (string * string)) : format.Paragraph :=
  {| format.Fields := list_to_map fields |}.

Definition entry (name version status_ : string) (more : list (string * string))
  : pkgdb.Entry :=
  {| pkgdb.Name := name; pkgdb.Version := version; pkgdb.Architecture := "";
     pkgdb.Status_ := status_;
     pkgdb.Raw := paragraph ([("Package", name); ("Version", version);
                              ("Status", status_)] ++ more)%list |}.

Definition status_of (entries : list pkgdb.Entry) : pkgdb.Status :=
  {| pkgdb.path := "/usr/lib/opkg/status";
     pkgdb.byName := list_to_map (map (fun e => (pkgdb.Name e, e)) entries) |}.

(** A status database with one entry, [foo] 1.0, that is not installed. *)
Definition status_removed : pkgdb.Status :=
  status_of [entry "foo" "1.0" "deinstall ok config-files" []].

Definition package (feed : config.Feed) (name version : string) : repo.Package :=
  {| repo.Name := name; repo.Version := version; repo.Architecture := "";
     repo.Description := ""; repo.Filename := ""; repo.Size := "";
     repo.Feed := feed;
     repo.Raw := paragraph [("Package", name); ("Version", version)] |}.

Definition index_a : repo.Index :=
  {| repo.Index_Feed := feed_a;
     repo.Packages := {[ "foo" := package feed_a "foo" "1.0" ]} |}.
Definition index_b : repo.Index :=
  {| repo.Index_Feed := feed_b;
     repo.Packages := {[ "foo" := package feed_b "foo" "2.0" ]} |}.

Definition manager (c : config.Config) (status : pkgdb.Status)
    (indexes : list repo.Index) (loaded : bool) : pkgmgr.Manager :=
  {| pkgmgr.cfg := Some c;
     pkgmgr.client := Some (downloader.New 0);
     pkgmgr.status := status;
     pkgmgr.indexes := {| repo.indexes := indexes |};
     pkgmgr.cache := config.CacheDir (Some c);
     pkgmgr.indexesLoaded := loaded |}.

(** The universe of the reverse-dependency scenario: [A] depends on [B],
    [B] on [C], [D] on [A]; all four are installed. *)
Definition status_abcd : pkgdb.Status :=
  status_of [entry "A" "1" "install ok installed" [("Depends", "B")];
             entry "B" "1" "install ok installed" [("Depends", "C")];
             entry "C" "1" "install ok installed" [];
             entry "D" "1" "install ok installed" [("Depends", "A")]].

Definition manager_abcd : pkgmgr.Manager :=
  manager cfg_empty status_abcd [] true.

Definition whatdepends (recursive : bool) (patterns : list string)
  : pkgmgr.ReverseDependencyQuery :=
  {| pkgmgr.Field := "Depends"; pkgmgr.IncludeAll := false;
     pkgmgr.Recursive := recursive; pkgmgr.Patterns := patterns |}.

End examples.

(** * Auxiliary definitions

    Notions used to state and prove the properties below. *)

(** A three-way comparison that is a total preorder: its values are -1, 0
    and 1, swapping the arguments negates it, and "at most" is
    transitive. *)
Record cmp_ok {A : Type} (f : A -> A -> Z) : Prop := {
  cmp_range : forall x y, f x y = -1 \/ f x y = 0 \/ f x y = 1;
  cmp_anti : forall x y, f y x = - f x y;
  cmp_trans : forall x y z, f x y <= 0 -> f y z <= 0 -> f x z <= 0
}.

(** Go's [if c != 0 { return c }; return rest]. *)
Definition lex (c rest : Z) : Z := if negb (c =? 0) then c else rest.

(** The comparison of two integers, as the code writes it. *)
Definition cmpZ (x y : Z) : Z :=
  if negb (x =? y) then (if x <? y then -1 else 1) else 0.

Definition is_empty (s : string) : bool :=
  match s with EmptyString => true | _ => false end.

(** Go's comparison of two strings, as a three-valued result. *)
Definition strcmp (a b : string) : Z :=
  if String.eqb a b then 0 else if String.ltb a b then -1 else 1.

(** [compareDigits] on digit runs without leading zeros: by length, then
    as strings. *)
Definition digitsKeyCompare (a b : string) : Z :=
  lex (cmpZ (Z.of_nat (String.length a)) (Z.of_nat (String.length b))) (strcmp a b).

Section aux_version.
Import version.

(** The string after its leading non-digits, and after the digits that
    follow them. *)
Definition afterNonDigits (a : string) : string :=
  string_drop (String.length (leadingNonDigits a)) a.
Definition afterDigits (a : string) : string :=
  string_drop (String.length (leadingDigits a)) a.

(** [comparePart] as a comparison of the first [n] pairs of runs (a
    non-digit run, then a digit run). *)
Fixpoint runsCompare (n : nat) (a b : string) : Z :=
  match n with
  | O => 0
  | S n =>
      lex (compareNonDigits (leadingNonDigits a) (leadingNonDigits b))
        (lex (compareDigits (leadingDigits (afterNonDigits a))
                            (leadingDigits (afterNonDigits b)))
             (runsCompare n (afterDigits (afterNonDigits a))
                            (afterDigits (afterNonDigits b))))
  end.

(** The three keys [Compare] orders by. *)
Definition epochOf (a : string) : Z := fst (splitEpoch a).
Definition upstreamOf (a : string) : string := fst (splitRevision (snd (splitEpoch a))).
Definition revisionOf (a : string) : string := snd (splitRevision (snd (splitEpoch a))).

(** A remainder that decides the comparison against an exhausted side in
    favour of the exhausted side: it begins with a byte that is not a
    digit, not ['~'] and not NUL, or with a run of digits that are not all
    zeros. *)
Definition outweighs_nothing (r : string) : bool :=
  match r with
  | EmptyString => false
  | String c _ =>
      if IsDigit (rune c) then negb (is_empty (TrimLeft0 (leadingDigits r)))
      else negb (rune c =? 126) && negb (rune c =? 0)
  end.

End aux_version.

Section aux_manager.
Context `{Runtime}.
Import pkgmgr.

(** Every query that needs the indexes of manager [m] fails with the
    "indexes not loaded" error. *)
Definition queries_fail (m : Manager) : Prop :=
  (forall opts, InstalledOnly opts = false ->
     ListPackages m opts = Err ErrIndexesNotLoaded)
  /\ (forall patterns, ListUpgradable m patterns = Err ErrIndexesNotLoaded)
  /\ (forall pattern, FindPackages m pattern = Err ErrIndexesNotLoaded)
  /\ (forall patterns, InfoParagraphs m patterns = Err ErrIndexesNotLoaded)
  /\ (forall name, Dependencies m name = Err ErrIndexesNotLoaded)
  /\ (forall q, ReverseDependencies m q = Err ErrIndexesNotLoaded).

(** No query of manager [m] fails with the "indexes not loaded" error. *)
Definition queries_pass (m : Manager) : Prop :=
  (forall opts, ListPackages m opts <> Err ErrIndexesNotLoaded)
  /\ (forall patterns, ListUpgradable m patterns <> Err ErrIndexesNotLoaded)
  /\ (forall pattern, FindPackages m pattern <> Err ErrIndexesNotLoaded)
  /\ (forall patterns, InfoParagraphs m patterns <> Err ErrIndexesNotLoaded)
  /\ (forall name, Dependencies m name <> Err ErrIndexesNotLoaded)
  /\ (forall q, ReverseDependencies m q <> Err ErrIndexesNotLoaded).

(** The manager after a series of calls of [Update], one schedule for
    each, and whether one of the calls succeeded. *)
Fixpoint after_updates (w : World) (schedules : list (list nat)) (m : Manager)
  : Manager * bool :=
  match schedules with
  | [] => (m, false)
  | schedule :: schedules =>
      match Update w schedule m with
      | (m', None) => (fst (after_updates w schedules m'), true)
      | (m', Some _) => after_updates w schedules m'
      end
  end.

(** The body of the inner loop. *)
Definition scanStep (q : ReverseDependencyQuery) (target : string)
    (st : search) (pkg : repo.Package) : search :=
  if flag (matched st) (repo.Name pkg) then st
  else if relationMatches (format.Value (repo.Raw pkg) (Field q)) target then
    {| queue := if Recursive q then queue st ++ [repo.Name pkg] else queue st;
       seenTargets := seenTargets st;
       matched := <[repo.Name pkg := true]> (matched st) |}
  else st.

(** The packages of the universe whose name is not matched yet. *)
Definition unmatched (universe : list repo.Package) (matched : gmap string bool) : nat :=
  length (List.filter (fun pkg => negb (flag matched (repo.Name pkg))) universe).

Definition search_measure (universe : list repo.Package) (st : search) : nat :=
  (length (queue st) + unmatched universe (matched st))%nat.

End aux_manager.

Section aux_acquisition.
Context `{Runtime}.
Import repo.

(** What the goroutine of the feed at position [i] hands to the critical
    section. *)
Definition fetched (w : World) (c : config.Config) (cacheDir : string)
    (client : option downloader.Client) (i : nat) : option (result Index) :=
  (fun feed => fst (fetchFeed w feed cacheDir client)) <$> config.Feeds c !! i.

Definition fetch_failed (w : World) (c : config.Config) (cacheDir : string)
    (client : option downloader.Client) (i : nat) : bool :=
  match fetched w c cacheDir client i with
  | Some (Err _) => true
  | _ => false
  end.

(** Both URLs of the feed fail. *)
Definition exhausted (w : World) (feed : config.Feed) : Prop :=
  let base := TrimSuffix_slash (config.URI feed) in
  (exists e, http_Get w (base ++ "/Packages.gz") = Err e)
  /\ (exists e, http_Get w (base ++ "/Packages") = Err e).

End aux_acquisition.

Section aux_sorting.
Context {A : Type} (key : A -> string).

Definition key_le (x y : A) : Prop := String.le (key x) (key y).

End aux_sorting.

(** The lookup of [key] in the paragraph does not depend on the order in
    which the map is visited: [key] and the keys of the paragraph are
    ASCII strings, and at most one key equals [key] up to the case of the
    letters. *)
Definition fold_unique (p : format.Paragraph) (key : string) : bool :=
  ascii_only key
  && forallb (fun kv => ascii_only (fst kv)) (map_to_list (format.Fields p))
  && (length (List.filter (fun kv => EqualFold_ASCII (fst kv) key)
                (map_to_list (format.Fields p))) <=? 1)%nat.

(** The names of the entries of a status database are its keys. *)
Definition wf_status (s : pkgdb.Status) : Prop :=
  forall k e, pkgdb.byName s !! k = Some e -> pkgdb.Name e = k.

(** ** Notions for the further properties *)

(** A line that [ParseControl] rejects wherever it stands: not empty, not
    a continuation, and without a colon. *)
Definition malformed_line (line : string) : bool :=
  negb (String.eqb line "")
  && negb (HasPrefix line " " || HasPrefix line (String "009" ""))
  && match IndexByte line ":" with Some _ => false | None => true end.

(** A paragraph that [formatParagraph] writes on one line per field: the
    keys are not empty, trimmed, and without a colon or a line feed, the
    values trimmed and without a line feed. *)
Definition one_line_fields (p : format.Paragraph) : Prop :=
  forall key value, format.Fields p !! key = Some value ->
    key <> "" /\ TrimSpace key = key /\ IndexByte key ":" = None
    /\ IndexByte key LF = None
    /\ TrimSpace value = value /\ IndexByte value LF = None.

(** The variables of [ParseControl] before the first line. *)
Definition parser_start : format.parser :=
  {| format.current_fields := ∅; format.file_paragraphs := []; format.lastKey := "" |}.

Section aux_status.
Context `{Runtime}.
Import pkgdb.

(** An entry as [Load] builds it: stored under its name, which is the
    [Package] field of its paragraph and not empty, with the other fields
    read from the paragraph. *)
Definition loaded_entry (k : string) (e : Entry) : Prop :=
  Name e = k /\ k <> ""
  /\ format.Value (Raw e) "Package" = k
  /\ Version e = format.Value (Raw e) "Version"
  /\ Architecture e = format.Value (Raw e) "Architecture"
  /\ Status_ e = format.Value (Raw e) "Status".

End aux_status.

(** A world that answers [data] at [url] and is [w] everywhere else. *)
Definition answering (w : World) (url : string) (data : result string) : World :=
  {| http_Get := fun u => if String.eqb u url then data else http_Get w u;
     os_ReadFile := os_ReadFile w;
     fs_error := fs_error w |}.

Section aux_feeds.
Context `{Runtime}.
Import repo.

(** A package as [fetchFeed] builds it from a paragraph of [feed]. *)
Definition indexed_package (feed : config.Feed) (k : string) (pkg : Package) : Prop :=
  Name pkg = k /\ k <> "" /\ Feed pkg = feed
  /\ format.Value (Raw pkg) "Package" = k
  /\ Version pkg = format.Value (Raw pkg) "Version"
  /\ Filename pkg = format.Value (Raw pkg) "Filename".

End aux_feeds.

(** The URL [Install] requests for a package. *)
Definition archive_url (pkg : repo.Package) : string :=
  TrimSuffix_slash (config.URI (repo.Feed pkg)) ++ "/"
  ++ TrimPrefix_slash (repo.Filename pkg).

(** The bytes a token of a relation field does not contain: the two
    separators and the bytes that start a version constraint. *)
Definition relation_syntax (c : ascii) : bool :=
  Ascii.eqb c "," || Ascii.eqb c "|" || pkgmgr.relation_stop c.

Section aux_closure.
Context `{Runtime}.
Import pkgmgr.

(** The value of the one key of the paragraph that equals [key] up to the
    case of the letters; the empty string when there is no such key, or
    more than one. *)
Definition field_value (p : format.Paragraph) (key : string) : string :=
  match List.filter (fun kv => EqualFold_ASCII (fst kv) key)
          (map_to_list (format.Fields p)) with
  | [kv] => snd kv
  | _ => ""
  end.

(** The names the search is to find, when [value] reads the field of the
    query in a paragraph: a package of the universe whose field has a
    token matching a pattern of the query or, when the query is
    recursive, the name of a package found already. *)
Inductive reached (value : format.Paragraph -> string) (q : ReverseDependencyQuery)
    (universe : list repo.Package) : string -> Prop :=
| reached_pattern pkg target :
    pkg ∈ universe -> target ∈ Patterns q ->
    relationMatches (value (repo.Raw pkg)) target = true ->
    reached value q universe (repo.Name pkg)
| reached_again pkg target :
    Recursive q = true ->
    pkg ∈ universe -> reached value q universe target ->
    relationMatches (value (repo.Raw pkg)) target = true ->
    reached value q universe (repo.Name pkg).

(** The lookup the code makes. *)
Definition looked_up (q : ReverseDependencyQuery) (p : format.Paragraph) : string :=
  format.Value p (Field q).

(** What may stand in the queue. *)
Definition is_target (q : ReverseDependencyQuery) (universe : list repo.Package)
    (t : string) : Prop :=
  t ∈ Patterns q \/ (Recursive q = true /\ reached (looked_up q) q universe t).

(** The invariant of the search loop, but for the scans made. *)
Definition search_inv (q : ReverseDependencyQuery) (universe : list repo.Package)
    (st : search) : Prop :=
  (forall k v, matched st !! k = Some v -> v = true)
  /\ (forall k, flag (matched st) k = true -> reached (looked_up q) q universe k)
  /\ (forall t, t ∈ queue st \/ flag (seenTargets st) t = true -> is_target q universe t)
  /\ (forall t, t ∈ Patterns q -> t ∈ queue st \/ flag (seenTargets st) t = true)
  /\ (Recursive q = true -> forall k, flag (matched st) k = true ->
        k ∈ queue st \/ flag (seenTargets st) k = true).

(** Every package that matches a target seen is matched. *)
Definition scans_done (q : ReverseDependencyQuery) (universe : list repo.Package)
    (st : search) : Prop :=
  forall t pkg, flag (seenTargets st) t = true -> pkg ∈ universe ->
    relationMatches (format.Value (repo.Raw pkg) (Field q)) t = true ->
    flag (matched st) (repo.Name pkg) = true.

End aux_closure.

(** The double quote. *)
Definition is_quote (c : ascii) : bool := Ascii.eqb c "034".

Section aux_load.
Context `{Runtime}.
Import config.

(** A line without an [include] directive. *)
Definition plain_line (line : string) : Prop :=
  head (fields (TrimSpace line)) <> Some "include".

(** The feed and the destination a line declares, as the format of the
    file has it: the directive, a name, and a URI or a path. *)
Definition declared_feed (line : string) : option Feed :=
  let raw := TrimSpace line in
  if skipped raw then None
  else
    match fields raw with
    | kind :: name :: uri :: _ =>
        if String.eqb kind "src" || String.eqb kind "src/gz" || String.eqb kind "src/sig"
        then Some {| Feed_Name := name; URI := uri; Type_ := kind |}
        else None
    | _ => None
    end.

Definition declared_dest (line : string) : option Destination :=
  let raw := TrimSpace line in
  if skipped raw then None
  else
    match fields raw with
    | kind :: name :: path :: _ =>
        if String.eqb kind "dest"
        then Some {| Destination_Name := name; Path := path |}
        else None
    | _ => None
    end.

(** Tokens the [switch] of [load] accepts, and tokens it rejects with a
    message. *)
Definition accepted (tokens : list string) : Prop :=
  forall c p lineNo, exists c', interpret c p lineNo tokens = Updated c'.

Definition rejected (tokens : list string) (msg : string) : Prop :=
  forall c p lineNo, interpret c p lineNo tokens = Failed (at_line p lineNo msg).

(** The loop over the lines of a file, as far as it meets no [include]
    directive; [None] when it meets one. *)
Fixpoint scan_plain (p : string) (lines : list string) (lineNo : nat) (c : Config)
  : option (result Config) :=
  match lines with
  | [] => Some (Ok c)
  | line :: lines =>
      let lineNo := S lineNo in
      let raw := TrimSpace line in
      if skipped raw then scan_plain p lines lineNo c
      else
        match interpret c p lineNo (fields raw) with
        | Updated c => scan_plain p lines lineNo c
        | Failed err => Some (Err err)
        | Include _ _ => None
        end
  end.

End aux_load.

(** ** More closed inputs *)

(** A world that also serves the compressed list of feed [a], and one
    that serves an archive of that feed. *)
Definition world_gz : World :=
  answering examples.world "http://h/a/Packages.gz" (Ok examples.packages_a).

Definition world_archive : World :=
  answering examples.world "http://h/a/foo_1.0.ipk" (Ok "archive").

(** A manager whose index of feed [a] has a package with an archive. *)
Definition manager_archive : pkgmgr.Manager :=
  examples.manager examples.cfg_two_feeds pkgdb.Empty
    [{| repo.Index_Feed := examples.feed_a;
        repo.Packages :=
          {[ "foo" := {| repo.Name := "foo"; repo.Version := "1.0";
                         repo.Architecture := ""; repo.Description := "";
                         repo.Filename := "/foo_1.0.ipk"; repo.Size := "";
                         repo.Feed := examples.feed_a;
                         repo.Raw := examples.paragraph
                                       [("Package", "foo"); ("Version", "1.0");
                                        ("Filename", "/foo_1.0.ipk")] |} ]} |}]
    true.

(** A file system in which every path opens on [lines] and no pattern
    matches a file, and the lines of a small configuration file. *)
Definition files_of (lines : list string) : config.Files :=
  {| config.open_lines := fun _ => Ok (lines, None);
     config.Glob := fun _ => Ok [] |}.

Definition conf_lines : list string :=
  ["src/gz a http://h/a"; "# the root"; "dest root /"; ""; "src b http://h/b/"].

(** * Properties *)

(** ** Comparison functions that are total preorders *)

Lemma cmp_ok_ext {A} (f g : A -> A -> Z) :
  (forall x y, f x y = g x y) -> cmp_ok f -> cmp_ok g.
Proof.
  intros E [r a t]. split.
  - intros x y. rewrite <- E. apply r.
  - intros x y. rewrite <- !E. apply a.
  - intros x y z. rewrite <- !E. apply t.
Qed.

Lemma cmp_ok_pull {A B} (k : A -> B) (f : B -> B -> Z) :
  cmp_ok f -> cmp_ok (fun x y => f (k x) (k y)).
Proof. intros [r a t]. split; intros *; auto. apply t. Qed.

Lemma cmp_ok_lex {A} (f g : A -> A -> Z) :
  cmp_ok f -> cmp_ok g -> cmp_ok (fun x y => lex (f x y) (g x y)).
Proof.
  intros [rf af tf] [rg ag tg]. unfold lex. split.
  - intros x y. destruct (Z.eqb_spec (f x y) 0); simpl; auto.
  - intros x y. rewrite (af x y), (ag x y).
    destruct (Z.eqb_spec (f x y) 0), (Z.eqb_spec (- f x y) 0); simpl; lia.
  - intros x y z.
    pose proof (tf x y z). pose proof (tf y z x). pose proof (tf z x y).
    pose proof (af x y). pose proof (af y z). pose proof (af x z).
    pose proof (tg x y z).
    destruct (Z.eqb_spec (f x y) 0), (Z.eqb_spec (f y z) 0),
      (Z.eqb_spec (f x z) 0); simpl; lia.
Qed.

Lemma cmpZ_ok : cmp_ok cmpZ.
Proof.
  unfold cmpZ. split; intros *;
    repeat match goal with
    | |- context [Z.eqb ?a ?b] => destruct (Z.eqb_spec a b)
    | |- context [Z.ltb ?a ?b] => destruct (Z.ltb_spec a b)
    end; simpl; lia.
Qed.

(** ** The version comparison is a total preorder *)

Section version_facts.
Import version.

Lemma rune_range c : 0 <= rune c < 256.
Proof.
  unfold rune. pose proof (N_ascii_bounded c). lia.
Qed.

Lemma order_zero r : 0 <= r -> (order r = 0 <-> r = 0).
Proof.
  intros Hr. unfold order.
  destruct (Z.eqb_spec r 0) as [->|Hn]; [tauto|].
  destruct (Z.eqb_spec r 126); [lia|].
  destruct (IsDigit r) eqn:Hd.
  - unfold IsDigit in Hd. apply andb_true_iff in Hd as [Hd _].
    apply Z.leb_le in Hd. lia.
  - assert (r <= ToLower r) by (unfold ToLower; destruct (_ || _); lia).
    destruct (IsLetter r); lia.
Qed.

(** One turn of the loop, whether or not a side is exhausted. *)
Lemma compareNonDigits_turn a b :
  compareNonDigits a b =
  nonDigitsTurn (fst (nextRune a)) (fst (nextRune b))
    (compareNonDigits (snd (nextRune a)) (snd (nextRune b))).
Proof. destruct a, b; reflexivity. Qed.

Lemma nextRune_length s : (String.length (snd (nextRune s)) <= Nat.pred (String.length s))%nat.
Proof. destruct s; simpl; lia. Qed.

Lemma nextRune_range s : 0 <= fst (nextRune s) < 256.
Proof. destruct s; simpl; [lia | apply rune_range]. Qed.

Ltac split_test :=
  match goal with
  | |- context [Z.eqb ?a ?b] => destruct (Z.eqb_spec a b)
  | |- context [Z.ltb ?a ?b] => destruct (Z.ltb_spec a b)
  end; cbn [negb andb orb]; try lia.

Lemma nonDigitsTurn_range_anti ra rb k :
  (k = -1 \/ k = 0 \/ k = 1) ->
  (nonDigitsTurn ra rb k = -1 \/ nonDigitsTurn ra rb k = 0 \/ nonDigitsTurn ra rb k = 1)
  /\ nonDigitsTurn rb ra (- k) = - nonDigitsTurn ra rb k.
Proof.
  intros Hk. unfold nonDigitsTurn.
  generalize (order ra) (order rb). intros oa ob.
  repeat split_test.
Qed.

Lemma nonDigitsTurn_trans ra rb rc kab kbc kac :
  0 <= ra -> 0 <= rb -> 0 <= rc ->
  (kab <= 0 -> kbc <= 0 -> kac <= 0) ->
  nonDigitsTurn ra rb kab <= 0 -> nonDigitsTurn rb rc kbc <= 0 ->
  nonDigitsTurn ra rc kac <= 0.
Proof.
  intros Ha Hb Hc Hk.
  pose proof (order_zero ra Ha) as Ha0.
  pose proof (order_zero rb Hb) as Hb0.
  pose proof (order_zero rc Hc) as Hc0.
  unfold nonDigitsTurn. revert Ha0 Hb0 Hc0.
  generalize (order ra) (order rb) (order rc). intros oa ob oc Ha0 Hb0 Hc0.
  destruct (Z.eqb_spec oa ob), (Z.eqb_spec ob oc), (Z.eqb_spec oa oc);
    cbn [negb]; try lia; repeat split_test.
Qed.

Lemma nonDigits_range_anti n : forall a b,
  (String.length a <= n)%nat -> (String.length b <= n)%nat ->
  (compareNonDigits a b = -1 \/ compareNonDigits a b = 0 \/ compareNonDigits a b = 1)
  /\ compareNonDigits b a = - compareNonDigits a b.
Proof.
  induction n as [|n IH]; intros a b Ha Hb.
  - destruct a, b; simpl in *; lia.
  - rewrite (compareNonDigits_turn a b), (compareNonDigits_turn b a).
    pose proof (nextRune_length a). pose proof (nextRune_length b).
    destruct (IH (snd (nextRune a)) (snd (nextRune b))) as [Hr Hs]; [lia..|].
    rewrite Hs. now apply nonDigitsTurn_range_anti.
Qed.

Lemma nonDigits_trans n : forall a b c,
  (String.length a <= n)%nat -> (String.length b <= n)%nat ->
  (String.length c <= n)%nat ->
  compareNonDigits a b <= 0 -> compareNonDigits b c <= 0 ->
  compareNonDigits a c <= 0.
Proof.
  induction n as [|n IH]; intros a b c Ha Hb Hc.
  - destruct a, b, c; simpl in *; lia.
  - rewrite (compareNonDigits_turn a b), (compareNonDigits_turn b c),
      (compareNonDigits_turn a c).
    pose proof (nextRune_length a). pose proof (nextRune_length b).
    pose proof (nextRune_length c).
    apply nonDigitsTurn_trans; try apply nextRune_range.
    apply IH; lia.
Qed.

Lemma compareNonDigits_ok : cmp_ok compareNonDigits.
Proof.
  split.
  - intros x y. eapply (nonDigits_range_anti (String.length x + String.length y)); lia.
  - intros x y. eapply (nonDigits_range_anti (String.length x + String.length y)); lia.
  - intros x y z.
    apply (nonDigits_trans (String.length x + String.length y + String.length z)); lia.
Qed.

Lemma string_compare_refl s : (s ?= s)%string = Eq.
Proof.
  induction s as [|c s IH]; simpl; [reflexivity|].
  unfold Ascii.compare. rewrite N.compare_refl. exact IH.
Qed.

Lemma strcmp_compare a b :
  strcmp a b = match (a ?= b)%string with Eq => 0 | Lt => -1 | Gt => 1 end.
Proof.
  unfold strcmp, String.ltb. destruct (String.eqb_spec a b) as [->|Hne].
  - now rewrite string_compare_refl.
  - destruct (a ?= b)%string eqn:E; try reflexivity.
    apply String.compare_eq_iff in E. contradiction.
Qed.

Lemma strcmp_le a b : strcmp a b <= 0 <-> String.le a b.
Proof.
  rewrite strcmp_compare. unfold String.le, String.leb.
  destruct (a ?= b)%string; simpl; intuition (try lia; try easy).
Qed.

Lemma strcmp_ok : cmp_ok strcmp.
Proof.
  split.
  - intros x y. rewrite strcmp_compare. destruct (x ?= y)%string; auto.
  - intros x y. rewrite !strcmp_compare, (String.compare_antisym x y).
    destruct (y ?= x)%string; reflexivity.
  - intros x y z. rewrite !strcmp_le. apply transitivity.
Qed.

Lemma compareDigits_key a b :
  compareDigits a b = digitsKeyCompare (TrimLeft0 a) (TrimLeft0 b).
Proof.
  unfold compareDigits, digitsKeyCompare, lex, cmpZ, strcmp.
  generalize (TrimLeft0 a) (TrimLeft0 b). intros x y.
  destruct (Nat.eqb_spec (String.length x) (String.length y)) as [E|E];
    destruct (Z.eqb_spec (Z.of_nat (String.length x)) (Z.of_nat (String.length y)));
    try lia; cbn [negb].
  - reflexivity.
  - destruct (Nat.ltb_spec (String.length x) (String.length y));
      destruct (Z.ltb_spec (Z.of_nat (String.length x)) (Z.of_nat (String.length y)));
      try lia; reflexivity.
Qed.

Lemma compareDigits_ok : cmp_ok compareDigits.
Proof.
  apply (cmp_ok_ext (fun a b => digitsKeyCompare (TrimLeft0 a) (TrimLeft0 b))).
  - intros. symmetry. apply compareDigits_key.
  - apply (cmp_ok_pull TrimLeft0 digitsKeyCompare).
    unfold digitsKeyCompare.
    apply (cmp_ok_lex (fun a b => cmpZ (Z.of_nat (String.length a)) (Z.of_nat (String.length b)))
                      strcmp).
    + apply (cmp_ok_pull (fun s => Z.of_nat (String.length s)) cmpZ), cmpZ_ok.
    + apply strcmp_ok.
Qed.

Lemma runsCompare_ok n : cmp_ok (runsCompare n).
Proof.
  induction n as [|n IH].
  - split; intros; simpl; lia.
  - cbn [runsCompare].
    apply (cmp_ok_lex
             (fun a b => compareNonDigits (leadingNonDigits a) (leadingNonDigits b))
             (fun a b => lex (compareDigits (leadingDigits (afterNonDigits a))
                                            (leadingDigits (afterNonDigits b)))
                             (runsCompare n (afterDigits (afterNonDigits a))
                                            (afterDigits (afterNonDigits b))))).
    + apply (cmp_ok_pull leadingNonDigits), compareNonDigits_ok.
    + apply (cmp_ok_lex
               (fun a b => compareDigits (leadingDigits (afterNonDigits a))
                                         (leadingDigits (afterNonDigits b)))
               (fun a b => runsCompare n (afterDigits (afterNonDigits a))
                                         (afterDigits (afterNonDigits b)))).
      * apply (cmp_ok_pull (fun a => leadingDigits (afterNonDigits a))), compareDigits_ok.
      * apply (cmp_ok_pull (fun a => afterDigits (afterNonDigits a))), IH.
Qed.

Lemma leadingNonDigits_length a :
  (String.length (leadingNonDigits a) <= String.length a)%nat.
Proof. induction a as [|c a IH]; simpl; [lia|]. destruct (IsDigit (rune c)); simpl; lia. Qed.

Lemma leadingDigits_length a :
  (String.length (leadingDigits a) <= String.length a)%nat.
Proof. induction a as [|c a IH]; simpl; [lia|]. destruct (IsDigit (rune c)); simpl; lia. Qed.

Lemma string_drop_length n a :
  String.length (string_drop n a) = (String.length a - n)%nat.
Proof. revert a; induction n as [|n IH]; intros [|c a]; simpl; auto; lia. Qed.

Lemma eqb_empty s : String.eqb s "" = is_empty s.
Proof. destruct s; reflexivity. Qed.

Lemma is_empty_length s : is_empty s = (String.length s =? 0)%nat.
Proof. destruct s; reflexivity. Qed.

Lemma is_empty_true s : is_empty s = true -> s = "".
Proof. destruct s; simpl; congruence. Qed.

(** After the leading non-digits come digits or nothing. *)
Lemma afterNonDigits_leading a : leadingNonDigits (afterNonDigits a) = "".
Proof.
  unfold afterNonDigits. induction a as [|c a IH]; simpl; [reflexivity|].
  destruct (IsDigit (rune c)) eqn:E; simpl; [now rewrite E | exact IH].
Qed.

Lemma no_runs_empty a : leadingNonDigits a = "" -> leadingDigits a = "" -> a = "".
Proof.
  destruct a as [|c a]; simpl; [reflexivity|].
  destruct (IsDigit (rune c)); simpl; congruence.
Qed.

Lemma runsCompare_empty n : runsCompare n "" "" = 0.
Proof. induction n as [|n IH]; simpl; [reflexivity|]. exact IH. Qed.

(** When neither string starts with a non-digit, the first pair of runs
    is decided by the digits. *)
Lemma runsCompare_digits n a b :
  leadingNonDigits a = "" -> leadingNonDigits b = "" ->
  runsCompare (S n) a b =
  lex (compareDigits (leadingDigits a) (leadingDigits b))
      (runsCompare n (afterDigits a) (afterDigits b)).
Proof.
  intros Ha Hb. cbn [runsCompare]. unfold afterNonDigits. rewrite Ha, Hb. reflexivity.
Qed.

Lemma comparePart_loop_runs fuel : forall a b n,
  (String.length a + String.length b < fuel)%nat ->
  (String.length a + String.length b <= n)%nat ->
  comparePart_loop fuel a b = Some (runsCompare n a b).
Proof.
  induction fuel as [|fuel IH]; intros a b n Hf Hn; [lia|].
  cbn [comparePart_loop].
  destruct ((0 <? String.length a)%nat || (0 <? String.length b)%nat) eqn:Hne.
  2:{ apply orb_false_iff in Hne as [Ha Hb].
      apply Nat.ltb_ge in Ha, Hb.
      destruct a; [|simpl in Ha; lia]. destruct b; [|simpl in Hb; lia].
      now rewrite runsCompare_empty. }
  assert (1 <= String.length a + String.length b)%nat as Hpos.
  { apply orb_true_iff in Hne as [Hx|Hx]; apply Nat.ltb_lt in Hx; lia. }
  destruct n as [|n]; [lia|].
  pose proof (leadingNonDigits_length a) as Hla.
  pose proof (leadingNonDigits_length b) as Hlb.
  rewrite !eqb_empty.
  destruct (negb (is_empty (leadingNonDigits a)) || negb (is_empty (leadingNonDigits b)))
    eqn:Hnd.
  - (* a turn on the non-digit runs *)
    assert (1 <= String.length (leadingNonDigits a) + String.length (leadingNonDigits b))%nat.
    { rewrite !is_empty_length in Hnd.
      apply orb_true_iff in Hnd as [Hx|Hx]; apply negb_true_iff, Nat.eqb_neq in Hx; lia. }
    cbn [runsCompare]. unfold lex at 1.
    destruct (negb (compareNonDigits (leadingNonDigits a) (leadingNonDigits b) =? 0));
      [reflexivity|].
    fold (afterNonDigits a) (afterNonDigits b).
    rewrite (IH (afterNonDigits a) (afterNonDigits b) (S n)).
    + rewrite runsCompare_digits by apply afterNonDigits_leading. reflexivity.
    + unfold afterNonDigits. rewrite !string_drop_length. lia.
    + unfold afterNonDigits. rewrite !string_drop_length. lia.
  - (* both strings start with a digit or are empty *)
    apply orb_false_iff in Hnd as [Ha Hb].
    apply negb_false_iff, is_empty_true in Ha, Hb.
    rewrite (runsCompare_digits n a b Ha Hb).
    pose proof (leadingDigits_length a). pose proof (leadingDigits_length b).
    destruct (negb (is_empty (leadingDigits a)) || negb (is_empty (leadingDigits b)))
      eqn:Hd.
    + assert (1 <= String.length (leadingDigits a) + String.length (leadingDigits b))%nat.
      { rewrite !is_empty_length in Hd.
        apply orb_true_iff in Hd as [Hx|Hx]; apply negb_true_iff, Nat.eqb_neq in Hx; lia. }
      unfold lex.
      destruct (negb (compareDigits (leadingDigits a) (leadingDigits b) =? 0));
        [reflexivity|].
      fold (afterDigits a) (afterDigits b).
      apply IH; unfold afterDigits; rewrite !string_drop_length; lia.
    + apply orb_false_iff in Hd as [Hda Hdb].
      apply negb_false_iff, is_empty_true in Hda, Hdb.
      rewrite (no_runs_empty a Ha Hda), (no_runs_empty b Hb Hdb) in Hpos.
      simpl in Hpos. lia.
Qed.

(** The loop of [comparePart] ends within the fuel it is given. *)
Lemma comparePart_loop_total a b :
  exists c, comparePart_loop (comparePart_fuel a b) a b = Some c.
Proof.
  eexists. apply (comparePart_loop_runs _ a b (String.length a + String.length b)).
  - unfold comparePart_fuel. lia.
  - lia.
Qed.

Lemma comparePart_runs a b n :
  (String.length a + String.length b <= n)%nat ->
  comparePart a b = runsCompare n a b.
Proof.
  intros Hn. unfold comparePart.
  rewrite (comparePart_loop_runs _ a b n); [reflexivity | unfold comparePart_fuel; lia | lia].
Qed.

Lemma comparePart_ok : cmp_ok comparePart.
Proof.
  split.
  - intros x y. rewrite (comparePart_runs x y _ (Nat.le_refl _)).
    apply runsCompare_ok.
  - intros x y.
    rewrite (comparePart_runs x y (String.length x + String.length y)) by lia.
    rewrite (comparePart_runs y x (String.length x + String.length y)) by lia.
    apply runsCompare_ok.
  - intros x y z.
    rewrite (comparePart_runs x y (String.length x + String.length y + String.length z)) by lia.
    rewrite (comparePart_runs y z (String.length x + String.length y + String.length z)) by lia.
    rewrite (comparePart_runs x z (String.length x + String.length y + String.length z)) by lia.
    apply runsCompare_ok.
Qed.

Lemma Compare_keys a b :
  Compare a b =
  lex (cmpZ (epochOf a) (epochOf b))
      (lex (comparePart (upstreamOf a) (upstreamOf b))
           (comparePart (revisionOf a) (revisionOf b))).
Proof.
  unfold Compare, epochOf, upstreamOf, revisionOf.
  destruct (splitEpoch a) as [ea ra], (splitEpoch b) as [eb rb]. cbn [fst snd].
  destruct (splitRevision ra) as [ua da], (splitRevision rb) as [ub db]. cbn [fst snd].
  unfold lex at 1, cmpZ.
  destruct (Z.eqb_spec ea eb); cbn [negb].
  - reflexivity.
  - destruct (Z.ltb_spec ea eb); reflexivity.
Qed.

Lemma Compare_ok : cmp_ok Compare.
Proof.
  apply (cmp_ok_ext (fun a b =>
    lex (cmpZ (epochOf a) (epochOf b))
        (lex (comparePart (upstreamOf a) (upstreamOf b))
             (comparePart (revisionOf a) (revisionOf b))))).
  - intros. symmetry. apply Compare_keys.
  - apply (cmp_ok_lex (fun a b => cmpZ (epochOf a) (epochOf b))
             (fun a b => lex (comparePart (upstreamOf a) (upstreamOf b))
                             (comparePart (revisionOf a) (revisionOf b)))).
    + apply (cmp_ok_pull epochOf), cmpZ_ok.
    + apply (cmp_ok_lex (fun a b => comparePart (upstreamOf a) (upstreamOf b))
               (fun a b => comparePart (revisionOf a) (revisionOf b))).
      * apply (cmp_ok_pull upstreamOf), comparePart_ok.
      * apply (cmp_ok_pull revisionOf), comparePart_ok.
Qed.

Lemma order_pos r : 0 < r -> r <> 126 -> 0 < order r.
Proof.
  intros Hr Hn. unfold order.
  destruct (Z.eqb_spec r 0); [lia|].
  destruct (Z.eqb_spec r 126); [lia|].
  destruct (IsDigit r) eqn:Hd.
  - unfold IsDigit in Hd. apply andb_true_iff in Hd as [Hd _].
    apply Z.leb_le in Hd. lia.
  - assert (r <= ToLower r) by (unfold ToLower; destruct (_ || _); lia).
    destruct (IsLetter r); lia.
Qed.

Lemma comparePart_exhausted_tilde r :
  HasPrefix r "~" = true -> comparePart "" r = 1.
Proof.
  intros Hp. destruct r as [|c r]; [discriminate|].
  cbn [HasPrefix] in Hp. apply andb_true_iff in Hp as [Hc _].
  apply Ascii.eqb_eq in Hc. subst c.
  rewrite (comparePart_runs "" _ (S (String.length r))) by (simpl; lia).
  reflexivity.
Qed.

Lemma comparePart_exhausted_other r :
  outweighs_nothing r = true -> comparePart "" r = -1.
Proof.
  intros Hr. destruct r as [|c r]; [discriminate|].
  rewrite (comparePart_runs "" _ (S (String.length r))) by (simpl; lia).
  cbn [runsCompare]. cbn [outweighs_nothing] in Hr.
  destruct (IsDigit (rune c)) eqn:Hd.
  - assert (leadingNonDigits (String c r) = "") as Hn by (simpl; now rewrite Hd).
    rewrite Hn. unfold afterNonDigits. rewrite Hn.
    change (leadingNonDigits "") with "". cbn [String.length string_drop].
    change (leadingDigits "") with "".
    change (compareNonDigits "" "") with 0. unfold lex at 1. cbn [Z.eqb negb].
    unfold compareDigits. change (TrimLeft0 "") with "".
    destruct (TrimLeft0 (leadingDigits (String c r))) as [|d t]; [discriminate|].
    reflexivity.
  - apply andb_true_iff in Hr as [H1 H2].
    apply negb_true_iff, Z.eqb_neq in H1, H2.
    pose proof (rune_range c) as Hc.
    pose proof (order_pos (rune c) ltac:(lia) H1) as Ho.
    assert (leadingNonDigits (String c r) = String c (leadingNonDigits r)) as ->
      by (simpl; now rewrite Hd).
    change (leadingNonDigits "") with "".
    rewrite compareNonDigits_turn. cbn [nextRune fst snd].
    unfold nonDigitsTurn. change (order 0) with 0.
    unfold lex at 1.
    destruct (Z.eqb_spec 0 (order (rune c))); [lia|]. cbn [negb].
    destruct (Z.ltb_spec 0 (order (rune c))); [|lia].
    reflexivity.
Qed.

(** *** Exhaustion after a common prefix *)

Lemma string_app_cons c (a b : string) : String c a ++ b = String c (a ++ b).
Proof. reflexivity. Qed.

Lemma string_app_nil_r (a : string) : a ++ "" = a.
Proof. induction a as [|c a IH]; [reflexivity|]. now rewrite string_app_cons, IH. Qed.

Lemma afterNonDigits_cons c a :
  IsDigit (rune c) = false -> afterNonDigits (String c a) = afterNonDigits a.
Proof. intros Hc. unfold afterNonDigits. cbn [leadingNonDigits]. now rewrite Hc. Qed.

Lemma afterDigits_cons c a :
  IsDigit (rune c) = true -> afterDigits (String c a) = afterDigits a.
Proof. intros Hc. unfold afterDigits. cbn [leadingDigits]. now rewrite Hc. Qed.

Lemma leadingNonDigits_app a b :
  leadingNonDigits (a ++ b)
  = if is_empty (afterNonDigits a) then a ++ leadingNonDigits b else leadingNonDigits a.
Proof.
  induction a as [|c a IH]; [reflexivity|]. rewrite string_app_cons.
  cbn [leadingNonDigits]. destruct (IsDigit (rune c)) eqn:Hc; cbn [negb].
  - unfold afterNonDigits. cbn [leadingNonDigits]. rewrite Hc. reflexivity.
  - rewrite (afterNonDigits_cons c a Hc), IH.
    destruct (is_empty (afterNonDigits a)); reflexivity.
Qed.

Lemma afterNonDigits_app a b :
  afterNonDigits (a ++ b)
  = if is_empty (afterNonDigits a) then afterNonDigits b else afterNonDigits a ++ b.
Proof.
  induction a as [|c a IH]; [reflexivity|]. rewrite string_app_cons.
  destruct (IsDigit (rune c)) eqn:Hc.
  - unfold afterNonDigits. cbn [leadingNonDigits]. rewrite Hc. reflexivity.
  - rewrite (afterNonDigits_cons c _ Hc), (afterNonDigits_cons c a Hc). exact IH.
Qed.

Lemma leadingDigits_app a b :
  leadingDigits (a ++ b)
  = if is_empty (afterDigits a) then a ++ leadingDigits b else leadingDigits a.
Proof.
  induction a as [|c a IH]; [reflexivity|]. rewrite string_app_cons.
  cbn [leadingDigits]. destruct (IsDigit (rune c)) eqn:Hc.
  - rewrite (afterDigits_cons c a Hc), IH.
    destruct (is_empty (afterDigits a)); reflexivity.
  - unfold afterDigits. cbn [leadingDigits]. rewrite Hc. reflexivity.
Qed.

Lemma afterDigits_app a b :
  afterDigits (a ++ b)
  = if is_empty (afterDigits a) then afterDigits b else afterDigits a ++ b.
Proof.
  induction a as [|c a IH]; [reflexivity|]. rewrite string_app_cons.
  destruct (IsDigit (rune c)) eqn:Hc.
  - rewrite (afterDigits_cons c _ Hc), (afterDigits_cons c a Hc). exact IH.
  - unfold afterDigits. cbn [leadingDigits]. rewrite Hc. reflexivity.
Qed.

(** When nothing follows the leading digits, they are the string. *)
Lemma afterDigits_empty a : is_empty (afterDigits a) = true -> leadingDigits a = a.
Proof.
  induction a as [|c a IH]; [reflexivity|]. cbn [leadingDigits].
  destruct (IsDigit (rune c)) eqn:Hc.
  - rewrite (afterDigits_cons c a Hc). intros He. now rewrite IH.
  - unfold afterDigits. cbn [leadingDigits]. rewrite Hc. discriminate.
Qed.

Lemma afterNonDigits_empty a : is_empty (afterNonDigits a) = true -> leadingNonDigits a = a.
Proof.
  induction a as [|c a IH]; [reflexivity|]. cbn [leadingNonDigits].
  destruct (IsDigit (rune c)) eqn:Hc; cbn [negb].
  - unfold afterNonDigits. cbn [leadingNonDigits]. rewrite Hc. discriminate.
  - rewrite (afterNonDigits_cons c a Hc). intros He. now rewrite IH.
Qed.

Lemma IndexByte_drop c n : forall p,
  IndexByte p c = None -> IndexByte (string_drop n p) c = None.
Proof.
  induction n as [|n IH]; intros [|x p] Hp; cbn [string_drop]; auto.
  apply IH. cbn [IndexByte] in Hp. destruct (Ascii.eqb x c); [discriminate|].
  destruct (IndexByte p c); [discriminate|reflexivity].
Qed.

(** A common prefix without a NUL byte does not decide the comparison of
    two runs of non-digits. *)
Lemma compareNonDigits_prefix p s :
  IndexByte p "000" = None ->
  compareNonDigits p (p ++ s) = compareNonDigits "" s.
Proof.
  induction p as [|c p IH]; intros Hp; [reflexivity|].
  rewrite string_app_cons. cbn [IndexByte] in Hp.
  destruct (Ascii.eqb_spec c "000") as [|Hc]; [discriminate|].
  destruct (IndexByte p "000") eqn:Hp'; [discriminate|].
  rewrite compareNonDigits_turn. cbn [nextRune fst snd]. rewrite (IH eq_refl).
  unfold nonDigitsTurn. rewrite Z.eqb_refl. cbn [negb].
  assert (rune c <> 0) as Hr.
  { intros E. apply Hc. unfold rune in E.
    rewrite <- (ascii_N_embedding c).
    replace (N_of_ascii c) with 0%N by lia. reflexivity. }
  destruct (Z.eqb_spec (rune c) 0); [contradiction|]. reflexivity.
Qed.

Lemma TrimLeft0_app a b :
  TrimLeft0 (a ++ b) = if is_empty (TrimLeft0 a) then TrimLeft0 b else TrimLeft0 a ++ b.
Proof.
  induction a as [|c a IH]; [reflexivity|]. rewrite string_app_cons.
  cbn [TrimLeft0]. destruct (Ascii.eqb c "0"); [exact IH|reflexivity].
Qed.

Lemma string_app_length (a b : string) :
  String.length (a ++ b) = (String.length a + String.length b)%nat.
Proof.
  induction a as [|c a IH]; [reflexivity|]. rewrite string_app_cons.
  cbn [String.length]. now rewrite IH.
Qed.

(** A run of digits is before the run with more digits after it, unless
    these are zeros after zeros. *)
Lemma compareDigits_longer d dr :
  is_empty (TrimLeft0 dr) = false -> compareDigits d (d ++ dr) = -1.
Proof.
  intros Hdr. unfold compareDigits. rewrite TrimLeft0_app.
  destruct (TrimLeft0 d) as [|x t] eqn:Hd; cbn [is_empty].
  - destruct (TrimLeft0 dr); [discriminate|]. reflexivity.
  - rewrite string_app_length.
    assert (0 < String.length dr)%nat as Hl.
    { destruct dr; [discriminate|]. cbn. lia. }
    destruct (Nat.eqb_spec (String.length (String x t))
                (String.length (String x t) + String.length dr)); [lia|].
    cbn [negb].
    destruct (Nat.ltb_spec (String.length (String x t))
                (String.length (String x t) + String.length dr)); [reflexivity|lia].
Qed.

(** What a remainder decides: it begins with a byte that is not a digit
    and whose comparison against nothing is [v], or with digits that are
    not all zeros, and [v] is -1. *)
Lemma decisive_remainder r v :
  (HasPrefix r "~" = true /\ v = 1) \/ (outweighs_nothing r = true /\ v = -1) ->
  (is_empty (leadingNonDigits r) = false
   /\ compareNonDigits "" (leadingNonDigits r) = v /\ v <> 0)
  \/ (leadingNonDigits r = ""
      /\ is_empty (TrimLeft0 (leadingDigits r)) = false /\ v = -1).
Proof.
  intros [[Hp ->]|[Ho ->]].
  - left. destruct r as [|c r]; [discriminate|].
    cbn [HasPrefix] in Hp. apply andb_true_iff in Hp as [Hc _].
    apply Ascii.eqb_eq in Hc. subst c. repeat split; discriminate || reflexivity.
  - destruct r as [|c r]; [discriminate|]. cbn [outweighs_nothing] in Ho.
    destruct (IsDigit (rune c)) eqn:Hd.
    + right. split; [cbn [leadingNonDigits]; now rewrite Hd|].
      split; [|reflexivity]. now apply negb_true_iff in Ho.
    + left. apply andb_true_iff in Ho as [H1 H2].
      apply negb_true_iff, Z.eqb_neq in H1, H2.
      pose proof (rune_range c) as Hc.
      pose proof (order_pos (rune c) ltac:(lia) H1) as Hord.
      cbn [leadingNonDigits]. rewrite Hd. cbn [negb is_empty].
      split; [reflexivity|]. split; [|discriminate].
      rewrite compareNonDigits_turn. cbn [nextRune fst snd].
      unfold nonDigitsTurn. change (order 0) with 0.
      destruct (Z.eqb_spec 0 (order (rune c))); [lia|]. cbn [negb].
      destruct (Z.ltb_spec 0 (order (rune c))); [reflexivity|lia].
Qed.

Lemma compare_same_run (f : string -> string -> Z) x : cmp_ok f -> f x x = 0.
Proof. intros [_ Ha _]. pose proof (Ha x x). lia. Qed.

Lemma lex_zero rest : lex 0 rest = rest.
Proof. reflexivity. Qed.

Lemma lex_decided v rest : v <> 0 -> lex v rest = v.
Proof. intros Hv. unfold lex. destruct (Z.eqb_spec v 0); [contradiction|reflexivity]. Qed.

(** After a common prefix without a NUL byte, the remainder of the
    longer side decides. *)
Lemma runsCompare_prefix r v :
  (HasPrefix r "~" = true /\ v = 1) \/ (outweighs_nothing r = true /\ v = -1) ->
  forall n p, (String.length p < n)%nat -> IndexByte p "000" = None ->
  runsCompare n p (p ++ r) = v.
Proof.
  intros Hr. apply decisive_remainder in Hr.
  induction n as [|n IH]; intros p Hn Hp; [lia|].
  cbn [runsCompare].
  rewrite leadingNonDigits_app, afterNonDigits_app.
  destruct (is_empty (afterNonDigits p)) eqn:Hp1.
  - (* [p] is a run of non-digits *)
    rewrite (afterNonDigits_empty p Hp1), (compareNonDigits_prefix _ _ Hp).
    apply is_empty_true in Hp1. rewrite Hp1.
    destruct Hr as [(_ & Hc & Hv)|(Hnd & Hdr & ->)].
    + rewrite Hc. now apply lex_decided.
    + rewrite Hnd. change (compareNonDigits "" "") with 0. rewrite lex_zero.
      assert (afterNonDigits r = r) as -> by (unfold afterNonDigits; now rewrite Hnd).
      change (leadingDigits "") with "".
      rewrite (compareDigits_longer "" (leadingDigits r) Hdr
               : compareDigits "" (leadingDigits r) = -1).
      reflexivity.
  - (* digits follow the first run of [p] *)
    rewrite (compare_same_run _ _ compareNonDigits_ok), lex_zero.
    set (p1 := afterNonDigits p) in *.
    assert (String.length p1 <= String.length p)%nat as Hl1.
    { unfold p1, afterNonDigits. rewrite string_drop_length. lia. }
    assert (IndexByte p1 "000" = None) as Hp1n by (apply IndexByte_drop, Hp).
    assert (0 < String.length (leadingDigits p1))%nat as Hd.
    { pose proof (afterNonDigits_leading p) as Hlead. fold p1 in Hlead.
      destruct (String.length (leadingDigits p1)) eqn:E; [|lia].
      exfalso. assert (leadingDigits p1 = "") as E' by (destruct (leadingDigits p1); [reflexivity|discriminate]).
      rewrite (no_runs_empty p1 Hlead E') in Hp1. discriminate. }
    rewrite leadingDigits_app, afterDigits_app.
    destruct (is_empty (afterDigits p1)) eqn:Hp2.
    + (* [p] ends with these digits *)
      rewrite (afterDigits_empty p1 Hp2).
      apply is_empty_true in Hp2. rewrite Hp2.
      destruct Hr as [(Hne & Hc & Hv)|(Hnd & Hdr & ->)].
      * assert (leadingDigits r = "") as Hdr.
        { destruct r as [|c r]; [reflexivity|]. cbn [leadingNonDigits leadingDigits] in *.
          destruct (IsDigit (rune c)); [discriminate|reflexivity]. }
        rewrite Hdr, string_app_nil_r.
        rewrite (compare_same_run _ _ compareDigits_ok), lex_zero.
        assert (afterDigits r = r) as -> by (unfold afterDigits; now rewrite Hdr).
        pose proof (leadingDigits_length p1) as Hl2.
        apply (IH ""); [cbn; lia|reflexivity].
      * rewrite (compareDigits_longer _ _ Hdr). reflexivity.
    + (* [p] goes on after the digits *)
      rewrite (compare_same_run _ _ compareDigits_ok), lex_zero.
      apply IH.
      * pose proof (leadingDigits_length p1) as Hl2.
        unfold afterDigits. rewrite string_drop_length. lia.
      * apply IndexByte_drop, Hp1n.
Qed.

Lemma comparePart_prefix p r v :
  (HasPrefix r "~" = true /\ v = 1) \/ (outweighs_nothing r = true /\ v = -1) ->
  IndexByte p "000" = None ->
  comparePart p (p ++ r) = v /\ comparePart (p ++ r) p = - v.
Proof.
  intros Hr Hp.
  assert (comparePart p (p ++ r) = v) as E.
  { rewrite (comparePart_runs _ _ _ (Nat.le_refl _)).
    apply (runsCompare_prefix r v Hr); [|exact Hp].
    rewrite string_app_length.
    destruct Hr as [[Hr _]|[Hr _]]; destruct r; try discriminate; cbn; lia. }
  split; [exact E|]. rewrite (cmp_anti _ comparePart_ok p (p ++ r)), E. reflexivity.
Qed.

End version_facts.

(** ** The guard on the feed indexes *)

Section guard.
Context `{Runtime}.
Import pkgmgr.

Lemma not_loaded_queries_fail m : indexesLoaded m = false -> queries_fail m.
Proof.
  intros Hm. unfold queries_fail, ListPackages, ListUpgradable, FindPackages,
    InfoParagraphs, Dependencies, ReverseDependencies, ensureIndexesLoaded.
  rewrite Hm. cbn [negb].
  repeat split; try reflexivity. intros opts ->. reflexivity.
Qed.

Lemma not_found_is_not_the_guard name :
  errors_New ("package " ++ name ++ " not found") <> ErrIndexesNotLoaded.
Proof.
  unfold ErrIndexesNotLoaded. intros [= E].
  assert (forall a b : string,
            String.length (a ++ b) = (String.length a + String.length b)%nat) as Hlen.
  { induction a as [|c a IH]; intros b; [reflexivity|].
    change (String c a ++ b) with (String c (a ++ b)). cbn [String.length].
    now rewrite IH. }
  assert (forall a b : string, string_drop (String.length a) (a ++ b) = b) as Hdrop.
  { induction a as [|c a IH]; intros b; [reflexivity|].
    change (String c a ++ b) with (String c (a ++ b)). cbn [String.length string_drop].
    apply IH. }
  change ("" ++ name ++ " not found") with (name ++ " not found") in E.
  pose proof (f_equal String.length E) as El. rewrite Hlen in El.
  cbn in El.
  assert (String.length name = 33%nat) as Hn by lia.
  pose proof (f_equal (string_drop (String.length name)) E) as E2.
  rewrite Hdrop in E2. rewrite Hn in E2. cbn in E2. discriminate.
Qed.

Lemma not_equal_Err {A} (e1 e2 : error) : e1 <> e2 -> @Err A e1 <> Err e2.
Proof. intros Hne [= E]. contradiction. Qed.

Lemma loaded_queries_pass m : indexesLoaded m = true -> queries_pass m.
Proof.
  intros Hm. unfold queries_pass, ListPackages, listInstalled, ListUpgradable,
    FindPackages, InfoParagraphs, Dependencies, ReverseDependencies, ensureIndexesLoaded.
  rewrite Hm. cbn [negb]. repeat split.
  - intros opts. destruct (InstalledOnly opts); discriminate.
  - discriminate.
  - discriminate.
  - intros patterns.
    destruct (fold_left _ (repo.All (indexes m)) _) as [paragraphs seen]. discriminate.
  - intros name. destruct (repo.Find (indexes m) name) as [pkg|].
    { discriminate. }
    destruct (pkgdb.Lookup (status m) name) as [entry|err].
    { discriminate. }
    apply not_equal_Err, not_found_is_not_the_guard.
  - intros q. destruct (_ =? _)%nat; [discriminate|].
    destruct (searchLoop _ _ _ _); discriminate.
Qed.

Lemma New_not_loaded w loaded m : New w loaded = Ok m -> indexesLoaded m = false.
Proof.
  unfold New. intros Hn.
  repeat match type of Hn with
         | match ?x with _ => _ end = _ => destruct x; try discriminate
         end;
    injection Hn as <-; reflexivity.
Qed.

(** [Update] sets the flag when it succeeds and leaves the manager as it
    is when it fails. *)
Lemma Update_flag w schedule m :
  match Update w schedule m with
  | (m', None) => indexesLoaded m' = true
  | (m', Some _) => m' = m
  end.
Proof. unfold Update. destruct (repo.Update _ _ _ _ _); reflexivity. Qed.

Lemma after_updates_flag w schedules : forall m,
  indexesLoaded (fst (after_updates w schedules m))
  = indexesLoaded m || snd (after_updates w schedules m).
Proof.
  induction schedules as [|s schedules IH]; intros m; cbn [after_updates fst snd].
  - now rewrite orb_false_r.
  - pose proof (Update_flag w s m) as Hu.
    destruct (Update w s m) as [m' [err|]].
    + subst m'. apply IH.
    + cbn [fst snd]. rewrite IH, Hu. cbn. now rewrite orb_true_r.
Qed.

(** Before any [Update], the queries fail. *)
Lemma New_queries_fail w loaded m : New w loaded = Ok m -> queries_fail m.
Proof. intros Hn. apply not_loaded_queries_fail, (New_not_loaded _ _ _ Hn). Qed.

End guard.

(** ** Feed acquisition *)

Section acquisition.
Context `{Runtime}.
Import repo.

Lemma complete_keeps_error outs : forall st e,
  firstErr st = Some e -> firstErr (fold_left complete outs st) = Some e.
Proof.
  induction outs as [|o outs IH]; intros st e He; [exact He|].
  cbn [fold_left]. apply IH. destruct o; unfold complete; cbn; rewrite ?He; auto.
Qed.

Lemma complete_first_error pre e post : forall st,
  firstErr st = None ->
  firstErr (fold_left complete (map Ok pre ++ Err e :: post) st) = Some e.
Proof.
  induction pre as [|idx pre IH]; intros st Hst; cbn [map app fold_left].
  - apply complete_keeps_error. unfold complete. now rewrite Hst.
  - apply IH. exact Hst.
Qed.

Lemma complete_no_error outs : forall st,
  firstErr (fold_left complete outs st) = None ->
  firstErr st = None
  /\ exists idxs, outs = map Ok idxs
       /\ result_ (fold_left complete outs st) = (result_ st ++ idxs)%list.
Proof.
  induction outs as [|o outs IH]; intros st Hf; cbn [fold_left] in *.
  - split; [exact Hf|]. exists []. now rewrite app_nil_r.
  - destruct (IH _ Hf) as (Hst & idxs & -> & Hr). destruct o as [idx|e].
    + cbn in Hst. split; [exact Hst|]. exists (idx :: idxs). split; [reflexivity|].
      rewrite Hr. cbn. now rewrite <- app_assoc.
    + exfalso. unfold complete in Hst.
      destruct (firstErr st) eqn:E; cbn in Hst; congruence.
Qed.

Lemma fetchFeed_exhausted w feed cacheDir cl :
  exhausted w feed -> exists e, fst (fetchFeed w feed cacheDir (Some cl)) = Err e.
Proof.
  intros [[e1 H1] [e2 H2]]. unfold fetchFeed.
  destruct (String.eqb (config.URI feed) ""); [eexists; reflexivity|].
  cbn [tryUrls downloader.GetBytes]. rewrite H1, H2. eexists; reflexivity.
Qed.

Lemma fetchFeed_feed w feed cacheDir client idx ops :
  fetchFeed w feed cacheDir client = (Ok idx, ops) -> Index_Feed idx = feed.
Proof.
  unfold fetchFeed. intros Hf.
  repeat match type of Hf with
         | (if ?x then _ else _) = _ => destruct x; try discriminate
         | match ?x with _ => _ end = _ => destruct x; try discriminate
         end;
    injection Hf as <- _; reflexivity.
Qed.

(** The first position of a list that satisfies a test. *)
Lemma first_position (bad : nat -> bool) (l : list nat) (i : nat) :
  i ∈ l -> bad i = true ->
  exists pre j post, l = (pre ++ j :: post)%list
    /\ Forall (fun k => bad k = false) pre /\ bad j = true.
Proof.
  induction l as [|x l IH]; intros Hi Hb.
  - inversion Hi.
  - destruct (bad x) eqn:Hx.
    + exists [], x, l. repeat split; auto.
    + assert (i ∈ l) as Hil.
      { apply elem_of_cons in Hi as [->|]; [congruence | assumption]. }
      destruct (IH Hil Hb) as (pre & j & post & -> & Hpre & Hj).
      exists (x :: pre), j, post. repeat split; auto.
Qed.

Lemma lookup_seq_all {A} (l1 l2 : list A) :
  omap (fun i => (l1 ++ l2)%list !! i) (seq (length l1) (length l2)) = l2.
Proof.
  revert l1. induction l2 as [|x l2 IH]; intros l1; [reflexivity|].
  cbn [length seq]. change (omap ?f (?i :: ?s)) with
    (match f i with Some y => y :: omap f s | None => omap f s end).
  cbv beta. rewrite lookup_app_r by lia. rewrite Nat.sub_diag. cbn [lookup list_lookup].
  f_equal. specialize (IH (l1 ++ [x])%list).
  rewrite length_app, <- app_assoc in IH. cbn in IH.
  rewrite Nat.add_1_r in IH. exact IH.
Qed.

Lemma lookup_schedule_perm {A} (l : list A) (schedule : list nat) :
  schedule ≡ₚ seq 0 (length l) -> omap (fun i => l !! i) schedule ≡ₚ l.
Proof.
  intros Hp. rewrite Hp.
  pose proof (lookup_seq_all [] l) as E. cbn in E. now rewrite E.
Qed.

Lemma find_in_spec idxs name pkg :
  find_in idxs name = Some pkg <->
  exists pre idx post, idxs = (pre ++ idx :: post)%list
    /\ Forall (fun i => Packages i !! name = None) pre
    /\ Packages idx !! name = Some pkg.
Proof.
  induction idxs as [|i idxs IH]; cbn [find_in].
  - split; [discriminate|]. intros (pre & idx & post & E & _). destruct pre; discriminate.
  - destruct (Packages i !! name) as [p|] eqn:Hi.
    + split.
      * intros [= <-]. exists [], i, idxs. auto.
      * intros (pre & idx & post & E & Hpre & Hidx). destruct pre as [|i' pre].
        -- injection E as <- <-. congruence.
        -- injection E as <- _. inversion Hpre; congruence.
    + rewrite IH. split.
      * intros (pre & idx & post & -> & Hpre & Hidx).
        exists (i :: pre), idx, post. auto.
      * intros (pre & idx & post & E & Hpre & Hidx). destruct pre as [|i' pre].
        -- injection E as <- <-. congruence.
        -- injection E as <- ->. inversion Hpre; subst.
           exists pre, idx, post. auto.
Qed.

End acquisition.

(** ** A failed update *)

Section update.
Context `{Runtime}.

Lemma omap_fetched_ok w c cacheDir client pre :
  Forall (fun k => exists idx, fetched w c cacheDir client k = Some (Ok idx)) pre ->
  exists idxs, omap (fetched w c cacheDir client) pre = map Ok idxs.
Proof.
  induction 1 as [|k pre [idx Hk] _ [idxs IH]].
  - exists []. reflexivity.
  - exists (idx :: idxs).
    change (omap ?f (?i :: ?s)) with
      (match f i with Some y => y :: omap f s | None => omap f s end).
    cbv beta. rewrite Hk, IH. reflexivity.
Qed.

Lemma repo_Update_outcomes w schedule c cacheDir cl :
  repo.Update w schedule (Some c) cacheDir (Some cl) =
  let st := fold_left repo.complete (omap (fetched w c cacheDir (Some cl)) schedule)
              {| repo.result_ := []; repo.firstErr := None |} in
  match repo.firstErr st with
  | Some err => Err err
  | None => Ok (repo.result_ st)
  end.
Proof. reflexivity. Qed.

(** C2. When a feed fails on both of its URLs, [Update] returns the error
    of the first feed, in the order the goroutines finished, whose fetch
    failed; the indexes of the feeds that finished before it are dropped,
    and the manager is what it was before the call. *)
Theorem C2_update_failure w schedule m c cl :
  pkgmgr.cfg m = Some c -> pkgmgr.client m = Some cl ->
  schedule ≡ₚ seq 0 (length (config.Feeds c)) ->
  (exists i feed, config.Feeds c !! i = Some feed /\ exhausted w feed) ->
  exists pre j post feed e,
    schedule = (pre ++ j :: post)%list
    /\ Forall (fun k => exists idx,
                 fetched w c (pkgmgr.cache m) (pkgmgr.client m) k = Some (Ok idx)) pre
    /\ config.Feeds c !! j = Some feed
    /\ fst (repo.fetchFeed w feed (pkgmgr.cache m) (pkgmgr.client m)) = Err e
    /\ repo.Update w schedule (pkgmgr.cfg m) (pkgmgr.cache m) (pkgmgr.client m) = Err e
    /\ pkgmgr.Update w schedule m = (m, Some e).
Proof.
  intros Hc Hcl Hp (i & feed & Hi & Hex).
  set (bad := fetch_failed w c (pkgmgr.cache m) (pkgmgr.client m)).
  assert (i ∈ schedule) as Hin.
  { rewrite Hp. apply elem_of_seq. apply lookup_lt_Some in Hi. lia. }
  assert (bad i = true) as Hbad.
  { unfold bad, fetch_failed, fetched. rewrite Hi, Hcl. cbn.
    destruct (fetchFeed_exhausted w feed (pkgmgr.cache m) cl Hex) as [e ->].
    reflexivity. }
  destruct (first_position bad schedule i Hin Hbad) as (pre & j & post & Hs & Hpre & Hj).
  assert (Forall (fun k => exists idx,
            fetched w c (pkgmgr.cache m) (pkgmgr.client m) k = Some (Ok idx)) pre) as Hok.
  { apply Forall_forall. intros k Hk.
    assert (k ∈ schedule) as Hks by (rewrite Hs; apply elem_of_app; auto).
    rewrite Hp in Hks. apply elem_of_seq in Hks.
    destruct (lookup_lt_is_Some_2 (config.Feeds c) k ltac:(lia)) as [fk Hfk].
    rewrite Forall_forall in Hpre. specialize (Hpre k Hk).
    unfold bad, fetch_failed, fetched in *. rewrite Hfk in *. cbn in *.
    destruct (fst (repo.fetchFeed w fk (pkgmgr.cache m) (pkgmgr.client m)));
      [eauto | discriminate]. }
  unfold bad, fetch_failed in Hj.
  destruct (fetched w c (pkgmgr.cache m) (pkgmgr.client m) j) as [[idx|e]|] eqn:Hfj;
    try discriminate.
  unfold fetched in Hfj.
  destruct (config.Feeds c !! j) as [fj|] eqn:Hlj; [|discriminate].
  cbn in Hfj. injection Hfj as Hfj.
  assert (repo.Update w schedule (pkgmgr.cfg m) (pkgmgr.cache m) (pkgmgr.client m) = Err e)
    as Hu.
  { rewrite Hc, Hcl, repo_Update_outcomes. cbv zeta.
    destruct (omap_fetched_ok _ _ _ _ _ Hok) as [idxs Hidxs].
    rewrite Hcl in Hidxs.
    rewrite Hs, omap_app, Hidxs.
    change (omap ?f (?i :: ?s)) with
      (match f i with Some y => y :: omap f s | None => omap f s end).
    cbv beta. unfold fetched at 1. rewrite Hlj. cbn [fmap option_fmap option_map].
    rewrite <- Hcl, Hfj.
    rewrite complete_first_error by reflexivity. reflexivity. }
  exists pre, j, post, fj, e. repeat split; auto.
  unfold pkgmgr.Update. rewrite Hu. reflexivity.
Qed.

End update.

Lemma C2_witness :
  exists m, pkgmgr.New (H:=sample_runtime) examples.world (Ok examples.cfg_broken_feed) = Ok m
  /\ exists pre j post feed e,
    [0; 1]%nat = (pre ++ j :: post)%list
    /\ Forall (fun k => exists idx,
                 fetched (H:=sample_runtime) examples.world examples.cfg_broken_feed
                   (pkgmgr.cache m) (pkgmgr.client m) k = Some (Ok idx)) pre
    /\ config.Feeds examples.cfg_broken_feed !! j = Some feed
    /\ fst (repo.fetchFeed (H:=sample_runtime) examples.world feed (pkgmgr.cache m)
              (pkgmgr.client m)) = Err e
    /\ repo.Update (H:=sample_runtime) examples.world [0; 1]%nat (pkgmgr.cfg m)
         (pkgmgr.cache m) (pkgmgr.client m) = Err e
    /\ pkgmgr.Update (H:=sample_runtime) examples.world [0; 1]%nat m = (m, Some e).
Proof.
  eexists. split; [reflexivity|].
  eapply (C2_update_failure (H:=sample_runtime) examples.world [0; 1]%nat);
    [reflexivity | reflexivity | reflexivity |].
  exists 1%nat, examples.feed_c. split; [reflexivity|].
  split; eexists; reflexivity.
Defined.

(** ** The order of the indexes and the cache file *)

Section order.
Context `{Runtime}.

Lemma fetched_feeds w c cacheDir client schedule : forall idxs,
  omap (fetched w c cacheDir client) schedule = map Ok idxs ->
  map repo.Index_Feed idxs = omap (fun i => config.Feeds c !! i) schedule.
Proof.
  induction schedule as [|i s IH]; intros idxs Ho.
  - destruct idxs; [reflexivity | discriminate].
  - revert Ho.
    change (omap ?f (?i :: ?s)) with
      (match f i with Some y => y :: omap f s | None => omap f s end).
    cbv beta. unfold fetched at 1.
    destruct (config.Feeds c !! i) as [feed|] eqn:Hi; cbn [fmap option_fmap option_map].
    + intros Ho. destruct idxs as [|idx idxs]; [discriminate|].
      cbn [map] in Ho. injection Ho as Hf Ho.
      destruct (repo.fetchFeed w feed cacheDir client) as [r ops] eqn:Hff.
      cbn in Hf. subst r. cbn [map]. f_equal.
      * eapply fetchFeed_feed, Hff.
      * apply IH, Ho.
    + apply IH.
Qed.

(** C9, as the code has it. After a successful [Update] the index list
    holds one index per configured feed, in the order in which the
    goroutines recorded their results: a permutation of the declaration
    order, and the declaration order itself when they finish in that
    order. [Find] returns the package of the earliest index of the list
    that defines the name. *)
Theorem C9_index_order_is_completion_order w schedule m m' c :
  pkgmgr.cfg m = Some c ->
  schedule ≡ₚ seq 0 (length (config.Feeds c)) ->
  pkgmgr.Update w schedule m = (m', None) ->
  let idxs := repo.indexes (pkgmgr.indexes m') in
  map repo.Index_Feed idxs = omap (fun i => config.Feeds c !! i) schedule
  /\ map repo.Index_Feed idxs ≡ₚ config.Feeds c
  /\ (schedule = seq 0 (length (config.Feeds c)) ->
      map repo.Index_Feed idxs = config.Feeds c)
  /\ forall name pkg,
       repo.Find (pkgmgr.indexes m') name = Some pkg <->
       exists pre idx post, idxs = (pre ++ idx :: post)%list
         /\ Forall (fun i => repo.Packages i !! name = None) pre
         /\ repo.Packages idx !! name = Some pkg.
Proof.
  intros Hc Hp Hu idxs.
  assert (map repo.Index_Feed idxs = omap (fun i => config.Feeds c !! i) schedule) as Hfeeds.
  { unfold pkgmgr.Update in Hu.
    destruct (repo.Update w schedule (pkgmgr.cfg m) (pkgmgr.cache m) (pkgmgr.client m))
      as [l|e] eqn:Hr; [|discriminate].
    injection Hu as <-. subst idxs. cbn.
    rewrite Hc in Hr. destruct (pkgmgr.client m) as [cl|] eqn:Hcl; [|discriminate].
    rewrite repo_Update_outcomes in Hr. cbv zeta in Hr.
    destruct (repo.firstErr _) eqn:Hfe in Hr; [discriminate|].
    injection Hr as <-.
    destruct (complete_no_error _ _ Hfe) as (_ & l & Ho & ->).
    cbn. eapply fetched_feeds, Ho. }
  split; [exact Hfeeds|]. split; [|split].
  - rewrite Hfeeds. apply lookup_schedule_perm, Hp.
  - intros ->. rewrite Hfeeds.
    pose proof (lookup_seq_all [] (config.Feeds c)) as E. exact E.
  - intros name pkg. apply find_in_spec.
Qed.

(** C6, as the code has it. When [fetchFeed] succeeds with a non-empty
    cache directory, its only file system operation is one write of the
    uncompressed bytes to [cacheDir/<feedName>.Packages] itself, with mode
    0644: there is no temporary file and no rename. *)
Theorem C6_cache_written_directly w feed cacheDir client idx ops :
  cacheDir <> "" ->
  repo.fetchFeed w feed cacheDir client = (Ok idx, ops) ->
  let base := TrimSuffix_slash (config.URI feed) in
  let path := filepath_Join cacheDir (config.Feed_Name feed ++ ".Packages") in
  exists body data cf,
    repo.tryUrls w client [base ++ "/Packages.gz"; base ++ "/Packages"] (Ok "") = Ok body
    /\ repo.uncompress feed body = Ok data
    /\ format.ParseControl data = Ok cf
    /\ ops = [FsWriteFile path data 420]
    /\ fs_error w (FsWriteFile path data 420) = None
    /\ writes_via_temp path data ops = false.
Proof.
  intros Hne Hf base path. unfold repo.fetchFeed in Hf.
  fold base in Hf.
  destruct (String.eqb (config.URI feed) ""); [discriminate|].
  destruct (repo.tryUrls _ _ _ _) as [body|] eqn:Hb; [|discriminate].
  destruct (repo.uncompress feed body) as [data|] eqn:Hd; [|discriminate].
  destruct (format.ParseControl data) as [cf|] eqn:Hp; [|discriminate].
  destruct (String.eqb_spec cacheDir ""); [contradiction|]. cbn [negb] in Hf.
  fold path in Hf.
  destruct (fs_error w (FsWriteFile path data 420)) eqn:He; [discriminate|].
  injection Hf as _ <-.
  exists body, data, cf. repeat split; auto.
  unfold writes_via_temp. cbn [existsb orb]. apply andb_false_r.
Qed.

(** [DownloadToFile], for comparison, writes through a temporary file. *)
Lemma DownloadToFile_via_temp w client url path ops :
  downloader.DownloadToFile w client url path = (None, ops) ->
  exists data, downloader.GetBytes w client url = Ok data
    /\ writes_via_temp path data ops = true.
Proof.
  unfold downloader.DownloadToFile. intros Hd.
  destruct (downloader.GetBytes w client url) as [data|]; [|discriminate].
  repeat match type of Hd with
         | match ?x with _ => _ end = _ => destruct x; try discriminate
         end.
  injection Hd as <-. exists data. split; [reflexivity|].
  unfold writes_via_temp. cbn [existsb]. rewrite !String.eqb_refl. reflexivity.
Qed.

End order.

(** ** Sorting by a string key *)

Section sorting.
Context {A : Type} (key : A -> string).

#[local] Instance key_le_total : Total (key_le key).
Proof. intros x y. apply (total String.le). Qed.

#[local] Instance key_le_trans : Transitive (key_le key).
Proof. intros x y z. apply (transitivity (R:=String.le)). Qed.

Lemma sort_Slice_perm (l : list A) : sort_Slice key l ≡ₚ l.
Proof. apply merge_sort_Permutation. Qed.

Lemma sort_Slice_sorted (l : list A) : StronglySorted (key_le key) (sort_Slice key l).
Proof. apply (StronglySorted_merge_sort (key_le key)). Qed.

Lemma sort_Slice_elem (l : list A) x : x ∈ sort_Slice key l <-> x ∈ l.
Proof. now rewrite sort_Slice_perm. Qed.

(** Two permutations of a list whose keys are pairwise distinct sort to
    the same list. *)
Lemma sort_Slice_unique (l1 l2 : list A) :
  l1 ≡ₚ l2 ->
  (forall x y, x ∈ l1 -> y ∈ l1 -> key x = key y -> x = y) ->
  sort_Slice key l1 = sort_Slice key l2.
Proof.
  intros Hp Hinj.
  apply (StronglySorted_unique_strong (key_le key)).
  - intros x y Hx Hy Hxy Hyx.
    apply (proj1 (sort_Slice_elem _ _)) in Hx.
    apply (proj1 (sort_Slice_elem _ _)) in Hy.
    rewrite <- Hp in Hy.
    apply Hinj; auto. apply (anti_symm String.le); assumption.
  - apply sort_Slice_sorted.
  - apply sort_Slice_sorted.
  - now rewrite !sort_Slice_perm.
Qed.

End sorting.

(** ** Upgrade candidates *)

Section upgradable.
Context `{Runtime}.
Import pkgmgr.

Lemma Entries_elem (s : pkgdb.Status) (e : pkgdb.Entry) :
  e ∈ pkgdb.Entries s <-> exists k, pkgdb.byName s !! k = Some e.
Proof.
  unfold pkgdb.Entries. rewrite sort_Slice_elem.
  change (map snd ?l) with (snd <$> l).
  rewrite list_elem_of_fmap. split.
  - intros ([k e'] & -> & Hin). exists k.
    rewrite map_range_perm in Hin. now apply elem_of_map_to_list in Hin.
  - intros [k Hk]. exists (k, e). split; [reflexivity|].
    rewrite map_range_perm. now apply elem_of_map_to_list.
Qed.

Lemma upgradeCandidate_Some m patterns entry c :
  upgradeCandidate m patterns entry = Some c <->
  exists pkg,
    matchesAny (pkgdb.Name entry) patterns = true
    /\ repo.Find (indexes m) (pkgdb.Name entry) = Some pkg
    /\ version.Compare (pkgdb.Version entry) (repo.Version pkg) < 0
    /\ c = {| Name := pkgdb.Name entry;
              Installed := pkgdb.Version entry;
              Available := repo.Version pkg;
              Description := firstLine (repo.Description pkg) |}.
Proof.
  unfold upgradeCandidate.
  destruct (matchesAny (pkgdb.Name entry) patterns); cbn [negb].
  2:{ split; [discriminate|]. intros (pkg & Hm & _). discriminate. }
  destruct (repo.Find (indexes m) (pkgdb.Name entry)) as [pkg|].
  2:{ split; [discriminate|]. intros (pkg & _ & Hf & _). discriminate. }
  destruct (Z.geb_spec (version.Compare (pkgdb.Version entry) (repo.Version pkg)) 0).
  - split; [discriminate|]. intros (pkg' & _ & [= <-] & Hc & _). lia.
  - split.
    + intros [= <-]. exists pkg. repeat split; auto.
    + intros (pkg' & _ & [= <-] & _ & ->). reflexivity.
Qed.

(** With the indexes loaded, [ListUpgradable] returns a candidate exactly
    for each entry of the status database, whatever its [Status] field,
    whose name matches the patterns, that [IndexSet.Find] finds, and
    whose version compares strictly less than the available one; the
    result is sorted ascending by name. *)
Lemma ListUpgradable_candidates m patterns :
  indexesLoaded m = true ->
  exists candidates,
    ListUpgradable m patterns = Ok candidates
    /\ (forall c, c ∈ candidates <->
          exists k entry pkg,
            pkgdb.byName (status m) !! k = Some entry
            /\ matchesAny (pkgdb.Name entry) patterns = true
            /\ repo.Find (indexes m) (pkgdb.Name entry) = Some pkg
            /\ version.Compare (pkgdb.Version entry) (repo.Version pkg) < 0
            /\ c = {| Name := pkgdb.Name entry;
                      Installed := pkgdb.Version entry;
                      Available := repo.Version pkg;
                      Description := firstLine (repo.Description pkg) |})
    /\ StronglySorted (fun a b => String.le (Name a) (Name b)) candidates.
Proof.
  intros Hl. unfold ListUpgradable, ensureIndexesLoaded. rewrite Hl. cbn [negb].
  eexists. split; [reflexivity|]. split.
  - intros c. rewrite sort_Slice_elem, list_elem_of_omap. split.
    + intros (entry & He & Hc). apply Entries_elem in He as [k Hk].
      apply upgradeCandidate_Some in Hc as (pkg & ? & ? & ? & ?).
      exists k, entry, pkg. auto.
    + intros (k & entry & pkg & Hk & ? & ? & ? & ?).
      exists entry. split; [apply Entries_elem; eauto|].
      apply upgradeCandidate_Some. exists pkg. auto.
  - apply (sort_Slice_sorted Name).
Qed.

End upgradable.

(** ** Independence of the order in which maps are visited *)

(** [List.find] does not depend on the order of the list when at most one
    element passes the test. *)
Lemma find_order_free {A} (f : A -> bool) (l1 l2 : list A) :
  l1 ≡ₚ l2 ->
  (forall x y, x ∈ l1 -> y ∈ l1 -> f x = true -> f y = true -> x = y) ->
  List.find f l1 = List.find f l2.
Proof.
  induction 1 as [|x l l' Hp IH|x y l|l l' l'' Hp1 IH1 Hp2 IH2]; intros Hu.
  - reflexivity.
  - cbn. destruct (f x); [reflexivity|]. apply IH.
    intros a b Ha Hb. apply Hu; now apply list_elem_of_further.
  - cbn. destruct (f x) eqn:Hx, (f y) eqn:Hy; try reflexivity.
    f_equal. apply Hu; auto; repeat constructor.
  - rewrite IH1 by exact Hu. apply IH2.
    intros a b Ha Hb. apply Hu; now rewrite Hp1.
Qed.

Lemma filter_le_one_unique {A} (f : A -> bool) (l : list A) :
  (length (List.filter f l) <=? 1)%nat = true ->
  forall x y, x ∈ l -> y ∈ l -> f x = true -> f y = true -> x = y.
Proof.
  intros Hl x y Hx Hy Hfx Hfy. apply Nat.leb_le in Hl.
  assert (In x (List.filter f l)) as Hx'
    by (apply filter_In; split; [now apply list_elem_of_In|assumption]).
  assert (In y (List.filter f l)) as Hy'
    by (apply filter_In; split; [now apply list_elem_of_In|assumption]).
  destruct (List.filter f l) as [|z [|z' t]]; cbn in *; try lia; intuition congruence.
Qed.

Lemma find_ext_in {A} (f g : A -> bool) (l : list A) :
  (forall x, x ∈ l -> f x = g x) -> List.find f l = List.find g l.
Proof.
  induction l as [|x l IH]; intros Hfg; [reflexivity|]. cbn.
  rewrite (Hfg x) by constructor. destruct (g x); [reflexivity|].
  apply IH. intros y Hy. apply Hfg. now constructor.
Qed.

Lemma Value_order_free `{Runtime} (p : format.Paragraph) (key : string) :
  fold_unique p key = true ->
  format.Value p key = format.Value (H:=sample_runtime) p key.
Proof.
  unfold fold_unique. rewrite !andb_true_iff. intros [[Hkey Hkeys] Hu].
  rewrite forallb_forall in Hkeys.
  unfold format.Value. cbn [map_range strings_EqualFold sample_runtime].
  rewrite (find_ext_in _ (fun kv => EqualFold_ASCII (fst kv) key)).
  - rewrite (find_order_free _ (map_range (format.Fields p))
               (map_to_list (format.Fields p))); [reflexivity| |].
    + apply map_range_perm.
    + intros x y Hx Hy. rewrite map_range_perm in Hx, Hy.
      now apply (filter_le_one_unique _ _ Hu).
  - intros kv Hkv. rewrite map_range_perm in Hkv.
    apply strings_EqualFold_ascii; [|exact Hkey].
    apply Hkeys. now apply list_elem_of_In.
Qed.

Lemma status_of_wf entries : wf_status (examples.status_of entries).
Proof.
  intros k e Hk. cbn in Hk. apply elem_of_list_to_map_2 in Hk.
  apply list_elem_of_fmap in Hk as (e' & [= -> ->] & _). reflexivity.
Qed.

Lemma loadParagraphs_wf `{Runtime} ps : forall byName,
  (forall k e, byName !! k = Some e -> pkgdb.Name e = k) ->
  forall k e, pkgdb.loadParagraphs byName ps !! k = Some e -> pkgdb.Name e = k.
Proof.
  induction ps as [|p ps IH]; intros byName Hwf; [exact Hwf|].
  cbn [pkgdb.loadParagraphs]. destruct (String.eqb _ ""); [now apply IH|].
  apply IH. intros k e. rewrite lookup_insert. case_decide.
  - intros [= <-]. now subst.
  - apply Hwf.
Qed.

(** Every status database that [Load] or [Empty] builds is well formed. *)
Lemma Load_wf `{Runtime} w path s : pkgdb.Load w path = Ok s -> wf_status s.
Proof.
  unfold pkgdb.Load. intros Hl.
  destruct (os_ReadFile w path); [|discriminate].
  destruct (format.ParseControl _); [|discriminate].
  injection Hl as <-. intros k e. cbn. apply loadParagraphs_wf.
  intros k' e'. rewrite lookup_empty. discriminate.
Qed.

Lemma Entries_order_free `{Runtime} (s : pkgdb.Status) :
  wf_status s -> pkgdb.Entries s = pkgdb.Entries (H:=sample_runtime) s.
Proof.
  intros Hwf. unfold pkgdb.Entries. cbn [map_range sample_runtime].
  apply sort_Slice_unique.
  - change (map snd ?l) with (snd <$> l). apply fmap_Permutation, map_range_perm.
  - intros x y Hx Hy Hxy.
    change (map snd ?l) with (snd <$> l) in Hx, Hy.
    apply list_elem_of_fmap in Hx as ([kx x'] & -> & Hx).
    apply list_elem_of_fmap in Hy as ([ky y'] & -> & Hy).
    rewrite map_range_perm in Hx, Hy.
    apply elem_of_map_to_list in Hx, Hy. cbn in *.
    pose proof (Hwf _ _ Hx). pose proof (Hwf _ _ Hy). congruence.
Qed.

Lemma sort_Strings_order_free (l1 l2 : list string) :
  l1 ≡ₚ l2 -> sort_Strings l1 = sort_Strings l2.
Proof. intros Hp. apply sort_Slice_unique; auto. Qed.

Lemma fold_left_ext_in {A B} (f g : A -> B -> A) (l : list B) : forall a,
  (forall a x, x ∈ l -> f a x = g a x) -> fold_left f l a = fold_left g l a.
Proof.
  induction l as [|x l IH]; intros a Hfg; [reflexivity|].
  cbn. rewrite (Hfg a x) by constructor. apply IH.
  intros a' y Hy. apply Hfg. now constructor.
Qed.

(** ** The search loop of [ReverseDependencies] *)

Section search.
Context `{Runtime}.
Import pkgmgr.

Lemma scanUniverse_fold q universe target st :
  scanUniverse q universe target st = fold_left (scanStep q target) universe st.
Proof. reflexivity. Qed.

(** *** The loop ends within its fuel *)

Lemma flag_insert_true matched name k :
  flag matched k = true -> flag (<[name := true]> matched) k = true.
Proof.
  unfold flag. rewrite lookup_insert. case_decide; [reflexivity | auto].
Qed.

Lemma unmatched_insert_le universe matched name :
  (unmatched universe (<[name := true]> matched) <= unmatched universe matched)%nat.
Proof.
  unfold unmatched. induction universe as [|p u IH]; cbn; [lia|].
  destruct (flag matched (repo.Name p)) eqn:Hf.
  - rewrite (flag_insert_true _ _ _ Hf). cbn. exact IH.
  - cbn. destruct (flag (<[name:=true]> matched) (repo.Name p)); cbn; lia.
Qed.

Lemma unmatched_insert_lt universe matched pkg :
  pkg ∈ universe -> flag matched (repo.Name pkg) = false ->
  (unmatched universe (<[repo.Name pkg := true]> matched) < unmatched universe matched)%nat.
Proof.
  unfold unmatched. induction 1 as [p u|p q u Hin IH]; intros Hf; cbn.
  - rewrite Hf. unfold flag at 1. rewrite lookup_insert_eq. cbn.
    pose proof (unmatched_insert_le u matched (repo.Name p)) as Hle.
    unfold unmatched in Hle. lia.
  - specialize (IH Hf).
    destruct (flag matched (repo.Name q)) eqn:Hq.
    + rewrite (flag_insert_true _ _ _ Hq). cbn. exact IH.
    + cbn. destruct (flag (<[_:=true]> matched) (repo.Name q)); cbn; lia.
Qed.

Lemma scanStep_measure q universe target st pkg :
  pkg ∈ universe ->
  (search_measure universe (scanStep q target st pkg) <= search_measure universe st)%nat.
Proof.
  intros Hin. unfold scanStep, search_measure.
  destruct (flag (matched st) (repo.Name pkg)) eqn:Hf; [lia|].
  destruct (relationMatches _ target); [|lia]. cbn [queue matched].
  pose proof (unmatched_insert_lt universe (matched st) pkg Hin Hf).
  destruct (Recursive q); rewrite ?length_app; cbn [length]; lia.
Qed.

Lemma scan_measure q universe target part : forall st,
  (forall pkg, pkg ∈ part -> pkg ∈ universe) ->
  (search_measure universe (fold_left (scanStep q target) part st)
   <= search_measure universe st)%nat.
Proof.
  induction part as [|pkg part IH]; intros st Hsub; cbn [fold_left]; [lia|].
  etransitivity; [apply IH|apply scanStep_measure].
  - intros p Hp. apply Hsub. now constructor.
  - apply Hsub. constructor.
Qed.

Lemma searchLoop_enough q universe fuel : forall st,
  (search_measure universe st <= fuel)%nat ->
  exists st', searchLoop fuel q universe st = Some st'.
Proof.
  induction fuel as [|fuel IH]; intros st Hm; unfold search_measure in Hm.
  - destruct st as [[|t rest] seen0 matched0]; cbn in *; [eauto | lia].
  - destruct st as [[|t rest] seen0 matched0]; cbn [searchLoop queue seenTargets matched];
      [eauto|].
    cbn [queue matched length] in Hm.
    destruct (flag seen0 t).
    + apply IH. unfold search_measure. cbn. lia.
    + apply IH. rewrite scanUniverse_fold.
      etransitivity; [apply scan_measure; auto|].
      unfold search_measure. cbn. lia.
Qed.

(** The loop of [ReverseDependencies] ends within the fuel it is given. *)
Lemma searchLoop_total q universe :
  exists st, searchLoop (search_fuel q universe) q universe
               {| queue := Patterns q; seenTargets := ∅; matched := ∅ |} = Some st.
Proof.
  apply searchLoop_enough. unfold search_measure, search_fuel, unmatched. cbn.
  pose proof (filter_length_le (fun pkg => negb (flag ∅ (repo.Name pkg))) universe). lia.
Qed.

End search.

(** *** The loop under a runtime that matches literal patterns like Go *)

Section search_literal.
Context `{Runtime}.
Import pkgmgr.

Hypothesis path_Match_literal : forall pattern name,
  is_literal pattern = true -> path_Match pattern name = Some (String.eqb pattern name).

Lemma relationMatches_literal field pattern :
  is_literal pattern = true ->
  relationMatches field pattern = relationMatches (H:=sample_runtime) field pattern.
Proof.
  intros Hl. unfold relationMatches. destruct (String.eqb field ""); [reflexivity|].
  induction (tokensFromRelations field) as [|t ts IH]; [reflexivity|].
  cbn [existsb]. rewrite IH. f_equal.
  rewrite (path_Match_literal _ _ Hl). cbn [path_Match sample_runtime].
  unfold literal_Match. now rewrite Hl.
Qed.

Variable q : ReverseDependencyQuery.
Variable universe : list repo.Package.

Hypothesis universe_literal : forall pkg, pkg ∈ universe ->
  is_literal (repo.Name pkg) = true.
Hypothesis universe_Value : forall pkg, pkg ∈ universe ->
  format.Value (repo.Raw pkg) (Field q)
  = format.Value (H:=sample_runtime) (repo.Raw pkg) (Field q).

Lemma scanStep_agree target st pkg :
  is_literal target = true -> pkg ∈ universe ->
  scanStep q target st pkg = scanStep (H:=sample_runtime) q target st pkg.
Proof.
  intros Hl Hin. unfold scanStep.
  rewrite (universe_Value _ Hin), (relationMatches_literal _ _ Hl). reflexivity.
Qed.

Lemma scan_agree target part : forall st,
  is_literal target = true -> (forall pkg, pkg ∈ part -> pkg ∈ universe) ->
  fold_left (scanStep q target) part st
  = fold_left (scanStep (H:=sample_runtime) q target) part st
  /\ (Forall (fun t => is_literal t = true) (queue st) ->
      Forall (fun t => is_literal t = true)
        (queue (fold_left (scanStep (H:=sample_runtime) q target) part st))).
Proof.
  induction part as [|pkg part IH]; intros st Hl Hsub; cbn [fold_left]; [auto|].
  assert (pkg ∈ universe) as Hin by (apply Hsub; constructor).
  rewrite (scanStep_agree _ _ _ Hl Hin).
  destruct (IH (scanStep (H:=sample_runtime) q target st pkg) Hl) as [E Hq].
  { intros p Hp. apply Hsub. now constructor. }
  split; [exact E|]. intros Hst. apply Hq.
  unfold scanStep. destruct (flag _ _); [exact Hst|].
  destruct (relationMatches _ _); [|exact Hst]. cbn [queue].
  destruct (Recursive q); [|exact Hst].
  apply Forall_app. split; [exact Hst|]. constructor; [|constructor].
  now apply universe_literal.
Qed.

Lemma searchLoop_agree fuel : forall st,
  Forall (fun t => is_literal t = true) (queue st) ->
  searchLoop fuel q universe st = searchLoop (H:=sample_runtime) fuel q universe st.
Proof.
  induction fuel as [|fuel IH]; intros st Hq.
  - destruct st as [[|t rest] seen0 matched0]; reflexivity.
  - destruct st as [[|t rest] seen0 matched0]; [reflexivity|].
    cbn [searchLoop queue seenTargets matched].
    cbn [queue] in Hq. inversion Hq as [|? ? Ht Hrest]; subst.
    destruct (flag seen0 t).
    + apply IH. exact Hrest.
    + rewrite !scanUniverse_fold.
      match goal with
      | |- searchLoop _ _ _ (fold_left _ _ ?s) = _ =>
          destruct (scan_agree t universe s Ht (fun _ Hp => Hp)) as [E Hl]
      end.
      rewrite E. apply IH. apply Hl. exact Hrest.
Qed.

End search_literal.

(** ** Reverse dependencies *)

Section reverse.
Context `{Runtime}.
Import pkgmgr.

Hypothesis path_Match_literal : forall pattern name,
  is_literal pattern = true -> path_Match pattern name = Some (String.eqb pattern name).

Lemma appendMissingInstalled_order_free pkgs status :
  wf_status status ->
  forallb (fun e => fold_unique (pkgdb.Raw e) "Description")
    (pkgdb.Entries (H:=sample_runtime) status) = true ->
  appendMissingInstalled pkgs status
  = appendMissingInstalled (H:=sample_runtime) pkgs status.
Proof.
  intros Hwf Hd. unfold appendMissingInstalled.
  rewrite (Entries_order_free _ Hwf).
  apply fold_left_ext_in. intros acc e He.
  rewrite forallb_forall in Hd.
  rewrite (Value_order_free (pkgdb.Raw e) "Description"); [reflexivity|].
  apply Hd. now apply list_elem_of_In.
Qed.

(** When every package comes from the status database, the names and
    patterns are literal, and no paragraph has two keys that fold to the
    same field name, [ReverseDependencies] returns what it returns under
    the sample runtime. *)
Lemma ReverseDependencies_status_only m q :
  repo.indexes (indexes m) = [] ->
  wf_status (status m) ->
  forallb (fun e => fold_unique (pkgdb.Raw e) "Description")
    (pkgdb.Entries (H:=sample_runtime) (status m)) = true ->
  forallb (fun pkg => is_literal (repo.Name pkg) && fold_unique (repo.Raw pkg) (Field q))
    (universeOf (H:=sample_runtime) m q) = true ->
  forallb is_literal (Patterns q) = true ->
  ReverseDependencies m q = ReverseDependencies (H:=sample_runtime) m q.
Proof.
  intros Hidx Hwf Hd Hu Hp.
  assert (universeOf m q = universeOf (H:=sample_runtime) m q) as HU.
  { unfold universeOf, repo.All. rewrite Hidx. cbn [flat_map filterInstalled List.filter].
    destruct (IncludeAll q); now apply appendMissingInstalled_order_free. }
  unfold ReverseDependencies.
  destruct (ensureIndexesLoaded m); [reflexivity|].
  destruct (length (Patterns q) =? 0)%nat; [reflexivity|].
  rewrite HU. rewrite forallb_forall in Hu.
  rewrite (searchLoop_agree path_Match_literal q (universeOf (H:=sample_runtime) m q)).
  - destruct (searchLoop _ _ _ _) as [st|]; [|reflexivity].
    f_equal. apply sort_Strings_order_free.
    change (map fst ?l) with (fst <$> l).
    apply fmap_Permutation, map_range_perm.
  - intros pkg Hin. apply list_elem_of_In, Hu, andb_true_iff in Hin. tauto.
  - intros pkg Hin. apply list_elem_of_In, Hu, andb_true_iff in Hin.
    apply Value_order_free. tauto.
  - cbn [queue]. apply Forall_forall. intros t Ht.
    rewrite forallb_forall in Hp. apply Hp. now apply list_elem_of_In.
Qed.

(** C8. With [A], [B], [C], [D] installed, [A] depending on [B], [B] on
    [C] and [D] on [A], the packages that depend on [C] are [A], [B], [D]
    when the search is recursive and [B] alone when it is not, whatever
    order the runtime visits maps in. *)
Theorem C8_reverse_dependencies_closure :
  ReverseDependencies examples.manager_abcd (examples.whatdepends true ["C"])
  = Ok ["A"; "B"; "D"]
  /\ ReverseDependencies examples.manager_abcd (examples.whatdepends false ["C"])
     = Ok ["B"].
Proof.
  split.
  - rewrite ReverseDependencies_status_only;
      [ vm_compute; reflexivity | reflexivity | apply status_of_wf
      | vm_compute; reflexivity .. ].
  - rewrite ReverseDependencies_status_only;
      [ vm_compute; reflexivity | reflexivity | apply status_of_wf
      | vm_compute; reflexivity .. ].
Qed.

End reverse.

Section no_patterns.
Context `{Runtime}.
Import pkgmgr.

(** C10. With the indexes loaded, an empty pattern list is an error, and
    no names are returned. *)
Theorem C10_no_patterns_is_an_error m q :
  indexesLoaded m = true -> Patterns q = [] ->
  ReverseDependencies m q
  = Err (errors_New "at least one package name or glob is required").
Proof.
  intros Hl Hp. unfold ReverseDependencies, ensureIndexesLoaded.
  rewrite Hl, Hp. reflexivity.
Qed.

End no_patterns.

(** ** The index guard after an update, and the status path *)

Section claims_runtime.
Context `{Runtime}.

(** C1. A manager built by [New] fails every query that needs the
    indexes with the "indexes not loaded" error, and so does the manager
    after any series of updates none of which succeeded; once an update
    has succeeded, no such query fails with that error, whatever updates
    follow. The flag that [ensureIndexesLoaded] reads is written as the
    specification says ([flag_of_new_manager], [flag_after_update]). *)
Theorem C1_indexes_guard w loaded m schedules :
  pkgmgr.New w loaded = Ok m ->
  queries_fail m
  /\ (snd (after_updates w schedules m) = false ->
      queries_fail (fst (after_updates w schedules m)))
  /\ (snd (after_updates w schedules m) = true ->
      queries_pass (fst (after_updates w schedules m))).
Proof.
  intros Hn. pose proof (New_not_loaded _ _ _ Hn) as Hf.
  pose proof (after_updates_flag w schedules m) as Ha. rewrite Hf in Ha. cbn [orb] in Ha.
  split; [now apply not_loaded_queries_fail|]. split; intros Hs; rewrite Hs in Ha.
  - now apply not_loaded_queries_fail.
  - now apply loaded_queries_pass.
Qed.

Lemma New_has_cfg_and_client w loaded m :
  pkgmgr.New w loaded = Ok m ->
  (exists c, pkgmgr.cfg m = Some c) /\ (exists cl, pkgmgr.client m = Some cl).
Proof.
  unfold pkgmgr.New. intros Hn.
  repeat match type of Hn with
         | match ?x with _ => _ end = _ => destruct x; try discriminate
         end;
    injection Hn as <-; cbn; eauto.
Qed.

Lemma StatusPath_needs_status_or_root c :
  config.Options c !! "status" = None ->
  Forall (fun dest => config.Destination_Name dest <> "root") (config.Destinations c) ->
  config.StatusPath (Some c) = Err (errors_New "status path not configured").
Proof.
  intros Ho Hd. unfold config.StatusPath, config.FindOption. rewrite Ho. cbn [String.eqb negb].
  induction Hd as [|d ds Hne _ IH]; [reflexivity|].
  cbn [List.find]. destruct (String.eqb_spec (config.Destination_Name d) "root");
    [contradiction | exact IH].
Qed.

(** C5, where the code departs from it. [StatusPath] consults
    [options["status"]] and the root destination only: the configuration
    [option status_dir /usr/lib/opkg] has no status path. *)
Theorem C5_status_dir_not_consulted :
  config.StatusPath (Some examples.cfg_status_dir)
  = Err (errors_New "status path not configured").
Proof. apply StatusPath_needs_status_or_root; [reflexivity | constructor]. Qed.

End claims_runtime.

Lemma C1_witness :
  queries_fail (H:=sample_runtime)
    (examples.manager examples.cfg_two_feeds pkgdb.Empty [] false)
  /\ queries_pass (H:=sample_runtime)
       (fst (after_updates (H:=sample_runtime) examples.world [[0; 1]%nat]
               (examples.manager examples.cfg_two_feeds pkgdb.Empty [] false))).
Proof.
  destruct (C1_indexes_guard (H:=sample_runtime) examples.world
              (Ok examples.cfg_two_feeds)
              (examples.manager examples.cfg_two_feeds pkgdb.Empty [] false)
              [[0; 1]%nat] eq_refl) as (Hbefore & _ & Hafter).
  split; [exact Hbefore|]. apply Hafter. vm_compute. reflexivity.
Defined.

(** ** Upgrade candidates for packages that are not installed *)

Section upgradable_claims.
Context `{Runtime}.
Import pkgmgr.

(** C7, where the code departs from it. [ListUpgradable] never asks
    [Installed]: every entry of the status database whose name matches,
    that the indexes have, and whose version is older gets a candidate.
    The entry [foo] 1.0 with status [deinstall ok config-files] is not
    installed, and is listed as upgradable to 2.0. *)
Theorem C7_ListUpgradable_lists_removed_package :
  pkgdb.Installed examples.status_removed "foo" = false
  /\ ListUpgradable
       (examples.manager examples.cfg_empty examples.status_removed
          [examples.index_b] true) []
     = Ok [{| Name := "foo"; Installed := "1.0"; Available := "2.0";
              Description := "" |}]
  /\ (forall m patterns k entry pkg,
        indexesLoaded m = true ->
        pkgdb.byName (status m) !! k = Some entry ->
        matchesAny (pkgdb.Name entry) patterns = true ->
        repo.Find (indexes m) (pkgdb.Name entry) = Some pkg ->
        version.Compare (pkgdb.Version entry) (repo.Version pkg) < 0 ->
        exists candidates,
          ListUpgradable m patterns = Ok candidates
          /\ {| Name := pkgdb.Name entry;
                Installed := pkgdb.Version entry;
                Available := repo.Version pkg;
                Description := firstLine (repo.Description pkg) |} ∈ candidates).
Proof.
  split; [vm_compute; reflexivity|]. split.
  - unfold ListUpgradable, ensureIndexesLoaded. cbn [indexesLoaded examples.manager negb].
    cbn [status].
    rewrite (Entries_order_free examples.status_removed (status_of_wf _)).
    vm_compute. reflexivity.
  - intros m patterns k entry pkg Hl Hk Hm Hf Hc.
    destruct (ListUpgradable_candidates m patterns Hl) as (cs & Hcs & Hin & _).
    exists cs. split; [exact Hcs|]. apply Hin. exists k, entry, pkg. auto.
Qed.

End upgradable_claims.

(** ** The order of versions *)

Section version_claims.
Import version.

(** C3. [Compare] returns -1, 0 or 1, is reflexive and antisymmetric, and
    is transitive. *)
Theorem C3_Compare_total_preorder (a b c : string) :
  (Compare a b = -1 \/ Compare a b = 0 \/ Compare a b = 1)
  /\ Compare a a = 0
  /\ Compare a b = - Compare b a
  /\ (Compare a b <= 0 -> Compare b c <= 0 -> Compare a c <= 0).
Proof.
  destruct Compare_ok as [Hr Ha Ht]. repeat split.
  - apply Hr.
  - pose proof (Ha a a). lia.
  - apply Ha.
  - apply Ht.
Qed.

(** C4, as the code has it. ["1.0~beta"] is before ["1.0"] and ["1"] is
    after ["1~"]. When one side of a part is exhausted after a common
    prefix without NUL byte, a remainder of the other side that begins
    with ['~'] makes that other side the lesser; a remainder that begins
    with another byte that is neither a digit nor NUL, or with digits
    that are not all zeros, makes the exhausted side the lesser. *)
Theorem C4_exhausted_side :
  Compare "1.0~beta" "1.0" < 0 /\ Compare "1" "1~" > 0
  /\ (forall p r, IndexByte p "000" = None -> HasPrefix r "~" = true ->
        comparePart p (p ++ r) = 1 /\ comparePart (p ++ r) p = -1)
  /\ (forall p r, IndexByte p "000" = None -> outweighs_nothing r = true ->
        comparePart p (p ++ r) = -1 /\ comparePart (p ++ r) p = 1).
Proof.
  split; [reflexivity|]. split; [reflexivity|]. split.
  - intros p r Hp Hr. apply (comparePart_prefix p r 1); auto.
  - intros p r Hp Hr. apply (comparePart_prefix p r (-1)); auto.
Qed.

End version_claims.

Lemma C3_witness :
  version.Compare "1.0" "1.1" <= 0 /\ version.Compare "1.1" "2:0" <= 0
  /\ version.Compare "1.0" "2:0" <= 0.
Proof.
  assert (version.Compare "1.0" "1.1" <= 0) as H1 by (vm_compute; discriminate).
  assert (version.Compare "1.1" "2:0" <= 0) as H2 by (vm_compute; discriminate).
  split; [exact H1|]. split; [exact H2|].
  exact (proj2 (proj2 (proj2 (C3_Compare_total_preorder "1.0" "1.1" "2:0"))) H1 H2).
Defined.

Lemma C4_witness :
  version.comparePart "1.0" "1.0~rc1" = 1 /\ version.comparePart "1.0~rc1" "1.0" = -1
  /\ version.comparePart "lib" "libc" = -1 /\ version.comparePart "libc" "lib" = 1
  /\ version.comparePart "" ".1" = -1 /\ version.comparePart ".1" "" = 1.
Proof.
  destruct C4_exhausted_side as (_ & _ & Ht & Ho).
  destruct (Ht "1.0" "~rc1" eq_refl eq_refl) as [H1 H2].
  destruct (Ho "lib" "c" eq_refl eq_refl) as [H3 H4].
  destruct (Ho "" ".1" eq_refl eq_refl) as [H5 H6].
  repeat split; assumption.
Defined.

(** The claim as stated fails: a remainder of zeros does not make the
    exhausted side the lesser, and neither does any remainder after a
    NUL byte in a run of non-digits, where [compareNonDigits] stops. *)
Lemma C4_counterexample :
  "0" <> "" /\ HasPrefix "0" "~" = false
  /\ version.comparePart "" "0" = 0 /\ version.comparePart "0" "" = 0
  /\ version.Compare "1.0" "1.0-0" = 0
  /\ version.comparePart (String "000" "") (String "000" "a") = 0.
Proof. repeat split; try discriminate; vm_compute; reflexivity. Qed.

Lemma C6_witness :
  exists body data cf,
    repo.tryUrls examples.world (Some (downloader.New 0))
      ["http://h/a/Packages.gz"; "http://h/a/Packages"] (Ok "") = Ok body
    /\ repo.uncompress (H:=sample_runtime) examples.feed_a body = Ok data
    /\ format.ParseControl (H:=sample_runtime) data = Ok cf
    /\ snd (repo.fetchFeed (H:=sample_runtime) examples.world examples.feed_a "cache"
              (Some (downloader.New 0)))
       = [FsWriteFile "cache/a.Packages" data 420]
    /\ fs_error examples.world (FsWriteFile "cache/a.Packages" data 420) = None
    /\ writes_via_temp "cache/a.Packages" data
         (snd (repo.fetchFeed (H:=sample_runtime) examples.world examples.feed_a "cache"
                 (Some (downloader.New 0)))) = false.
Proof.
  eapply (C6_cache_written_directly (H:=sample_runtime) examples.world examples.feed_a
            "cache" (Some (downloader.New 0))
            (match fst (repo.fetchFeed (H:=sample_runtime) examples.world examples.feed_a
                          "cache" (Some (downloader.New 0))) with
             | Ok idx => idx
             | Err _ => examples.index_a
             end));
    [discriminate | vm_compute; reflexivity].
Defined.

(** The claim as stated fails: the cache file of a feed is written in
    place, where [DownloadToFile] goes through a temporary file and a
    rename. *)
Lemma C6_counterexample :
  is_Ok (fst (repo.fetchFeed (H:=sample_runtime) examples.world examples.feed_a "cache"
                (Some (downloader.New 0)))) = true
  /\ snd (repo.fetchFeed (H:=sample_runtime) examples.world examples.feed_a "cache"
            (Some (downloader.New 0)))
     = [FsWriteFile "cache/a.Packages" examples.packages_a 420]
  /\ writes_via_temp "cache/a.Packages" examples.packages_a
       (snd (repo.fetchFeed (H:=sample_runtime) examples.world examples.feed_a "cache"
               (Some (downloader.New 0)))) = false
  /\ downloader.DownloadToFile (H:=sample_runtime) examples.world (Some (downloader.New 0))
       "http://h/a/Packages" "cache/a.Packages"
     = (None, [FsMkdirAll "cache" 493;
               FsWriteFile "cache/a.Packages.tmp" examples.packages_a 420;
               FsRename "cache/a.Packages.tmp" "cache/a.Packages"]).
Proof. repeat split; vm_compute; reflexivity. Qed.

Lemma C8_witness :
  pkgmgr.ReverseDependencies (H:=sample_runtime) examples.manager_abcd
    (examples.whatdepends true ["C"]) = Ok ["A"; "B"; "D"]
  /\ pkgmgr.ReverseDependencies (H:=sample_runtime) examples.manager_abcd
       (examples.whatdepends false ["C"]) = Ok ["B"].
Proof.
  apply (C8_reverse_dependencies_closure (H:=sample_runtime)).
  intros pattern name Hl. cbn [path_Match sample_runtime]. unfold literal_Match.
  rewrite Hl. reflexivity.
Defined.

Lemma C9_witness :
  let m := examples.manager examples.cfg_two_feeds pkgdb.Empty [] false in
  let m' := fst (pkgmgr.Update (H:=sample_runtime) examples.world [1; 0]%nat m) in
  map repo.Index_Feed (repo.indexes (pkgmgr.indexes m'))
  = omap (fun i => config.Feeds examples.cfg_two_feeds !! i) [1; 0]%nat
  /\ map repo.Index_Feed (repo.indexes (pkgmgr.indexes m'))
     ≡ₚ config.Feeds examples.cfg_two_feeds.
Proof.
  intros m m'.
  destruct (C9_index_order_is_completion_order (H:=sample_runtime) examples.world
              [1; 0]%nat m m' examples.cfg_two_feeds eq_refl (perm_swap _ _ _))
    as (H1 & H2 & _); [vm_compute; reflexivity|].
  split; assumption.
Defined.

(** The claim as stated fails: when the goroutine of the second feed
    finishes first, the index list is in the order [b], [a], and [Find]
    returns the package of [b], the later-declared feed; another run
    returns the package of [a]. *)
Lemma C9_counterexample :
  let m := examples.manager examples.cfg_two_feeds pkgdb.Empty [] false in
  let after schedule := fst (pkgmgr.Update (H:=sample_runtime) examples.world schedule m) in
  pkgmgr.New (H:=sample_runtime) examples.world (Ok examples.cfg_two_feeds) = Ok m
  /\ [1; 0]%nat ≡ₚ seq 0 (length (config.Feeds examples.cfg_two_feeds))
  /\ snd (pkgmgr.Update (H:=sample_runtime) examples.world [1; 0]%nat m) = None
  /\ map repo.Index_Feed (repo.indexes (pkgmgr.indexes (after [1; 0]%nat)))
     = [examples.feed_b; examples.feed_a]
  /\ config.Feeds examples.cfg_two_feeds = [examples.feed_a; examples.feed_b]
  /\ repo.Version <$> repo.Find (pkgmgr.indexes (after [1; 0]%nat)) "foo" = Some "2.0"
  /\ repo.Version <$> repo.Find (pkgmgr.indexes (after [0; 1]%nat)) "foo" = Some "1.0".
Proof.
  intros m after. split; [reflexivity|]. split; [apply perm_swap|].
  repeat split; vm_compute; reflexivity.
Qed.

Lemma C10_witness :
  pkgmgr.ReverseDependencies (H:=sample_runtime) examples.manager_abcd
    (examples.whatdepends true [])
  = Err (errors_New "at least one package name or glob is required").
Proof.
  apply (C10_no_patterns_is_an_error (H:=sample_runtime)); reflexivity.
Defined.

(** * Further properties *)

(** ** Version operators *)

Section operators.
Context `{Runtime}.
Import version.

Lemma CompareOp_supported_ok a op b :
  In op supported_operators ->
  CompareOp a op b =
  Ok (if String.eqb op "<" || String.eqb op "<<" then Compare a b <? 0
      else if String.eqb op "<=" then Compare a b <=? 0
      else if String.eqb op "=" || String.eqb op "==" then Compare a b =? 0
      else if String.eqb op ">" || String.eqb op ">>" then Compare a b >? 0
      else Compare a b >=? 0).
Proof.
  intros Hin. unfold CompareOp.
  assert (existsb (String.eqb op) supported_operators = true) as ->.
  { apply existsb_exists. exists op. split; [exact Hin | apply String.eqb_refl]. }
  cbn [negb]. cbn in Hin.
  repeat (destruct Hin as [<-|Hin]; [reflexivity|]). contradiction.
Qed.

(** X1. [CompareOp] fails exactly on the operators outside its list of
    eight, and then with the "unsupported operator" error, which shows
    the operator as [%q] prints it; on the eight it always answers. *)
Theorem X1_CompareOp_fails_only_on_unknown_operators a op b :
  (In op supported_operators <-> exists answer, CompareOp a op b = Ok answer)
  /\ (~ In op supported_operators <->
      CompareOp a op b = Err (errors_New ("unsupported operator " ++ strconv_Quote op))).
Proof.
  destruct (existsb (String.eqb op) supported_operators) eqn:E.
  - assert (In op supported_operators) as Hin.
    { apply existsb_exists in E as (x & Hx & Hop). apply String.eqb_eq in Hop. now subst. }
    rewrite (CompareOp_supported_ok a op b Hin). split; split; eauto; try tauto.
    discriminate.
  - assert (~ In op supported_operators) as Hnin.
    { intros Hin. assert (existsb (String.eqb op) supported_operators = true) as E'.
      { apply existsb_exists. exists op. split; [exact Hin | apply String.eqb_refl]. }
      congruence. }
    unfold CompareOp. rewrite E. cbn [negb]. split; split; auto; try tauto.
    intros [answer Ha]. discriminate.
Qed.

(** X2. Of the three answers to [<], [=] and [>] exactly one is true;
    [<<], [==] and [>>] answer like [<], [=] and [>]; [<=] is the
    negation of [>] and [>=] the negation of [<]. *)
Theorem X2_CompareOp_trichotomy a b :
  exists lt eq gt,
    CompareOp a "<" b = Ok lt /\ CompareOp a "=" b = Ok eq /\ CompareOp a ">" b = Ok gt
    /\ CompareOp a "<<" b = Ok lt /\ CompareOp a "==" b = Ok eq
    /\ CompareOp a ">>" b = Ok gt
    /\ CompareOp a "<=" b = Ok (negb gt) /\ CompareOp a ">=" b = Ok (negb lt)
    /\ ((lt = true /\ eq = false /\ gt = false)
        \/ (lt = false /\ eq = true /\ gt = false)
        \/ (lt = false /\ eq = false /\ gt = true)).
Proof.
  exists (Compare a b <? 0), (Compare a b =? 0), (Compare a b >? 0).
  unfold CompareOp. cbn [existsb supported_operators String.eqb Ascii.eqb Bool.eqb
                           orb negb].
  unfold Z.ltb, Z.leb, Z.gtb, Z.geb, Z.eqb.
  destruct (Compare a b) as [|p|p]; cbn; repeat split; auto.
Qed.

(** X3. Swapping the versions swaps the operator: [a < b] answers like
    [b > a], [a <= b] like [b >= a], and [=] is symmetric. *)
Theorem X3_CompareOp_swap a b :
  CompareOp a "<" b = CompareOp b ">" a
  /\ CompareOp a "<=" b = CompareOp b ">=" a
  /\ CompareOp a "=" b = CompareOp b "=" a.
Proof.
  unfold CompareOp. cbn [existsb supported_operators String.eqb Ascii.eqb Bool.eqb
                           orb negb].
  rewrite (cmp_anti _ Compare_ok a b).
  rewrite Z.gtb_ltb, Z.geb_leb.
  repeat split; f_equal.
  - destruct (Z.ltb_spec (Compare a b) 0), (Z.ltb_spec 0 (- Compare a b)); auto; lia.
  - destruct (Z.leb_spec (Compare a b) 0), (Z.leb_spec 0 (- Compare a b)); auto; lia.
  - destruct (Z.eqb_spec (Compare a b) 0), (Z.eqb_spec (- Compare a b) 0); auto; lia.
Qed.

(** X4. [<=] is transitive, and [<] followed by [<=] gives [<]. *)
Theorem X4_CompareOp_transitive a b c :
  (CompareOp a "<=" b = Ok true -> CompareOp b "<=" c = Ok true ->
   CompareOp a "<=" c = Ok true)
  /\ (CompareOp a "<" b = Ok true -> CompareOp b "<=" c = Ok true ->
      CompareOp a "<" c = Ok true).
Proof.
  unfold CompareOp. cbn [existsb supported_operators String.eqb Ascii.eqb Bool.eqb
                           orb negb].
  destruct Compare_ok as [Hr Ha Ht].
  pose proof (Ht a b c) as T1. pose proof (Ht b c a) as T2.
  pose proof (Ha a c) as A1. pose proof (Ha a b) as A2. pose proof (Ha b c) as A3.
  split; intros [= E1] [= E2]; f_equal.
  - apply Z.leb_le in E1, E2. apply Z.leb_le. auto.
  - apply Z.ltb_lt in E1. apply Z.leb_le in E2. apply Z.ltb_lt. lia.
Qed.

End operators.

Lemma X4_witness :
  version.CompareOp (H:=sample_runtime) "1.0~rc1" "<=" "1.0" = Ok true
  /\ version.CompareOp (H:=sample_runtime) "1.0" "<=" "1:0.1" = Ok true
  /\ version.CompareOp (H:=sample_runtime) "1.0~rc1" "<=" "1:0.1" = Ok true.
Proof.
  assert (version.CompareOp (H:=sample_runtime) "1.0~rc1" "<=" "1.0" = Ok true) as H1
    by reflexivity.
  assert (version.CompareOp (H:=sample_runtime) "1.0" "<=" "1:0.1" = Ok true) as H2
    by reflexivity.
  split; [exact H1|]. split; [exact H2|].
  exact (proj1 (X4_CompareOp_transitive (H:=sample_runtime) "1.0~rc1" "1.0" "1:0.1") H1 H2).
Defined.

(** ** Leading zeros and letter case in versions *)

Section zeros_and_case.
Import version.

(** The byte of the side condition is below the letters. *)
Ltac not_a_letter :=
  let Hlo := fresh in intros [Hlo _]; vm_compute in Hlo; now apply Hlo.

Lemma leadingNonDigits_take n a :
  leadingNonDigits a = "" -> leadingNonDigits (string_take n a) = "".
Proof.
  destruct a as [|c a], n as [|n]; cbn; auto.
  destruct (IsDigit (rune c)); cbn; [auto | discriminate].
Qed.

Lemma comparePart_leading_zero a b :
  leadingNonDigits a = "" -> comparePart (String "0" a) b = comparePart a b.
Proof.
  intros Ha.
  rewrite (comparePart_runs (String "0" a) b (S (S (String.length a + String.length b))))
    by (cbn; lia).
  rewrite (comparePart_runs a b (S (S (String.length a + String.length b)))) by lia.
  cbn [runsCompare].
  assert (leadingNonDigits (String "0" a) = "") as Hz by reflexivity.
  assert (afterNonDigits (String "0" a) = String "0" a) as Hz'
    by (unfold afterNonDigits; rewrite Hz; reflexivity).
  assert (afterNonDigits a = a) as Ha'
    by (unfold afterNonDigits; rewrite Ha; reflexivity).
  rewrite Hz, Hz', Ha, Ha'.
  assert (leadingDigits (String "0" a) = String "0" (leadingDigits a)) as Hd by reflexivity.
  assert (afterDigits (String "0" a) = afterDigits a) as Hd'
    by (unfold afterDigits; rewrite Hd; reflexivity).
  rewrite Hd, Hd'.
  assert (forall x y, compareDigits (String "0" x) y = compareDigits x y) as ->
    by reflexivity.
  reflexivity.
Qed.

Lemma splitRevision_zero r :
  splitRevision (String "0" r)
  = (String "0" (fst (splitRevision r)), snd (splitRevision r)).
Proof.
  unfold splitRevision. cbn [LastIndexByte].
  destruct (LastIndexByte r "-") as [i|]; reflexivity.
Qed.

(** X5. A zero written in front of a version without an epoch that is
    empty or begins with a digit does not change how it compares. *)
Theorem X5_Compare_leading_zero a b :
  IndexByte a ":" = None -> leadingNonDigits a = "" ->
  Compare (String "0" a) b = Compare a b.
Proof.
  intros Hc Ha. rewrite !Compare_keys. unfold epochOf, upstreamOf, revisionOf.
  assert (splitEpoch (String "0" a) = (0, String "0" a)) as ->.
  { unfold splitEpoch. cbn [IndexByte]. change (Ascii.eqb "0" ":") with false.
    cbv iota. now rewrite Hc. }
  assert (splitEpoch a = (0, a)) as -> by (unfold splitEpoch; now rewrite Hc).
  cbn [fst snd]. rewrite splitRevision_zero. cbn [fst snd].
  rewrite comparePart_leading_zero; [reflexivity|].
  unfold splitRevision. destruct (LastIndexByte a "-"); cbn [fst];
    auto using leadingNonDigits_take.
Qed.

Lemma rune_lower_upper c :
  65 <= rune c <= 90 -> rune (ascii_of_N (N_of_ascii c + 32)) = rune c + 32.
Proof.
  intros Hc. unfold rune in *. rewrite N_ascii_embedding; lia.
Qed.

Lemma lower_byte_order c : order (rune (lower_byte c)) = order (rune c).
Proof.
  unfold lower_byte.
  destruct (Z.leb_spec 65 (rune c)); cbn [andb]; [|reflexivity].
  destruct (Z.leb_spec (rune c) 90); [|reflexivity].
  rewrite rune_lower_upper by lia. generalize dependent (rune c). intros r H1 H2.
  unfold order, IsDigit, IsLetter, ToLower.
  repeat match goal with
    | |- context [Z.eqb ?a ?b] => destruct (Z.eqb_spec a b); try lia
    | |- context [Z.leb ?a ?b] => destruct (Z.leb_spec a b); try lia
    end; cbn [andb orb]; lia.
Qed.

Lemma lower_byte_digit c : IsDigit (rune (lower_byte c)) = IsDigit (rune c).
Proof.
  unfold lower_byte.
  destruct (Z.leb_spec 65 (rune c)); cbn [andb]; [|reflexivity].
  destruct (Z.leb_spec (rune c) 90); [|reflexivity].
  rewrite rune_lower_upper by lia. unfold IsDigit.
  repeat match goal with
    | |- context [Z.leb ?a ?b] => destruct (Z.leb_spec a b); try lia
    end; reflexivity.
Qed.

Lemma lower_byte_zero c : (rune (lower_byte c) =? 0) = (rune c =? 0).
Proof.
  unfold lower_byte.
  destruct (Z.leb_spec 65 (rune c)); cbn [andb]; [|reflexivity].
  destruct (Z.leb_spec (rune c) 90); [|reflexivity].
  rewrite rune_lower_upper by lia.
  destruct (Z.eqb_spec (rune c + 32) 0), (Z.eqb_spec (rune c) 0); auto; lia.
Qed.

(** Lower-casing leaves a byte that is not an upper-case letter alone. *)
Lemma lower_byte_other c : ~ (65 <= rune c <= 90) -> lower_byte c = c.
Proof.
  intros Hc. unfold lower_byte.
  destruct (Z.leb_spec 65 (rune c)); cbn [andb]; [|reflexivity].
  destruct (Z.leb_spec (rune c) 90); [lia|reflexivity].
Qed.

Lemma lower_byte_eqb c t :
  ~ (65 <= rune t <= 90) -> ~ (97 <= rune t <= 122) ->
  Ascii.eqb (lower_byte c) t = Ascii.eqb c t.
Proof.
  intros H1 H2. unfold lower_byte.
  destruct (Z.leb_spec 65 (rune c)); cbn [andb]; [|reflexivity].
  destruct (Z.leb_spec (rune c) 90); [|reflexivity].
  destruct (Ascii.eqb_spec c t) as [->|Hne]; [lia|].
  destruct (Ascii.eqb_spec (ascii_of_N (N_of_ascii c + 32)) t) as [<-|]; [|reflexivity].
  rewrite rune_lower_upper in H2 by lia. lia.
Qed.

Lemma lower_nonDigits a : forall b,
  compareNonDigits (strings_ToLower a) b = compareNonDigits a b.
Proof.
  induction a as [|c a IH]; intros b; [reflexivity|].
  rewrite (compareNonDigits_turn (strings_ToLower (String c a)) b),
    (compareNonDigits_turn (String c a) b).
  cbn [strings_ToLower nextRune fst snd]. rewrite IH.
  unfold nonDigitsTurn. rewrite lower_byte_order, lower_byte_zero. reflexivity.
Qed.

Lemma lower_leadingNonDigits a :
  leadingNonDigits (strings_ToLower a) = strings_ToLower (leadingNonDigits a).
Proof.
  induction a as [|c a IH]; [reflexivity|]. cbn [strings_ToLower leadingNonDigits].
  rewrite lower_byte_digit. destruct (IsDigit (rune c)); cbn; [reflexivity|].
  now rewrite IH.
Qed.

Lemma lower_leadingDigits a :
  leadingDigits (strings_ToLower a) = leadingDigits a.
Proof.
  induction a as [|c a IH]; [reflexivity|]. cbn [strings_ToLower leadingDigits].
  rewrite lower_byte_digit. destruct (IsDigit (rune c)) eqn:Hd; [|reflexivity].
  rewrite IH. f_equal. apply lower_byte_other.
  unfold IsDigit in Hd. apply andb_true_iff in Hd as [_ Hd]. apply Z.leb_le in Hd. lia.
Qed.

Lemma lower_length a : String.length (strings_ToLower a) = String.length a.
Proof. induction a; cbn; auto. Qed.

Lemma lower_drop n : forall a,
  string_drop n (strings_ToLower a) = strings_ToLower (string_drop n a).
Proof. induction n as [|n IH]; intros [|c a]; cbn; auto. Qed.

Lemma lower_take n : forall a,
  string_take n (strings_ToLower a) = strings_ToLower (string_take n a).
Proof. induction n as [|n IH]; intros [|c a]; cbn; auto. now rewrite IH. Qed.

Lemma lower_runsCompare n : forall a b,
  runsCompare n (strings_ToLower a) b = runsCompare n a b.
Proof.
  induction n as [|n IH]; intros a b; [reflexivity|]. cbn [runsCompare].
  assert (afterNonDigits (strings_ToLower a) = strings_ToLower (afterNonDigits a)) as E1.
  { unfold afterNonDigits. now rewrite lower_leadingNonDigits, lower_length, lower_drop. }
  assert (forall x, afterDigits (strings_ToLower x) = strings_ToLower (afterDigits x)) as E2.
  { intros x. unfold afterDigits. now rewrite lower_leadingDigits, lower_drop. }
  rewrite lower_leadingNonDigits, lower_nonDigits, E1, lower_leadingDigits, E2, IH.
  reflexivity.
Qed.

Lemma lower_comparePart a b : comparePart (strings_ToLower a) b = comparePart a b.
Proof.
  rewrite (comparePart_runs (strings_ToLower a) b (String.length a + String.length b))
    by (rewrite lower_length; lia).
  rewrite (comparePart_runs a b (String.length a + String.length b)) by lia.
  apply lower_runsCompare.
Qed.

Lemma lower_IndexByte t a :
  ~ (65 <= rune t <= 90) -> ~ (97 <= rune t <= 122) ->
  IndexByte (strings_ToLower a) t = IndexByte a t.
Proof.
  intros H1 H2. induction a as [|c a IH]; [reflexivity|].
  cbn [strings_ToLower IndexByte]. now rewrite lower_byte_eqb, IH.
Qed.

Lemma lower_LastIndexByte t a :
  ~ (65 <= rune t <= 90) -> ~ (97 <= rune t <= 122) ->
  LastIndexByte (strings_ToLower a) t = LastIndexByte a t.
Proof.
  intros H1 H2. induction a as [|c a IH]; [reflexivity|].
  cbn [strings_ToLower LastIndexByte]. now rewrite lower_byte_eqb, IH.
Qed.

Lemma lower_digits_value a : forall acc,
  digits_value acc (strings_ToLower a) = digits_value acc a.
Proof.
  induction a as [|c a IH]; intros acc; [reflexivity|].
  cbn [strings_ToLower digits_value]. rewrite lower_byte_digit.
  destruct (IsDigit (rune c)) eqn:Hd; [|reflexivity].
  rewrite IH. rewrite lower_byte_other; [reflexivity|].
  unfold IsDigit in Hd. apply andb_true_iff in Hd as [_ Hd]. apply Z.leb_le in Hd. lia.
Qed.

Lemma lower_Atoi a : Atoi (strings_ToLower a) = Atoi a.
Proof.
  unfold Atoi. destruct a as [|c a]; [reflexivity|]. cbn [strings_ToLower].
  rewrite !lower_byte_eqb by not_a_letter.
  destruct (Ascii.eqb c "-"); [|destruct (Ascii.eqb c "+")].
  - destruct a; cbn [strings_ToLower]; [reflexivity|].
    change (String (lower_byte ?x) (strings_ToLower ?y)) with (strings_ToLower (String x y)).
    now rewrite lower_digits_value.
  - destruct a; cbn [strings_ToLower]; [reflexivity|].
    change (String (lower_byte ?x) (strings_ToLower ?y)) with (strings_ToLower (String x y)).
    now rewrite lower_digits_value.
  - change (String (lower_byte ?x) (strings_ToLower ?y)) with (strings_ToLower (String x y)).
    now rewrite lower_digits_value.
Qed.

Lemma lower_splitEpoch a :
  splitEpoch (strings_ToLower a)
  = (fst (splitEpoch a), strings_ToLower (snd (splitEpoch a))).
Proof.
  unfold splitEpoch. rewrite lower_IndexByte by not_a_letter.
  destruct (IndexByte a ":") as [i|]; [|reflexivity].
  rewrite lower_take, lower_Atoi. destruct (Atoi (string_take i a)); [|reflexivity].
  cbn [fst snd]. now rewrite lower_drop.
Qed.

Lemma lower_splitRevision a :
  splitRevision (strings_ToLower a)
  = (strings_ToLower (fst (splitRevision a)), strings_ToLower (snd (splitRevision a))).
Proof.
  unfold splitRevision. rewrite lower_LastIndexByte by not_a_letter.
  destruct (LastIndexByte a "-") as [i|]; cbn [fst snd]; [|reflexivity].
  now rewrite lower_take, lower_drop.
Qed.

(** X6. The comparison ignores the case of ASCII letters: a version and
    its lower-case form compare alike against every version, and equal to
    each other. *)
Theorem X6_Compare_ignores_letter_case a b :
  Compare (strings_ToLower a) b = Compare a b
  /\ Compare (strings_ToLower a) a = 0.
Proof.
  assert (forall x y, Compare (strings_ToLower x) y = Compare x y) as Hl.
  { intros x y. rewrite !Compare_keys. unfold epochOf, upstreamOf, revisionOf.
    rewrite lower_splitEpoch. cbn [fst snd]. rewrite lower_splitRevision. cbn [fst snd].
    now rewrite !lower_comparePart. }
  split; [apply Hl|]. rewrite Hl.
  pose proof (cmp_anti _ Compare_ok a a). lia.
Qed.

End zeros_and_case.

(** ** Control paragraphs *)

Section control.
Context `{Runtime}.
Import format.

Lemma flush_paragraphs st :
  Forall (fun p => Fields p <> ∅) (file_paragraphs st) ->
  Forall (fun p => Fields p <> ∅) (file_paragraphs (flush st)).
Proof.
  intros Hst. unfold flush. destruct (Nat.eqb_spec (size (current_fields st)) 0) as [E|E];
    [exact Hst|]. cbn. apply Forall_app. split; [exact Hst|].
  constructor; [|constructor]. cbn. intros E0. apply E. rewrite E0. apply map_size_empty.
Qed.

Lemma parseLine_paragraphs st line st' :
  parseLine st line = Ok st' ->
  Forall (fun p => Fields p <> ∅) (file_paragraphs st) ->
  Forall (fun p => Fields p <> ∅) (file_paragraphs st').
Proof.
  unfold parseLine. intros Hp Hst.
  destruct (String.eqb line "").
  - injection Hp as <-. cbn. now apply flush_paragraphs.
  - destruct (HasPrefix line " " || HasPrefix line (String "009" "")).
    + destruct (String.eqb (lastKey st) ""); [discriminate|]. now injection Hp as <-.
    + destruct (IndexByte line ":"); [|discriminate]. now injection Hp as <-.
Qed.

Lemma parseLines_paragraphs lines : forall st st',
  parseLines st lines = Ok st' ->
  Forall (fun p => Fields p <> ∅) (file_paragraphs st) ->
  Forall (fun p => Fields p <> ∅) (file_paragraphs st').
Proof.
  induction lines as [|line lines IH]; intros st st' Hp Hst; cbn in Hp.
  - now injection Hp as <-.
  - destruct (parseLine st line) as [st1|] eqn:E; [|discriminate].
    eapply IH; [exact Hp|]. eapply parseLine_paragraphs; eauto.
Qed.

(** X7. No paragraph that [ParseControl] returns is empty, whatever blank
    lines the input has. *)
Theorem X7_ParseControl_no_empty_paragraph data cf :
  ParseControl data = Ok cf -> Forall (fun p => Fields p <> ∅) (Paragraphs cf).
Proof.
  unfold ParseControl. destruct (ScanLines data) as [lines scan_err].
  destruct (parseLines _ lines) as [st|] eqn:E; [|discriminate].
  destruct scan_err; [discriminate|]. intros [= <-]. cbn.
  apply flush_paragraphs. eapply parseLines_paragraphs; [exact E|]. constructor.
Qed.

Lemma parseLine_malformed st line :
  malformed_line line = true -> exists err, parseLine st line = Err err.
Proof.
  unfold malformed_line, parseLine. intros Hm.
  apply andb_true_iff in Hm as [Hm H3]. apply andb_true_iff in Hm as [H1 H2].
  apply negb_true_iff in H1, H2. rewrite H1, H2.
  destruct (IndexByte line ":"); [discriminate|]. eauto.
Qed.

Lemma parseLines_malformed lines line : forall st,
  line ∈ lines -> malformed_line line = true ->
  exists err, parseLines st lines = Err err.
Proof.
  induction lines as [|l lines IH]; intros st Hin Hm; [inversion Hin|].
  cbn [parseLines]. destruct (parseLine st l) as [st1|err] eqn:E; [|eauto].
  apply elem_of_cons in Hin as [->|Hin].
  - destruct (parseLine_malformed st l Hm) as [err Herr]. congruence.
  - now apply IH.
Qed.

(** X8. [ParseControl] fails when any line it scans is neither empty, nor
    a continuation, nor has a colon; and when the first line is a
    continuation line, with an error that shows the line as [%q] prints
    it. *)
Theorem X8_ParseControl_rejects_malformed data :
  (forall line, line ∈ fst (ScanLines data) -> malformed_line line = true ->
     exists err, ParseControl data = Err err)
  /\ (forall line rest, fst (ScanLines data) = line :: rest ->
        HasPrefix line " " || HasPrefix line (String "009" "") = true ->
        ParseControl data
        = Err (errors_New ("continuation line encountered before key: "
                           ++ strconv_Quote line))).
Proof.
  unfold ParseControl. destruct (ScanLines data) as [lines scan_err]. cbn [fst]. split.
  - intros line Hin Hm.
    destruct (parseLines_malformed lines line
                {| current_fields := ∅; file_paragraphs := []; lastKey := "" |} Hin Hm)
      as [err ->]. eauto.
  - intros line rest -> Hc. cbn [parseLines]. unfold parseLine at 1.
    assert (String.eqb line "" = false) as ->.
    { destruct line; [discriminate|reflexivity]. }
    rewrite Hc. reflexivity.
Qed.

End control.

(** ** Strings: prefixes, trimming *)

Lemma append_empty (s : string) : "" ++ s = s.
Proof. reflexivity. Qed.

Lemma append_String c (s t : string) : String c s ++ t = String c (s ++ t).
Proof. reflexivity. Qed.

Lemma append_length (s t : string) :
  String.length (s ++ t) = (String.length s + String.length t)%nat.
Proof. induction s as [|c s IH]; [reflexivity|]. rewrite append_String. cbn. now rewrite IH. Qed.

Lemma append_assoc (s t u : string) : (s ++ t) ++ u = s ++ (t ++ u).
Proof. induction s as [|c s IH]; [reflexivity|]. rewrite !append_String. now rewrite IH. Qed.

Lemma rev_app_length s1 : forall s2,
  String.length (String.rev_app s1 s2) = (String.length s1 + String.length s2)%nat.
Proof.
  induction s1 as [|c s1 IH]; intros s2; cbn; [reflexivity|].
  rewrite IH. cbn. lia.
Qed.

Lemma rev_length s : String.length (String.rev s) = String.length s.
Proof. unfold String.rev. rewrite rev_app_length. cbn. lia. Qed.

Lemma TrimLeftFunc_length f s :
  (String.length (TrimLeftFunc f s) <= String.length s)%nat.
Proof. induction s as [|c s IH]; cbn; [lia|]. destruct (f c); cbn; lia. Qed.

Lemma trim_runes_length width s : forall skip,
  (String.length (trim_runes width skip s) <= String.length s)%nat.
Proof.
  induction s as [|c s IH]; intros skip; cbn [trim_runes String.length]; [lia|].
  destruct skip as [|k]; [|specialize (IH k); lia].
  destruct (width (String c s)) as [|k]; [cbn; lia|]. specialize (IH k). lia.
Qed.

(** Trimming drops bytes from the start. *)
Lemma trim_runes_drop width s : forall skip,
  exists n, trim_runes width skip s = string_drop n s.
Proof.
  induction s as [|c s IH]; intros skip; cbn [trim_runes].
  - exists 0%nat. reflexivity.
  - destruct skip as [|k].
    + destruct (width (String c s)) as [|k]; [exists 0%nat; reflexivity|].
      destruct (IH k) as [n ->]. exists (S n). reflexivity.
    + destruct (IH k) as [n ->]. exists (S n). reflexivity.
Qed.

Lemma TrimSpace_length s : (String.length (TrimSpace s) <= String.length s)%nat.
Proof.
  unfold TrimSpace. rewrite rev_length.
  etransitivity; [apply trim_runes_length|]. rewrite rev_length.
  apply trim_runes_length.
Qed.

(** An ASCII white space byte at the start is trimmed. *)
Lemma trim_space_first c s :
  Ascii.is_space c = true ->
  trim_runes space_width 0 (String c s) = trim_runes space_width 0 s.
Proof.
  intros Hc. cbn [trim_runes].
  assert (space_width (String c s) = 1%nat) as ->; [|reflexivity].
  destruct s as [|d [|e s]]; cbn [space_width]; now rewrite Hc.
Qed.

Lemma TrimSpace_first c s : Ascii.is_space c = true -> TrimSpace (String c s) = TrimSpace s.
Proof. intros Hc. unfold TrimSpace. now rewrite trim_space_first. Qed.

(** A trimmed string does not begin with white space. *)
Lemma trimmed_first c s :
  TrimSpace (String c s) = String c s -> Ascii.is_space c = false.
Proof.
  intros Ht. destruct (Ascii.is_space c) eqn:Hc; [|reflexivity]. exfalso.
  pose proof (TrimSpace_length s) as Hl.
  rewrite <- (TrimSpace_first c s Hc), Ht in Hl. cbn in Hl. lia.
Qed.

Lemma is_space_blank c :
  Ascii.is_space c = false -> Ascii.eqb " " c = false /\ Ascii.eqb "009" c = false.
Proof.
  intros Hc. split.
  - destruct (Ascii.eqb_spec " " c) as [<-|]; [discriminate|reflexivity].
  - destruct (Ascii.eqb_spec "009" c) as [<-|]; [discriminate|reflexivity].
Qed.

Lemma IndexByte_app k c x :
  IndexByte k c = None -> IndexByte (k ++ String c x) c = Some (String.length k).
Proof.
  induction k as [|d k IH].
  - intros _. rewrite append_empty. cbn. now rewrite Ascii.eqb_refl.
  - rewrite append_String. cbn. destruct (Ascii.eqb d c); [discriminate|].
    destruct (IndexByte k c); [discriminate|]. intros _. now rewrite IH.
Qed.

Lemma string_take_app k x : string_take (String.length k) (k ++ x) = k.
Proof.
  induction k as [|d k IH]; [now destruct x|]. rewrite append_String. cbn. now rewrite IH.
Qed.

Lemma string_drop_app k x : string_drop (String.length k) (k ++ x) = x.
Proof. induction k as [|d k IH]; [reflexivity|]. rewrite append_String. cbn. exact IH. Qed.

Lemma ReplaceAll_LF_none v new : IndexByte v LF = None -> ReplaceAll_LF v new = v.
Proof.
  induction v as [|c v IH]; cbn; [reflexivity|].
  destruct (Ascii.eqb c LF); [discriminate|].
  destruct (IndexByte v LF); [discriminate|]. intros _. now rewrite IH.
Qed.

(** ** The keys of a paragraph *)

Section keys.
Context `{Runtime}.
Import format.

Lemma Keys_order_free p : Keys p = Keys (H:=sample_runtime) p.
Proof.
  unfold Keys. apply sort_Strings_order_free.
  change (map fst ?l) with (fst <$> l). apply fmap_Permutation, map_range_perm.
Qed.

Lemma Keys_elem p key : key ∈ Keys p <-> is_Some (Fields p !! key).
Proof.
  unfold Keys, sort_Strings. rewrite sort_Slice_elem.
  change (map fst ?l) with (fst <$> l). rewrite list_elem_of_fmap. split.
  - intros ([k v] & -> & Hin). rewrite map_range_perm in Hin.
    apply elem_of_map_to_list in Hin. eauto.
  - intros [v Hv]. exists (key, v). split; [reflexivity|].
    rewrite map_range_perm. now apply elem_of_map_to_list.
Qed.

(** X9. [Keys] lists exactly the keys of the paragraph, each once, in
    ascending order, whatever order the map is visited in. *)
Theorem X9_Keys_sorted_keys p :
  (forall key, key ∈ Keys p <-> is_Some (Fields p !! key))
  /\ NoDup (Keys p)
  /\ StronglySorted String.le (Keys p)
  /\ Keys p = Keys (H:=sample_runtime) p.
Proof.
  split; [apply Keys_elem|]. split; [|split; [|apply Keys_order_free]].
  - unfold Keys, sort_Strings. rewrite sort_Slice_perm.
    change (map fst ?l) with (fst <$> l). rewrite map_range_perm.
    apply NoDup_fst_map_to_list.
  - apply (sort_Slice_sorted (fun s : string => s)).
Qed.

(** Parsing one line [key: value] of a one-line paragraph. *)
Lemma parseLine_field st key value :
  key <> "" -> TrimSpace key = key -> IndexByte key ":" = None ->
  TrimSpace value = value ->
  parseLine st (key ++ ": " ++ value)
  = Ok {| current_fields := <[key := value]> (current_fields st);
          file_paragraphs := file_paragraphs st;
          lastKey := key |}.
Proof.
  intros Hk Htk Hck Htv. unfold parseLine.
  assert (String.eqb (key ++ ": " ++ value) "" = false) as ->.
  { destruct key; [contradiction|reflexivity]. }
  assert (HasPrefix (key ++ ": " ++ value) " "
          || HasPrefix (key ++ ": " ++ value) (String "009" "") = false) as ->.
  { destruct key as [|c key]; [contradiction|].
    destruct (is_space_blank c (trimmed_first c key Htk)) as [Hb Ht].
    rewrite append_String. cbn [HasPrefix]. now rewrite Hb, Ht. }
  assert (": " ++ value = String ":" (String " " value)) as -> by reflexivity.
  rewrite (IndexByte_app key ":" _ Hck), string_take_app, Htk.
  assert (string_drop (S (String.length key)) (key ++ String ":" (String " " value))
          = String " " value) as ->.
  { assert (key ++ String ":" (String " " value) = (key ++ ":") ++ String " " value) as ->
      by (now rewrite append_assoc).
    replace (S (String.length key)) with (String.length (key ++ ":"))
      by (rewrite append_length; cbn; lia).
    apply string_drop_app. }
  rewrite (TrimSpace_first " " value eq_refl).
  now rewrite Htv.
Qed.

End keys.

Section round_trip.
Context `{Runtime}.
Import format.

Lemma fold_insert_lookup (f : string -> string) keys : forall (m : gmap string string) i,
  fold_left (fun m k => <[k := f k]> m) keys m !! i
  = if decide (i ∈ keys) then Some (f i) else m !! i.
Proof.
  induction keys as [|k keys IH]; intros m i; cbn [fold_left].
  - case_decide as Hin; [inversion Hin | reflexivity].
  - rewrite IH. repeat case_decide; try reflexivity.
    + exfalso. apply H1. now constructor.
    + apply elem_of_cons in H1 as [->|]; [|contradiction]. apply lookup_insert_eq.
    + rewrite lookup_insert_ne; [reflexivity|]. intros ->. apply H1. constructor.
Qed.

Lemma parseLines_fields p keys : forall st,
  one_line_fields p ->
  (forall key, key ∈ keys -> is_Some (Fields p !! key)) ->
  exists st',
    parseLines st
      (map (fun key => key ++ ": "
                       ++ ReplaceAll_LF (default "" (Fields p !! key)) (String LF " "))
           keys) = Ok st'
    /\ current_fields st'
       = fold_left (fun m k => <[k := default "" (Fields p !! k)]> m) keys
           (current_fields st)
    /\ file_paragraphs st' = file_paragraphs st.
Proof.
  induction keys as [|k keys IH]; intros st Hp Hk; cbn [map parseLines fold_left].
  - eauto.
  - destruct (Hk k ltac:(constructor)) as [v Hv]. rewrite Hv. cbn [default].
    destruct (Hp k v Hv) as (H1 & H2 & H3 & _ & H4 & H5).
    rewrite (ReplaceAll_LF_none v _ H5), (parseLine_field st k v H1 H2 H3 H4).
    edestruct IH as (st' & E & Ef & Ep); [exact Hp | |].
    { intros key Hin. apply Hk. now constructor. }
    exists st'. split; [exact E|]. split; [exact Ef | exact Ep].
Qed.

Lemma parse_formatted_lines p :
  one_line_fields p ->
  exists st,
    parseLines parser_start (pkgmgr.paragraphLines p) = Ok st
    /\ file_paragraphs (flush st) = if decide (Fields p = ∅) then [] else [p].
Proof.
  intros Hp. unfold pkgmgr.paragraphLines.
  destruct (parseLines_fields p (Keys p) parser_start Hp) as (st & E & Ef & Epar).
  { intros key. apply Keys_elem. }
  exists st. split; [exact E|].
  assert (current_fields st = Fields p) as Ec.
  { rewrite Ef. apply map_eq. intros i.
    rewrite (fold_insert_lookup (fun k => default "" (Fields p !! k))).
    cbn [current_fields parser_start]. case_decide as Hin.
    - apply Keys_elem in Hin as [v ->]. reflexivity.
    - rewrite lookup_empty. destruct (Fields p !! i) eqn:Ei; [|reflexivity].
      exfalso. apply Hin, Keys_elem. eauto. }
  unfold flush. rewrite Ec. case_decide as He.
  - rewrite He, map_size_empty. cbn. now rewrite Epar.
  - destruct (Nat.eqb_spec (size (Fields p)) 0) as [E0|E0].
    + apply map_size_empty_inv in E0. contradiction.
    + cbn. rewrite Epar. cbn. destruct p. reflexivity.
Qed.

(** X10. Parsing the lines that [formatParagraph] writes for a paragraph
    whose fields each fit on one line gives that paragraph back, and
    nothing for a paragraph without fields; so does [ParseControl] on the
    text, when the scanner delivers these lines. *)
Theorem X10_parse_formatted_paragraph p :
  one_line_fields p ->
  (exists st,
     parseLines parser_start (pkgmgr.paragraphLines p) = Ok st
     /\ file_paragraphs (flush st) = if decide (Fields p = ∅) then [] else [p])
  /\ (ScanLines (pkgmgr.formatParagraph p) = (pkgmgr.paragraphLines p, None) ->
      ParseControl (pkgmgr.formatParagraph p)
      = Ok {| Paragraphs := if decide (Fields p = ∅) then [] else [p] |}).
Proof.
  intros Hp. destruct (parse_formatted_lines p Hp) as (st & E & Ef).
  split; [eauto|]. intros Hscan. unfold ParseControl. rewrite Hscan.
  fold parser_start. rewrite E, Ef. reflexivity.
Qed.

End round_trip.

Lemma X10_witness :
  format.ParseControl (H:=sample_runtime)
    (pkgmgr.formatParagraph (H:=sample_runtime)
       (examples.paragraph [("Package", "foo"); ("Version", "1.0")]))
  = Ok {| format.Paragraphs :=
            [examples.paragraph [("Package", "foo"); ("Version", "1.0")]] |}.
Proof.
  destruct (X10_parse_formatted_paragraph (H:=sample_runtime)
              (examples.paragraph [("Package", "foo"); ("Version", "1.0")]))
    as [_ Hparse].
  - intros key value Hkv. cbn in Hkv.
    apply lookup_insert_Some in Hkv as [[<- <-]|[_ Hkv]];
      [repeat split; try discriminate; reflexivity|].
    apply lookup_insert_Some in Hkv as [[<- <-]|[_ Hkv]];
      [repeat split; try discriminate; reflexivity|].
    rewrite lookup_empty in Hkv. discriminate.
  - rewrite Hparse; [reflexivity|]. vm_compute. reflexivity.
Defined.

(** ** The status database *)

Section status.
Context `{Runtime}.
Import pkgdb.

Lemma loadParagraphs_entries ps : forall byName,
  (forall k e, byName !! k = Some e -> loaded_entry k e) ->
  forall k e, loadParagraphs byName ps !! k = Some e -> loaded_entry k e.
Proof.
  induction ps as [|p ps IH]; intros byName Hwf; [exact Hwf|].
  cbn [loadParagraphs].
  destruct (String.eqb_spec (format.Value p "Package") "") as [E|E]; [now apply IH|].
  apply IH. intros k e. rewrite lookup_insert. case_decide as Hk.
  - intros [= <-]. subst k. unfold loaded_entry, entryOf. cbn. repeat split; auto.
  - apply Hwf.
Qed.

(** X11. Every entry of a status database that [Load] returns is stored
    under its own name; the name is the [Package] field of the entry's
    paragraph and is not empty, and the version, architecture and status
    are the fields of that paragraph. *)
Theorem X11_Load_entries w path s :
  Load w path = Ok s ->
  forall k e, byName s !! k = Some e -> loaded_entry k e.
Proof.
  unfold Load. intros Hl.
  destruct (os_ReadFile w path); [|discriminate].
  destruct (format.ParseControl _); [|discriminate].
  injection Hl as <-. cbn. apply loadParagraphs_entries.
  intros k e. rewrite lookup_empty. discriminate.
Qed.

Lemma Entries_length (s : Status) : length (Entries s) = size (byName s).
Proof.
  unfold Entries. rewrite sort_Slice_perm.
  rewrite length_map, map_range_perm. apply length_map_to_list.
Qed.

(** X12. [Entries] returns exactly the entries of the database, as many
    as it has keys, in ascending order of name; for a database whose
    entries are stored under their names the list does not depend on the
    order in which the map is visited. *)
Theorem X12_Entries_sorted_entries (s : Status) :
  (forall e, e ∈ Entries s <-> exists k, byName s !! k = Some e)
  /\ length (Entries s) = size (byName s)
  /\ StronglySorted (fun a b => String.le (Name a) (Name b)) (Entries s)
  /\ (wf_status s -> Entries s = Entries (H:=sample_runtime) s).
Proof.
  split; [apply Entries_elem|]. split; [|split].
  - apply Entries_length.
  - apply (sort_Slice_sorted Name).
  - apply Entries_order_free.
Qed.

End status.

Lemma X11_witness :
  loaded_entry (H:=sample_runtime) "foo"
    (pkgdb.entryOf (H:=sample_runtime)
       (examples.paragraph [("Package", "foo"); ("Version", "1.0")]) "foo").
Proof.
  apply (X11_Load_entries (H:=sample_runtime)
           {| http_Get := http_Get examples.world;
              os_ReadFile := fun _ => Ok examples.packages_a;
              fs_error := fs_error examples.world |} "/usr/lib/opkg/status"
           (match pkgdb.Load (H:=sample_runtime)
                    {| http_Get := http_Get examples.world;
                       os_ReadFile := fun _ => Ok examples.packages_a;
                       fs_error := fs_error examples.world |} "/usr/lib/opkg/status" with
            | Ok s => s
            | Err _ => pkgdb.Empty
            end)).
  - vm_compute. reflexivity.
  - vm_compute. reflexivity.
Defined.

(** ** The manager's construction *)

Section construction.
Context `{Runtime}.
Import pkgmgr.

Lemma Load_read_error w path err :
  os_ReadFile w path = Err err ->
  pkgdb.Load w path = Err (Errorf_wrap "read status: " err).
Proof. unfold pkgdb.Load. now intros ->. Qed.

(** X13. When the cache directory can be made and the status file cannot
    be read, [New] goes on with an empty status database if the error is
    "file does not exist", and fails with the read error otherwise; a
    configuration without a status path also gets the empty database. *)
Theorem X13_New_status_fallback w c :
  fs_error w (FsMkdirAll (config.CacheDir (Some c)) config.ModePerm) = None ->
  (forall e, config.StatusPath (Some c) = Err e ->
     exists m, New w (Ok c) = Ok m /\ status m = pkgdb.Empty)
  /\ (forall statusPath err,
        config.StatusPath (Some c) = Ok statusPath ->
        os_ReadFile w statusPath = Err err ->
        if errors_Is_NotExist err
        then exists m, New w (Ok c) = Ok m /\ status m = pkgdb.Empty
        else New w (Ok c) = Err (Errorf_wrap "read status: " err)).
Proof.
  intros Hmk.
  assert (fst (config.EnsureCacheDir w (Some c)) = Ok (config.CacheDir (Some c))) as Hc.
  { unfold config.EnsureCacheDir.
    assert (String.eqb (config.CacheDir (Some c)) "" = false) as ->.
    { unfold config.CacheDir.
      destruct (String.eqb_spec (config.FindOption (Some c) "cache_dir" "") "");
        cbn [negb]; [|now apply String.eqb_neq].
      destruct (String.eqb_spec (config.FindOption (Some c) "tmp_dir" "") "");
        cbn [negb]; [reflexivity | now apply String.eqb_neq]. }
    now rewrite Hmk. }
  split.
  - intros e He. unfold New. rewrite Hc, He. eauto.
  - intros statusPath err Hs Hr. unfold New. rewrite Hc, Hs.
    rewrite (Load_read_error _ _ _ Hr). cbn [errors_Is_NotExist].
    destruct (errors_Is_NotExist err); [eauto | reflexivity].
Qed.

End construction.

Lemma X13_witness :
  exists m, pkgmgr.New (H:=sample_runtime) examples.world (Ok examples.cfg_two_feeds) = Ok m
            /\ pkgmgr.status m = pkgdb.Empty.
Proof.
  destruct (X13_New_status_fallback (H:=sample_runtime) examples.world
              examples.cfg_two_feeds eq_refl) as [Hno _].
  apply (Hno (errors_New "status path not configured")). reflexivity.
Defined.

(** ** Feeds and indexes *)

Section feeds.
Context `{Runtime}.
Import repo.

Lemma indexParagraphs_packages feed ps : forall pkgs,
  (forall k pkg, pkgs !! k = Some pkg -> indexed_package feed k pkg) ->
  forall k pkg, indexParagraphs feed pkgs ps !! k = Some pkg -> indexed_package feed k pkg.
Proof.
  induction ps as [|p ps IH]; intros pkgs Hwf; [exact Hwf|].
  cbn [indexParagraphs].
  destruct (String.eqb_spec (format.Value p "Package") "") as [E|E]; [now apply IH|].
  apply IH. intros k pkg. rewrite lookup_insert. case_decide as Hk.
  - intros [= <-]. subst k. unfold indexed_package, packageOf. cbn. repeat split; auto.
  - apply Hwf.
Qed.

(** X14. Every package of an index that [fetchFeed] returns is stored
    under its own name, which is the [Package] field of its paragraph and
    is not empty; it belongs to the feed that was fetched, and its version
    and file name are the fields of its paragraph. *)
Theorem X14_fetchFeed_packages w feed cacheDir client idx ops :
  fetchFeed w feed cacheDir client = (Ok idx, ops) ->
  forall k pkg, Packages idx !! k = Some pkg -> indexed_package feed k pkg.
Proof.
  unfold fetchFeed. intros Hf.
  repeat match type of Hf with
         | (if ?x then _ else _) = _ => destruct x; try discriminate
         | match ?x with _ => _ end = _ => destruct x; try discriminate
         end;
    injection Hf as <- _; cbn [Packages]; apply indexParagraphs_packages;
    intros k pkg; rewrite lookup_empty; discriminate.
Qed.

(** X15. [fetchFeed] touches the file system only to write the cache
    file. It writes nothing when the cache directory is empty, and
    nothing when the feed has no URI, the download fails, the
    decompression fails or the parse fails; when it fails after a write,
    the write itself failed and the error says so. *)
Theorem X15_fetchFeed_writes w feed cacheDir client :
  let path := filepath_Join cacheDir (config.Feed_Name feed ++ ".Packages") in
  (cacheDir = "" -> snd (fetchFeed w feed cacheDir client) = [])
  /\ (forall err ops, fetchFeed w feed cacheDir client = (Err err, ops) ->
        ops = []
        \/ exists data cause,
             ops = [FsWriteFile path data 420]
             /\ fs_error w (FsWriteFile path data 420) = Some cause
             /\ err = Errorf_wrap ("cache feed " ++ config.Feed_Name feed ++ ": ") cause)
  /\ (forall op, op ∈ snd (fetchFeed w feed cacheDir client) ->
        exists data, op = FsWriteFile path data 420).
Proof.
  intros path. unfold fetchFeed. fold path.
  destruct (String.eqb (config.URI feed) "").
  { cbn. split; [auto|]. split; [intros ? ? [= <- <-]; auto|]. intros op Hop. inversion Hop. }
  destruct (tryUrls _ _ _ _) as [body|].
  2:{ cbn. split; [auto|]. split; [intros ? ? [= <- <-]; auto|]. intros op Hop. inversion Hop. }
  destruct (uncompress feed body) as [data|].
  2:{ cbn. split; [auto|]. split; [intros ? ? [= <- <-]; auto|]. intros op Hop. inversion Hop. }
  destruct (format.ParseControl data) as [cf|].
  2:{ cbn. split; [auto|]. split; [intros ? ? [= <- <-]; auto|]. intros op Hop. inversion Hop. }
  destruct (String.eqb_spec cacheDir "") as [E|E]; cbn [negb].
  { cbn. split; [auto|]. split; [discriminate|]. intros op Hop. inversion Hop. }
  destruct (fs_error w (FsWriteFile path data 420)) as [cause|] eqn:Hw; cbn [snd].
  - split; [contradiction|]. split.
    + intros err ops [= <- <-]. right. exists data, cause. auto.
    + intros op Hop. apply list_elem_of_singleton in Hop. eauto.
  - split; [contradiction|]. split; [discriminate|].
    intros op Hop. apply list_elem_of_singleton in Hop. eauto.
Qed.

Lemma append_cancel_l (s a b : string) : s ++ a = s ++ b -> a = b.
Proof.
  induction s as [|c s IH]; rewrite ?append_empty, ?append_String; [auto|].
  intros [= E]. auto.
Qed.

(** X16. The compressed list is asked first, and when it answers the
    plain list is not requested: whatever would be answered at
    [<base>/Packages] leaves [fetchFeed] unchanged. *)
Theorem X16_fetchFeed_prefers_gz w feed cacheDir cl body other :
  let base := TrimSuffix_slash (config.URI feed) in
  http_Get w (base ++ "/Packages.gz") = Ok body ->
  fetchFeed (answering w (base ++ "/Packages") other) feed cacheDir (Some cl)
  = fetchFeed w feed cacheDir (Some cl).
Proof.
  intros base Hgz. unfold fetchFeed. fold base.
  cbn [tryUrls downloader.GetBytes answering http_Get fs_error]. rewrite Hgz.
  destruct (String.eqb_spec (base ++ "/Packages.gz") (base ++ "/Packages")) as [E|_].
  - apply append_cancel_l in E. discriminate.
  - reflexivity.
Qed.

(** X17. With every schedule that runs each goroutine once, [Update]
    succeeds exactly when the fetch of every configured feed succeeds;
    it then returns one index per feed. *)
Theorem X17_Update_succeeds_iff w schedule c cacheDir cl :
  schedule ≡ₚ seq 0 (length (config.Feeds c)) ->
  ((exists idxs, Update w schedule (Some c) cacheDir (Some cl) = Ok idxs)
   <-> forall feed, feed ∈ config.Feeds c ->
         exists idx, fst (fetchFeed w feed cacheDir (Some cl)) = Ok idx)
  /\ (forall idxs, Update w schedule (Some c) cacheDir (Some cl) = Ok idxs ->
        length idxs = length (config.Feeds c)).
Proof.
  intros Hp. rewrite repo_Update_outcomes. cbv zeta.
  set (outs := omap (fetched w c cacheDir (Some cl)) schedule).
  assert (outs ≡ₚ map (fun feed => fst (fetchFeed w feed cacheDir (Some cl)))
                      (config.Feeds c)) as Houts.
  { unfold outs, fetched.
    assert (forall l : list nat,
              omap (fun i => (fun feed => fst (fetchFeed w feed cacheDir (Some cl)))
                               <$> config.Feeds c !! i) l
              = map (fun feed => fst (fetchFeed w feed cacheDir (Some cl)))
                    (omap (fun i => config.Feeds c !! i) l)) as E.
    { induction l as [|i l IH]; [reflexivity|].
      change (omap ?f (?i :: ?s)) with
        (match f i with Some y => y :: omap f s | None => omap f s end).
      cbv beta. destruct (config.Feeds c !! i); cbn [fmap option_fmap option_map map];
        now rewrite IH. }
    rewrite E. apply fmap_Permutation, lookup_schedule_perm, Hp. }
  split; [split|].
  - intros [idxs Hu] feed Hfeed.
    destruct (firstErr (fold_left complete outs _)) eqn:Hfe; [discriminate|].
    destruct (complete_no_error _ _ Hfe) as (_ & l & Ho & _).
    assert (fst (fetchFeed w feed cacheDir (Some cl)) ∈ outs) as Hin.
    { rewrite Houts. apply list_elem_of_fmap. eauto. }
    rewrite Ho in Hin. apply list_elem_of_fmap in Hin as (idx & -> & _). eauto.
  - intros Hall.
    destruct (firstErr (fold_left complete outs _)) as [e|] eqn:Hfe; [|eauto].
    exfalso.
    assert (exists o, o ∈ outs /\ exists e', o = Err e') as (o & Hin & e' & ->).
    { clear -Hfe. remember {| result_ := []; firstErr := None |} as st eqn:Est.
      assert (firstErr st = None) as Hst by now subst.
      clear Est. revert st Hst Hfe.
      induction outs as [|o outs IH]; intros st Hst Hfe; cbn [fold_left] in Hfe.
      - congruence.
      - destruct o as [idx|e'].
        + destruct (IH (complete st (Ok idx)) Hst Hfe) as (o & Hin & He). exists o. split; [now right|exact He].
        + exists (Err e'). split; [now left|eauto]. }
    rewrite Houts in Hin. apply list_elem_of_fmap in Hin as (feed & E & Hfeed).
    destruct (Hall feed Hfeed) as [idx Hidx]. congruence.
  - intros idxs Hu.
    destruct (firstErr (fold_left complete outs _)) eqn:Hfe; [discriminate|].
    injection Hu as <-.
    destruct (complete_no_error _ _ Hfe) as (_ & l & Ho & ->). cbn [result_ app].
    rewrite <- (length_map Ok l), <- Ho, Houts. apply length_map.
Qed.

(** X18. [All] lists exactly the packages of the indexes, once per index
    that holds them; what [Find] returns is among them, and [Find]
    returns nothing only when no index has the name. *)
Theorem X18_All_and_Find (s : IndexSet) :
  (forall pkg, pkg ∈ All s <->
     exists idx k, idx ∈ indexes s /\ Packages idx !! k = Some pkg)
  /\ (forall name pkg, Find s name = Some pkg -> pkg ∈ All s)
  /\ (forall name, Find s name = None <->
        forall idx, idx ∈ indexes s -> Packages idx !! name = None).
Proof.
  assert (forall pkg, pkg ∈ All s <->
     exists idx k, idx ∈ indexes s /\ Packages idx !! k = Some pkg) as Hall.
  { intros pkg. unfold All. rewrite list_elem_of_In, in_flat_map. split.
    - intros (idx & Hidx & Hin). apply list_elem_of_In in Hidx, Hin.
      apply list_elem_of_fmap in Hin as ([k v] & -> & Hkv).
      rewrite map_range_perm in Hkv. apply elem_of_map_to_list in Hkv. eauto.
    - intros (idx & k & Hidx & Hk). exists idx. rewrite <- !list_elem_of_In.
      split; [exact Hidx|]. apply list_elem_of_fmap. exists (k, pkg).
      split; [reflexivity|]. rewrite map_range_perm. now apply elem_of_map_to_list. }
  split; [exact Hall|]. split.
  - intros name pkg Hf. apply Hall. unfold Find in Hf.
    apply find_in_spec in Hf as (pre & idx & post & E & _ & Hidx).
    exists idx, name. split; [|exact Hidx]. rewrite E.
    apply elem_of_app. right. now left.
  - intros name. unfold Find. clear Hall.
    induction (indexes s) as [|i idxs IH]; cbn [find_in].
    + split; [|reflexivity]. intros _ idx Hidx. inversion Hidx.
    + destruct (Packages i !! name) eqn:Hi.
      * split; [discriminate|]. intros Hno. rewrite Hno in Hi; [discriminate | now left].
      * rewrite IH. split.
        -- intros Hno idx Hidx. apply elem_of_cons in Hidx as [->|Hidx]; auto.
        -- intros Hno idx Hidx. apply Hno. now right.
Qed.

End feeds.

(** ** Downloads *)

Section downloads.
Context `{Runtime}.

Lemma append_neq_self (s t : string) : t <> "" -> s ++ t <> s.
Proof.
  intros Ht E. apply (f_equal String.length) in E. rewrite append_length in E.
  destruct t; [congruence|]. cbn in E. lia.
Qed.

(** X19. [DownloadToFile] never writes the destination itself: the only
    file it writes is [path.tmp], with the bytes of the response, and the
    destination appears only as the target of the rename that follows a
    successful write. A failed request leaves the file system untouched,
    and a call that returns no error made only operations that
    succeeded. *)
Theorem X19_DownloadToFile_discipline w c url path :
  let r := downloader.DownloadToFile w c url path in
  (forall e, downloader.GetBytes w c url = Err e -> r = (Some e, []))
  /\ (forall name data perm, FsWriteFile name data perm ∈ snd r ->
        name = path ++ ".tmp" /\ name <> path
        /\ downloader.GetBytes w c url = Ok data)
  /\ (forall old new, FsRename old new ∈ snd r ->
        old = path ++ ".tmp" /\ new = path
        /\ exists data, FsWriteFile old data 420 ∈ snd r
                        /\ fs_error w (FsWriteFile old data 420) = None)
  /\ (fst r = None -> forall op, op ∈ snd r -> fs_error w op = None).
Proof.
  intros r. subst r. unfold downloader.DownloadToFile.
  destruct (downloader.GetBytes w c url) as [data|e0].
  2:{ cbn. split; [now intros e [= <-]|].
      split; [intros ? ? ? Hin; inversion Hin|].
      split; [intros ? ? Hin; inversion Hin|]. intros _ op Hin. inversion Hin. }
  split; [discriminate|].
  assert (path ++ ".tmp" <> path) as Hneq by (apply append_neq_self; discriminate).
  destruct (fs_error w (FsMkdirAll _ _)) eqn:Hmk; cbn [fst snd].
  { split; [|split; [|discriminate]].
    - intros ? ? ? Hin. apply list_elem_of_singleton in Hin. discriminate.
    - intros ? ? Hin. apply list_elem_of_singleton in Hin. discriminate. }
  destruct (fs_error w (FsWriteFile _ _ _)) eqn:Hwr; cbn [fst snd].
  { split; [|split; [|discriminate]].
    - intros ? ? ? Hin. rewrite !elem_of_cons in Hin.
      destruct Hin as [Hin|[Hin|Hin]]; [discriminate| |inversion Hin].
      injection Hin as -> -> ->. auto.
    - intros ? ? Hin. rewrite !elem_of_cons in Hin.
      destruct Hin as [Hin|[Hin|Hin]]; [discriminate|discriminate|inversion Hin]. }
  assert (forall name d perm,
            FsWriteFile name d perm
              ∈ [FsMkdirAll (filepath_Dir path) 493; FsWriteFile (path ++ ".tmp") data 420;
                 FsRename (path ++ ".tmp") path] ->
            name = path ++ ".tmp" /\ name <> path /\ Ok data = Ok d) as Hwrites.
  { intros ? ? ? Hin. rewrite !elem_of_cons in Hin.
    destruct Hin as [Hin|[Hin|[Hin|Hin]]]; [discriminate| |discriminate|inversion Hin].
    injection Hin as -> -> ->. auto. }
  assert (forall old new,
            FsRename old new
              ∈ [FsMkdirAll (filepath_Dir path) 493; FsWriteFile (path ++ ".tmp") data 420;
                 FsRename (path ++ ".tmp") path] ->
            old = path ++ ".tmp" /\ new = path
            /\ exists d, FsWriteFile old d 420
                           ∈ [FsMkdirAll (filepath_Dir path) 493;
                              FsWriteFile (path ++ ".tmp") data 420;
                              FsRename (path ++ ".tmp") path]
                         /\ fs_error w (FsWriteFile old d 420) = None) as Hrenames.
  { intros ? ? Hin. rewrite !elem_of_cons in Hin.
    destruct Hin as [Hin|[Hin|[Hin|Hin]]]; [discriminate|discriminate| |inversion Hin].
    injection Hin as -> ->. split; [reflexivity|]. split; [reflexivity|].
    exists data. split; [|exact Hwr]. right. now left. }
  destruct (fs_error w (FsRename _ _)) eqn:Hmv; cbn [fst snd].
  - split; [exact Hwrites|]. split; [exact Hrenames|discriminate].
  - split; [exact Hwrites|]. split; [exact Hrenames|].
    intros _ op Hin. rewrite !elem_of_cons in Hin.
    destruct Hin as [->|[->|[->|Hin]]]; [assumption..|inversion Hin].
Qed.

Import pkgmgr.

(** X20. When [Install] succeeds, the package is the one [Find] gives for
    the name and declares a file name; the archive was requested at the
    feed's URI joined to the file name with one slash, and its bytes were
    stored under the base name of the file in the cache directory,
    through a temporary file that was then renamed. *)
Theorem X20_Install_success w m name dest ops :
  Install w m name = (Ok dest, ops) ->
  exists pkg data,
    repo.Find (indexes m) name = Some pkg
    /\ repo.Filename pkg <> ""
    /\ client m <> None
    /\ http_Get w (archive_url pkg) = Ok data
    /\ dest = filepath_Join (cache m) (filepath_Base (repo.Filename pkg))
    /\ ops = [FsMkdirAll (filepath_Dir dest) 493;
              FsWriteFile (dest ++ ".tmp") data 420;
              FsRename (dest ++ ".tmp") dest].
Proof.
  unfold Install. intros Hi.
  destruct (repo.Find (indexes m) name) as [pkg|]; [|discriminate].
  destruct (String.eqb_spec (repo.Filename pkg) "") as [E|E]; [discriminate|].
  fold (archive_url pkg) in Hi.
  set (d := filepath_Join (cache m) (filepath_Base (repo.Filename pkg))) in *.
  unfold downloader.DownloadToFile, downloader.GetBytes in Hi.
  destruct (client m) as [cl|]; [|discriminate].
  destruct (http_Get w (archive_url pkg)) as [data|] eqn:Hget; [|discriminate].
  exists pkg, data.
  destruct (fs_error w (FsMkdirAll _ _)); [discriminate|].
  destruct (fs_error w (FsWriteFile _ _ _)); [discriminate|].
  destruct (fs_error w (FsRename _ _)); [discriminate|].
  injection Hi as <- <-. repeat split; auto.
Qed.

Lemma upgradeLoop_spec w m candidates : forall results ops results' err ops',
  upgradeLoop w m candidates results ops = (results', err, ops') ->
  exists done rest,
    results' = (results ++ done)%list
    /\ candidates = (map Upgrade_ done ++ rest)%list
    /\ Forall (fun r => fst (Install w m (Name (Upgrade_ r))) = Ok (Destination r)) done
    /\ match err with
       | None => rest = []
       | Some e => exists c rest', rest = c :: rest'
                                   /\ fst (Install w m (Name c)) = Err e
       end
    /\ ops' = (ops ++ flat_map (fun c => snd (Install w m (Name c)))
                       (take (S (length done)) candidates))%list.
Proof.
  induction candidates as [|c candidates IH]; intros results ops results' err ops' Hl;
    cbn [upgradeLoop] in Hl.
  - injection Hl as <- <- <-. exists [], []. rewrite !app_nil_r. cbn. auto.
  - destruct (Install w m (Name c)) as [[dest|e] o] eqn:Hc.
    + apply IH in Hl as (done & rest & -> & -> & Hdone & Herr & ->).
      exists ({| Upgrade_ := c; Destination := dest |} :: done), rest.
      rewrite <- !app_assoc. cbn [app map Upgrade_ length]. repeat split; auto.
      * constructor; [cbn; now rewrite Hc | exact Hdone].
      * cbn [take flat_map]. rewrite Hc. cbn [snd]. reflexivity.
    + injection Hl as <- <- <-. exists [], (c :: candidates).
      rewrite app_nil_r. cbn [map app length take flat_map]. rewrite Hc. cbn [fst snd].
      rewrite app_nil_r. repeat split; auto.
      exists c, candidates. now rewrite Hc.
Qed.

(** X21. [Upgrade] installs the candidates of [ListUpgradable] in order
    and stops at the first one whose installation fails: the results are
    those of the candidates before it, with the destinations [Install]
    returned, the error is that of the failed installation, and no later
    candidate is downloaded. When [ListUpgradable] fails, nothing is
    downloaded. *)
Theorem X21_Upgrade_stops_at_first_failure w m patterns :
  (forall err, ListUpgradable m patterns = Err err ->
     Upgrade w m patterns = ([], Some err, []))
  /\ (forall candidates results err ops,
        ListUpgradable m patterns = Ok candidates ->
        Upgrade w m patterns = (results, err, ops) ->
        exists rest,
          candidates = (map Upgrade_ results ++ rest)%list
          /\ Forall (fun r => fst (Install w m (Name (Upgrade_ r))) = Ok (Destination r))
                    results
          /\ match err with
             | None => rest = []
             | Some e => exists c rest', rest = c :: rest'
                                         /\ fst (Install w m (Name c)) = Err e
             end
          /\ ops = flat_map (fun c => snd (Install w m (Name c)))
                     (take (S (length results)) candidates)).
Proof.
  unfold Upgrade. split.
  - now intros err ->.
  - intros candidates results err ops -> Hl.
    apply upgradeLoop_spec in Hl as (done & rest & -> & -> & Hdone & Herr & ->).
    exists rest. cbn [app]. auto.
Qed.

End downloads.

(** ** Relation fields *)

Lemma IndexFunc_None_cons f c s :
  IndexFunc f (String c s) = None <-> f c = false /\ IndexFunc f s = None.
Proof.
  cbn [IndexFunc]. destruct (f c); [split; [discriminate|intros [? _]; discriminate]|].
  destruct (IndexFunc f s); split; try discriminate; auto.
  intros [_ ?]; discriminate.
Qed.

Lemma IndexFunc_None_app f s t :
  IndexFunc f (s ++ t) = None <-> IndexFunc f s = None /\ IndexFunc f t = None.
Proof.
  induction s as [|c s IH]; rewrite ?append_empty, ?append_String.
  - cbn [IndexFunc]. tauto.
  - rewrite !IndexFunc_None_cons, IH. tauto.
Qed.

Lemma IndexFunc_None_rev_app f s : forall t,
  IndexFunc f s = None -> IndexFunc f t = None ->
  IndexFunc f (String.rev_app s t) = None.
Proof.
  induction s as [|c s IH]; intros t Hs Ht; cbn [String.rev_app]; [exact Ht|].
  apply IndexFunc_None_cons in Hs as [Hc Hs].
  apply IH; [exact Hs|]. apply IndexFunc_None_cons. auto.
Qed.

Lemma IndexFunc_None_rev f s : IndexFunc f s = None -> IndexFunc f (String.rev s) = None.
Proof. intros Hs. unfold String.rev. now apply IndexFunc_None_rev_app. Qed.

Lemma IndexFunc_None_TrimLeft f g s :
  IndexFunc f s = None -> IndexFunc f (TrimLeftFunc g s) = None.
Proof.
  induction s as [|c s IH]; [auto|]. intros Hs. cbn [TrimLeftFunc].
  destruct (g c); [|exact Hs]. apply IH. now apply IndexFunc_None_cons in Hs.
Qed.

Lemma IndexFunc_None_drop f n : forall s,
  IndexFunc f s = None -> IndexFunc f (string_drop n s) = None.
Proof.
  induction n as [|n IH]; intros [|c s]; cbn [string_drop]; auto.
  rewrite IndexFunc_None_cons. intros [_ Hs]. auto.
Qed.

Lemma IndexFunc_None_trim f width s :
  IndexFunc f s = None -> IndexFunc f (trim_runes width 0 s) = None.
Proof.
  intros Hs. destruct (trim_runes_drop width s 0) as [n ->].
  now apply IndexFunc_None_drop.
Qed.

Lemma IndexFunc_None_TrimSpace f s :
  IndexFunc f s = None -> IndexFunc f (TrimSpace s) = None.
Proof.
  intros Hs. unfold TrimSpace.
  now apply IndexFunc_None_rev, IndexFunc_None_trim, IndexFunc_None_rev,
    IndexFunc_None_trim.
Qed.

Lemma IndexFunc_None_take f n : forall s,
  IndexFunc f s = None -> IndexFunc f (string_take n s) = None.
Proof.
  induction n as [|n IH]; intros [|c s]; cbn [string_take]; auto.
  rewrite !IndexFunc_None_cons. intros [? ?]. auto.
Qed.

Lemma IndexFunc_Some_take f s : forall idx,
  IndexFunc f s = Some idx -> IndexFunc f (string_take idx s) = None.
Proof.
  induction s as [|c s IH]; intros idx; cbn [IndexFunc]; [discriminate|].
  destruct (f c) eqn:Hc; [intros [= <-]; reflexivity|].
  destruct (IndexFunc f s) as [i|]; [|discriminate]. intros [= <-].
  cbn [string_take]. apply IndexFunc_None_cons. auto.
Qed.

Lemma Split_nonempty s sep : Split s sep <> [].
Proof.
  destruct s as [|c s]; cbn [Split]; [discriminate|].
  destruct (Ascii.eqb c sep); [discriminate|]. destruct (Split s sep); discriminate.
Qed.

(** The pieces of [Split] are free of the separator, and of every byte
    the string is free of. *)
Lemma Split_pieces f s sep : forall piece,
  piece ∈ Split s sep ->
  IndexFunc (fun c => Ascii.eqb c sep) piece = None
  /\ (IndexFunc f s = None -> IndexFunc f piece = None).
Proof.
  induction s as [|c s IH]; intros piece; cbn [Split].
  - intros Hin. apply list_elem_of_singleton in Hin as ->. auto.
  - destruct (Ascii.eqb c sep) eqn:Hc.
    + intros Hin. apply elem_of_cons in Hin as [->|Hin]; [auto|].
      destruct (IH _ Hin) as [H1 H2]. split; [exact H1|].
      intros Hs. apply IndexFunc_None_cons in Hs. tauto.
    + pose proof (Split_nonempty s sep) as Hne.
      destruct (Split s sep) as [|p rest]; [contradiction|].
      intros Hin. apply elem_of_cons in Hin as [->|Hin].
      * destruct (IH p ltac:(now left)) as [H1 H2]. split.
        -- apply IndexFunc_None_cons. auto.
        -- rewrite !IndexFunc_None_cons. intros [? ?]. auto.
      * destruct (IH piece ltac:(now right)) as [H1 H2]. split; [exact H1|].
        rewrite IndexFunc_None_cons. intros [? ?]. auto.
Qed.

Lemma IndexFunc_None_or f g s :
  IndexFunc (fun c => f c || g c) s = None
  <-> IndexFunc f s = None /\ IndexFunc g s = None.
Proof.
  induction s as [|c s IH]; [cbn; tauto|].
  rewrite !IndexFunc_None_cons, IH, orb_false_iff. tauto.
Qed.

Section relations.
Import pkgmgr.

Lemma tokens_bare field token :
  token ∈ tokensFromRelations field ->
  IndexFunc relation_syntax token = None.
Proof.
  unfold tokensFromRelations. rewrite list_elem_of_In, in_flat_map.
  intros (clause & Hclause & Htok). apply list_elem_of_In in Hclause, Htok.
  destruct (String.eqb (TrimSpace clause) ""); [inversion Htok|].
  apply list_elem_of_omap in Htok as (part & Hpart & Hsome).
  destruct (String.eqb (TrimSpace part) ""); [discriminate|].
  destruct (Split_pieces (fun c => Ascii.eqb c ",") _ _ _ Hclause) as [Hcomma _].
  apply (IndexFunc_None_TrimSpace _ clause) in Hcomma.
  destruct (Split_pieces (fun c => Ascii.eqb c ",") _ _ _ Hpart) as [Hbar Hcomma'].
  specialize (Hcomma' Hcomma).
  apply (IndexFunc_None_TrimSpace _ part) in Hbar, Hcomma'.
  unfold relation_syntax.
  destruct (IndexFunc relation_stop (TrimSpace part)) as [idx|] eqn:Hstop;
    injection Hsome as <-.
  - apply IndexFunc_None_or. split; [apply IndexFunc_None_or; split|].
    + now apply IndexFunc_None_TrimSpace, IndexFunc_None_take.
    + now apply IndexFunc_None_TrimSpace, IndexFunc_None_take.
    + now apply IndexFunc_None_TrimSpace, IndexFunc_Some_take.
  - apply IndexFunc_None_or. split; [apply IndexFunc_None_or; split|]; assumption.
Qed.

(** X22. The tokens [tokensFromRelations] extracts from a relation field
    are bare names: none contains a comma, a vertical bar, a blank, a
    parenthesis or a comparison sign, so a version constraint never
    reaches the pattern match of [relationMatches]. *)
Theorem X22_tokens_are_bare_names field token :
  token ∈ tokensFromRelations field ->
  IndexFunc relation_syntax token = None.
Proof. apply tokens_bare. Qed.

End relations.

Lemma X22_witness :
  IndexFunc relation_syntax "libc" = None.
Proof.
  apply (X22_tokens_are_bare_names "busybox (>= 1.30), libc | musl").
  vm_compute. right. left.
Defined.

(** ** The closure that [ReverseDependencies] computes *)

Section closure.
Context `{Runtime}.
Import pkgmgr.
Variable q : ReverseDependencyQuery.
Variable universe : list repo.Package.

Lemma flag_insert (m : gmap string bool) name k :
  flag (<[name := true]> m) k = true <-> k = name \/ flag m k = true.
Proof.
  unfold flag. rewrite lookup_insert. case_decide as E; cbn.
  - subst. tauto.
  - split; [auto|]. intros [->|]; [contradiction|assumption].
Qed.

(** One turn of the inner loop keeps the invariant and only adds. *)
Lemma scanStep_inv target st pkg :
  is_target q universe target -> pkg ∈ universe -> search_inv q universe st ->
  let st' := scanStep q target st pkg in
  search_inv q universe st'
  /\ seenTargets st' = seenTargets st
  /\ (forall k, flag (matched st) k = true -> flag (matched st') k = true)
  /\ (relationMatches (format.Value (repo.Raw pkg) (Field q)) target = true ->
      flag (matched st') (repo.Name pkg) = true).
Proof.
  intros Ht Hin (Hv & Hs & Hq & Hp & Hr). cbv zeta. unfold scanStep.
  destruct (flag (matched st) (repo.Name pkg)) eqn:Hf.
  { repeat split; auto. }
  destruct (relationMatches _ target) eqn:Hm.
  2:{ repeat split; auto. discriminate. }
  cbn [queue seenTargets matched].
  assert (reached (looked_up q) q universe (repo.Name pkg)) as Hreach.
  { destruct Ht as [Ht|[Hrec Ht]].
    - eapply reached_pattern; eauto.
    - eapply reached_again; eauto. }
  split; [|split; [reflexivity|split]].
  - unfold search_inv. cbn [queue seenTargets matched].
    split; [|split; [|split; [|split]]].
    + intros k v. rewrite lookup_insert. case_decide; [now intros [= <-]|apply Hv].
    + intros k Hk. apply flag_insert in Hk as [->|Hk]; auto.
    + intros t [Ht'|Ht']; [|apply Hq; auto].
      destruct (Recursive q) eqn:Hrec; [|apply Hq; auto].
      apply elem_of_app in Ht' as [Ht'|Ht']; [apply Hq; auto|].
      apply list_elem_of_singleton in Ht' as ->. right. auto.
    + intros t Ht'. destruct (Hp t Ht') as [Hq'|Hs']; [|auto].
      left. destruct (Recursive q); [apply elem_of_app|]; auto.
    + intros Hrec k Hk. rewrite Hrec.
      apply flag_insert in Hk as [->|Hk].
      * left. apply elem_of_app. right. now left.
      * destruct (Hr Hrec k Hk) as [Hq'|Hs']; [|auto]. left. apply elem_of_app. auto.
  - intros k Hk. apply flag_insert. auto.
  - intros _. apply flag_insert. auto.
Qed.

Lemma scan_inv target part : forall st,
  is_target q universe target -> (forall pkg, pkg ∈ part -> pkg ∈ universe) ->
  search_inv q universe st ->
  let st' := fold_left (scanStep q target) part st in
  search_inv q universe st'
  /\ seenTargets st' = seenTargets st
  /\ (forall k, flag (matched st) k = true -> flag (matched st') k = true)
  /\ (forall pkg, pkg ∈ part ->
        relationMatches (format.Value (repo.Raw pkg) (Field q)) target = true ->
        flag (matched st') (repo.Name pkg) = true).
Proof.
  induction part as [|pkg part IH]; intros st Ht Hsub Hinv; cbn [fold_left]; cbv zeta.
  - split; [exact Hinv|]. split; [reflexivity|]. split; [auto|].
    intros pkg Hin. inversion Hin.
  - destruct (scanStep_inv target st pkg Ht (Hsub _ ltac:(now left)) Hinv)
      as (Hinv1 & Hseen1 & Hmono1 & Hhit1).
    destruct (IH (scanStep q target st pkg) Ht
                (fun p Hp => Hsub p ltac:(now right)) Hinv1)
      as (Hinv2 & Hseen2 & Hmono2 & Hhit2).
    split; [exact Hinv2|]. split; [congruence|]. split; [auto|].
    intros p Hp Hm. apply elem_of_cons in Hp as [->|Hp]; auto.
Qed.

(** The outer loop keeps the invariant, and ends with an empty queue and
    every scan made. *)
Lemma searchLoop_inv fuel : forall st st',
  searchLoop fuel q universe st = Some st' ->
  search_inv q universe st -> scans_done q universe st ->
  search_inv q universe st' /\ scans_done q universe st' /\ queue st' = [].
Proof.
  induction fuel as [|fuel IH]; intros st st' Hl Hinv Hdone.
  - destruct st as [[|t rest] seen0 matched0]; cbn in Hl; [|discriminate].
    injection Hl as <-. auto.
  - destruct st as [[|t rest] seen0 matched0];
      cbn [searchLoop queue seenTargets matched] in Hl.
    { injection Hl as <-. auto. }
    destruct Hinv as (Hv & Hs & Hq & Hp & Hr). cbn [queue seenTargets matched] in *.
    destruct (flag seen0 t) eqn:Hseen.
    + apply IH in Hl; [exact Hl| |exact Hdone].
      unfold search_inv. cbn [queue seenTargets matched].
      split; [exact Hv|]. split; [exact Hs|].
      split; [|split].
      * intros t' [Ht'|Ht']; apply Hq; [left; now right|auto].
      * intros t' Ht'. destruct (Hp t' Ht') as [Hin|Hin]; [|auto].
        apply elem_of_cons in Hin as [->|Hin]; auto.
      * intros Hrec k Hk. destruct (Hr Hrec k Hk) as [Hin|Hin]; [|auto].
        apply elem_of_cons in Hin as [->|Hin]; auto.
    + rewrite scanUniverse_fold in Hl.
      set (st1 := {| queue := rest; seenTargets := <[t:=true]> seen0;
                     matched := matched0 |}) in *.
      assert (is_target q universe t) as Ht by (apply Hq; left; now left).
      assert (search_inv q universe st1) as Hinv1.
      { unfold search_inv, st1. cbn [queue seenTargets matched].
        split; [exact Hv|]. split; [exact Hs|].
        split; [|split].
        - intros t' [Ht'|Ht'].
          + apply Hq. left. now right.
          + apply flag_insert in Ht' as [->|Ht']; [exact Ht|apply Hq; auto].
        - intros t' Ht'. rewrite flag_insert.
          destruct (Hp t' Ht') as [Hin|Hin]; [|auto].
          apply elem_of_cons in Hin as [->|Hin]; auto.
        - intros Hrec k Hk. rewrite flag_insert.
          destruct (Hr Hrec k Hk) as [Hin|Hin]; [|auto].
          apply elem_of_cons in Hin as [->|Hin]; auto. }
      destruct (scan_inv t universe st1 Ht (fun _ Hp => Hp) Hinv1)
        as (Hinv2 & Hseen2 & Hmono2 & Hhit2).
      apply IH in Hl; [exact Hl|exact Hinv2|].
      intros t' pkg Ht' Hin Hm. rewrite Hseen2 in Ht'. cbn [st1 seenTargets] in Ht'.
      apply flag_insert in Ht' as [->|Ht'].
      * now apply Hhit2.
      * apply Hmono2. cbn [st1 matched]. eapply Hdone; eauto.
Qed.

End closure.

Section closure_result.
Context `{Runtime}.
Import pkgmgr.

Lemma find_head_filter {A} (f : A -> bool) (l : list A) :
  List.find f l = head (List.filter f l).
Proof.
  induction l as [|x l IH]; [reflexivity|]. cbn. destruct (f x); [reflexivity|exact IH].
Qed.

(** Where the lookup does not depend on the order of the map, it finds
    the value of the one key that equals the field name up to case. *)
Lemma Value_field_value p key :
  fold_unique p key = true -> format.Value p key = field_value p key.
Proof.
  intros Hu. rewrite (Value_order_free p key Hu).
  unfold fold_unique in Hu. rewrite !andb_true_iff in Hu. destruct Hu as [_ Hu].
  apply Nat.leb_le in Hu.
  unfold format.Value, field_value. cbn [map_range strings_EqualFold sample_runtime].
  rewrite find_head_filter.
  destruct (List.filter _ _) as [|kv [|kv' l]]; cbn in *; try reflexivity. lia.
Qed.

Lemma reached_ext (value1 value2 : format.Paragraph -> string) q universe :
  (forall pkg, pkg ∈ universe -> value1 (repo.Raw pkg) = value2 (repo.Raw pkg)) ->
  forall name, reached value1 q universe name -> reached value2 q universe name.
Proof.
  intros Hv name. induction 1 as [pkg target Hin Ht Hm|pkg target Hrec Hin Ht IHt Hm].
  - apply (reached_pattern _ _ _ pkg target); auto. now rewrite <- (Hv pkg Hin).
  - apply (reached_again _ _ _ pkg target); auto. now rewrite <- (Hv pkg Hin).
Qed.

(** X23. With the indexes loaded and at least one pattern, and when in
    every paragraph of the universe the lookup of the field of the query
    does not depend on the order of the map (the field name and the keys
    are ASCII, and at most one key equals the field name up to case),
    [ReverseDependencies] returns, in strictly ascending order, exactly
    the names of the packages of the universe that have, in that field, a
    token matching a pattern or, when the query is recursive, a token
    matching a name already found. *)
Theorem X23_ReverseDependencies_closure m (q0 : ReverseDependencyQuery) :
  indexesLoaded m = true -> Patterns q0 <> [] ->
  (forall pkg, pkg ∈ universeOf m q0 ->
     fold_unique (repo.Raw pkg) (Field q0) = true) ->
  exists names,
    ReverseDependencies m q0 = Ok names
    /\ (forall name, name ∈ names <->
          reached (fun p => field_value p (Field q0)) q0 (universeOf m q0) name)
    /\ StronglySorted String.le names /\ NoDup names.
Proof.
  intros Hloaded Hpat Hunique.
  assert (forall name,
            reached (looked_up q0) q0 (universeOf m q0) name
            <-> reached (fun p => field_value p (Field q0)) q0 (universeOf m q0) name)
    as Hsame.
  { intros name. split; apply reached_ext; intros pkg Hin; unfold looked_up;
      [|symmetry]; apply Value_field_value, Hunique, Hin. }
  unfold ReverseDependencies, ensureIndexesLoaded. rewrite Hloaded. cbn [negb].
  destruct (Patterns q0) as [|p0 ps] eqn:Epat; [contradiction|]. cbn [length Nat.eqb].
  rewrite <- Epat.
  destruct (searchLoop_total q0 (universeOf m q0)) as [st Hst]. rewrite Hst.
  eexists. split; [reflexivity|].
  apply searchLoop_inv in Hst as ((Hv & Hs & Hq & Hp & Hr) & Hdone & Hempty).
  2:{ split; [|split; [|split; [|split]]]; cbn [queue seenTargets matched].
      - intros k v. rewrite lookup_empty. discriminate.
      - intros k. unfold flag. rewrite lookup_empty. discriminate.
      - intros t [Ht|Ht]; [left; exact Ht|].
        unfold flag in Ht. rewrite lookup_empty in Ht. discriminate.
      - auto.
      - intros _ k. unfold flag. rewrite lookup_empty. discriminate. }
  2:{ intros t pkg Ht. unfold flag in Ht. cbn in Ht. rewrite lookup_empty in Ht.
      discriminate. }
  assert (forall name, name ∈ map fst (map_range (matched st))
                       <-> flag (matched st) name = true) as Hkeys.
  { intros name. change (map fst ?l) with (fst <$> l). rewrite map_range_perm.
    rewrite list_elem_of_fmap. unfold flag. split.
    - intros ([k v] & -> & Hkv). apply elem_of_map_to_list in Hkv. cbn.
      rewrite Hkv. cbn. eauto.
    - destruct (matched st !! name) as [v|] eqn:E; cbn; [|discriminate].
      intros ->. exists (name, true). split; [reflexivity|].
      now apply elem_of_map_to_list. }
  split; [|split].
  - intros name. rewrite <- Hsame.
    unfold sort_Strings. rewrite sort_Slice_elem, Hkeys. split; [apply Hs|].
    induction 1 as [pkg target Hin Ht Hm|pkg target Hrec Hin Ht IHt Hm].
    + eapply Hdone; eauto.
      destruct (Hp target Ht) as [Hq'|Hq']; [|exact Hq'].
      rewrite Hempty in Hq'. inversion Hq'.
    + eapply Hdone; eauto.
      destruct (Hr Hrec target IHt) as [Hq'|Hq']; [|exact Hq'].
      rewrite Hempty in Hq'. inversion Hq'.
  - apply (sort_Slice_sorted (fun s : string => s)).
  - unfold sort_Strings. rewrite sort_Slice_perm.
    change (map fst ?l) with (fst <$> l). rewrite map_range_perm.
    apply NoDup_fst_map_to_list.
Qed.

End closure_result.

(** ** The configuration *)

Section configuration.
Import config.

Lemma nonempty_length (s : string) : (0 <? String.length s)%nat = negb (is_empty s).
Proof. destruct s; reflexivity. Qed.

Lemma append_nil_r (s : string) : s ++ "" = s.
Proof. induction s as [|c s IH]; [reflexivity|]. now rewrite append_String, IH. Qed.

Lemma append_snoc (s : string) c t : (s ++ String c "") ++ t = s ++ String c t.
Proof. now rewrite append_assoc, append_String, append_empty. Qed.

(** The tokens [fields_loop] adds are not empty and hold no quote; with
    no quote left to read and outside of one, they hold no blank. *)
Lemma fields_loop_tokens line : forall inQuote current result,
  IndexFunc is_quote current = None ->
  Forall (fun tok => tok <> "" /\ IndexFunc is_quote tok = None) result ->
  Forall (fun tok => tok <> "" /\ IndexFunc is_quote tok = None)
         (fields_loop line inQuote current result).
Proof.
  induction line as [|ch line IH]; intros inQuote current result Hc Hr;
    cbn [fields_loop].
  - rewrite nonempty_length. destruct current; cbn [is_empty negb]; [exact Hr|].
    apply Forall_app. split; [exact Hr|]. constructor; [|constructor].
    split; [discriminate|exact Hc].
  - assert (Ascii.eqb ch "034" = false ->
            IndexFunc is_quote (current ++ String ch "") = None) as Hsnoc.
    { intros Hq. apply IndexFunc_None_app. split; [exact Hc|].
      apply IndexFunc_None_cons. auto. }
    destruct (Ascii.eqb ch "034") eqn:Hq; [now apply IH|].
    destruct (Ascii.eqb ch " " || Ascii.eqb ch "009").
    + destruct inQuote; [apply IH; auto|].
      rewrite nonempty_length. destruct current; cbn [is_empty negb]; [now apply IH|].
      apply IH; [reflexivity|]. apply Forall_app. split; [exact Hr|].
      constructor; [|constructor]. split; [discriminate|exact Hc].
    + apply IH; auto.
Qed.

Lemma fields_loop_blanks line : forall current result,
  IndexFunc is_quote line = None ->
  IndexFunc is_blank_or_tab current = None ->
  Forall (fun tok => IndexFunc is_blank_or_tab tok = None) result ->
  Forall (fun tok => IndexFunc is_blank_or_tab tok = None)
         (fields_loop line false current result).
Proof.
  induction line as [|ch line IH]; intros current result Hl Hc Hr; cbn [fields_loop].
  - destruct (0 <? String.length current)%nat; [|exact Hr].
    apply Forall_app. split; [exact Hr|]. constructor; [exact Hc|constructor].
  - apply IndexFunc_None_cons in Hl as [Hq Hl]. unfold is_quote in Hq. rewrite Hq.
    fold (is_blank_or_tab ch). destruct (is_blank_or_tab ch) eqn:Hb.
    + destruct (0 <? String.length current)%nat; [|now apply IH].
      apply IH; [exact Hl|reflexivity|].
      apply Forall_app. split; [exact Hr|]. constructor; [exact Hc|constructor].
    + apply IH; [exact Hl| |exact Hr].
      apply IndexFunc_None_app. split; [exact Hc|]. apply IndexFunc_None_cons. auto.
Qed.

Lemma fields_loop_quoted s : forall rest current result,
  IndexFunc is_quote s = None ->
  fields_loop (s ++ rest) true current result
  = fields_loop rest true (current ++ s) result.
Proof.
  induction s as [|ch s IH]; intros rest current result Hs.
  - now rewrite append_empty, append_nil_r.
  - apply IndexFunc_None_cons in Hs as [Hq Hs]. unfold is_quote in Hq.
    rewrite append_String. cbn [fields_loop]. rewrite Hq.
    destruct (Ascii.eqb ch " " || Ascii.eqb ch "009");
      rewrite IH by exact Hs; now rewrite append_snoc.
Qed.

(** X24. The tokens [fields] splits a line into are never empty and
    never hold a double quote; on a line without quotes they hold no
    blank and no tab; and a text without quotes that is put between two
    quotes is one token, blanks included. *)
Theorem X24_fields_tokens (line : string) :
  (forall tok, tok ∈ fields line -> tok <> "" /\ IndexFunc is_quote tok = None)
  /\ (IndexFunc is_quote line = None ->
      forall tok, tok ∈ fields line -> IndexFunc is_blank_or_tab tok = None)
  /\ (line <> "" -> IndexFunc is_quote line = None ->
      fields (String "034" (line ++ String "034" "")) = [line]).
Proof.
  split; [|split].
  - intros tok Hin. revert tok Hin. apply Forall_forall.
    apply fields_loop_tokens; [reflexivity|constructor].
  - intros Hl tok Hin. revert tok Hin. apply Forall_forall.
    apply fields_loop_blanks; [exact Hl|reflexivity|constructor].
  - intros Hne Hl. unfold fields. cbn [fields_loop Ascii.eqb]. cbn [negb].
    change (Ascii.eqb "034" "034") with true. cbv iota.
    rewrite fields_loop_quoted by exact Hl. rewrite append_empty.
    cbn [fields_loop]. change (Ascii.eqb "034" "034") with true. cbv iota.
    cbn [fields_loop negb]. rewrite nonempty_length.
    destruct line; [contradiction|reflexivity].
Qed.

End configuration.

Section cache_dir.
Context `{Runtime}.
Import config.

(** X25. For a configuration that is not nil the cache directory is
    never empty: it is the option [cache_dir], else the option [tmp_dir],
    else [/tmp], an option set to the empty string counting as unset. So
    [EnsureCacheDir] makes exactly one directory and fails only when
    that fails; its error "cache directory not configured" cannot
    occur. *)
Theorem X25_cache_dir_is_never_empty w (c : Config) :
  CacheDir (Some c) <> ""
  /\ CacheDir (Some c)
     = (if negb (String.eqb (default "" (Options c !! "cache_dir")) "")
        then default "" (Options c !! "cache_dir")
        else if negb (String.eqb (default "" (Options c !! "tmp_dir")) "")
             then default "" (Options c !! "tmp_dir")
             else "/tmp")
  /\ snd (EnsureCacheDir w (Some c)) = [FsMkdirAll (CacheDir (Some c)) 511]
  /\ fst (EnsureCacheDir w (Some c))
     = match fs_error w (FsMkdirAll (CacheDir (Some c)) 511) with
       | Some err => Err (Errorf_wrap "create cache dir: " err)
       | None => Ok (CacheDir (Some c))
       end.
Proof.
  assert (CacheDir (Some c) <> "") as Hne.
  { unfold CacheDir.
    destruct (String.eqb_spec (FindOption (Some c) "cache_dir" "") "");
      cbn [negb]; [|assumption].
    destruct (String.eqb_spec (FindOption (Some c) "tmp_dir" "") "");
      cbn [negb]; [discriminate|assumption]. }
  split; [exact Hne|]. split.
  - unfold CacheDir, FindOption.
    destruct (Options c !! "cache_dir"), (Options c !! "tmp_dir"); reflexivity.
  - unfold EnsureCacheDir. apply String.eqb_neq in Hne. rewrite Hne.
    fold ModePerm. destruct (fs_error w _); auto.
Qed.

End cache_dir.

Section status_paragraphs.
Context `{Runtime}.
Import pkgmgr.

Lemma matchesAny_spec name patterns :
  matchesAny name patterns = true
  <-> patterns = [] \/ exists pattern, pattern ∈ patterns
                                       /\ path_Match pattern name = Some true.
Proof.
  unfold matchesAny. destruct patterns as [|p ps]; [cbn; tauto|].
  cbn [length Nat.eqb]. rewrite existsb_exists. split.
  - intros (x & Hin & Hx). right. exists x. rewrite list_elem_of_In. split; [exact Hin|].
    destruct (path_Match x name) as [[]|]; congruence.
  - intros [?|(x & Hin & Hx)]; [discriminate|]. exists x.
    rewrite <- list_elem_of_In. split; [exact Hin|]. now rewrite Hx.
Qed.

(** X26. [StatusParagraphs] returns, in ascending order of name, the
    entries of the status database whose name matches one of the
    patterns, all of them when there is no pattern; a pattern that
    [path.Match] rejects as malformed matches nothing. [GlobStatus]
    returns their paragraphs in the same order. *)
Theorem X26_StatusParagraphs_selects m patterns :
  (forall e, e ∈ StatusParagraphs m patterns <->
     e ∈ pkgdb.Entries (status m)
     /\ (patterns = [] \/ exists pattern, pattern ∈ patterns
           /\ path_Match pattern (pkgdb.Name e) = Some true))
  /\ StronglySorted (fun a b => String.le (pkgdb.Name a) (pkgdb.Name b))
       (StatusParagraphs m patterns)
  /\ GlobStatus m patterns = map pkgdb.Raw (StatusParagraphs m patterns)
  /\ (length (StatusParagraphs m patterns) <= size (pkgdb.byName (status m)))%nat.
Proof.
  unfold GlobStatus, StatusParagraphs.
  destruct patterns as [|p ps]; cbn [length Nat.eqb].
  - split; [intros e; tauto|]. split; [apply (sort_Slice_sorted pkgdb.Name)|].
    split; [reflexivity|].
    rewrite Entries_length. lia.
  - split; [|split; [apply (sort_Slice_sorted pkgdb.Name)|split; [reflexivity|]]].
    + intros e. rewrite sort_Slice_elem, list_elem_of_In, filter_In, <- list_elem_of_In.
      rewrite matchesAny_spec. tauto.
    + rewrite sort_Slice_perm.
      etransitivity; [apply filter_length_le|].
      rewrite Entries_length. lia.
Qed.

End status_paragraphs.

(** ** Loading a configuration file *)

Section load.
Context `{Runtime}.
Import config.

Lemma interpret_plain c p lineNo tokens :
  head tokens <> Some "include" ->
  match interpret c p lineNo tokens with
  | Include _ _ => False
  | _ => True
  end.
Proof.
  intros Hh. destruct tokens as [|t0 args]; [exact I|]. unfold interpret.
  destruct (String.eqb t0 "option"); [destruct args as [|? [|? ?]]; exact I|].
  destruct (String.eqb t0 "dest"); [destruct args as [|? [|? ?]]; exact I|].
  destruct (_ || _); [destruct args as [|? [|? ?]]; exact I|].
  destruct (String.eqb t0 "arch").
  { destruct args as [|? [|t2 ?]]; try exact I. cbn. destruct (version.Atoi t2); exact I. }
  destruct (String.eqb_spec t0 "include") as [->|_]; [now contradiction Hh|].
  destruct args; [|exact I]. destruct (IndexByte t0 "="); exact I.
Qed.

(** As long as the loop meets no [include] directive, one unit of fuel
    is enough, and [load] is the plain loop. *)
Lemma load_plain fuel fs p st lines scan_err r :
  default false (visited st !! p) = false ->
  open_lines fs p = Ok (lines, scan_err) ->
  scan_plain p lines 0 (loader_cfg st) = Some r ->
  load (S fuel) fs p st
  = Some (match r with
          | Err err => Err err
          | Ok c =>
              match scan_err with
              | Some err => Err (Errorf_wrap ("read config " ++ p ++ ": ") err)
              | None => Ok {| loader_cfg := c; visited := <[p := true]> (visited st) |}
              end
          end).
Proof.
  intros Hv Ho Hplain. cbn [load]. rewrite Hv, Ho.
  match goal with
  | |- context [?f lines 0%nat ?s] => set (scanf := f); set (st1 := s)
  end.
  assert (forall lines lineNo st1 r,
            scan_plain p lines lineNo (loader_cfg st1) = Some r ->
            scanf lines lineNo st1
            = Some (match r with
                    | Err err => Err err
                    | Ok c => Ok (with_cfg st1 c)
                    end)) as Hscan.
  { clear. induction lines as [|line lines IH]; intros lineNo st1 r Hr.
    - injection Hr as <-. destruct st1; reflexivity.
    - unfold scanf. cbv beta iota zeta fix. fold scanf.
      cbn [scan_plain] in Hr. cbv zeta in Hr.
      destruct (skipped (TrimSpace line)); [now apply IH|].
      destruct (interpret _ _ _ _) as [c|err|c pattern]; [|now injection Hr as <-|discriminate].
      rewrite (IH _ (with_cfg st1 c) r) by exact Hr. reflexivity. }
  rewrite (Hscan lines 0%nat st1 r Hplain). subst st1. cbn [loader_cfg with_cfg visited].
  destruct r; [|reflexivity].
  destruct scan_err; reflexivity.
Qed.

(** What an accepted line adds to the feeds, the destinations and the
    includes. *)
Lemma interpret_Updated c p lineNo tokens c' :
  interpret c p lineNo tokens = Updated c' ->
  Feeds c' = (Feeds c ++ match tokens with
                         | kind :: name :: uri :: _ =>
                             if String.eqb kind "src" || String.eqb kind "src/gz"
                                || String.eqb kind "src/sig"
                             then [{| Feed_Name := name; URI := uri; Type_ := kind |}]
                             else []
                         | _ => []
                         end)%list
  /\ Destinations c' = (Destinations c ++ match tokens with
                                          | kind :: name :: path :: _ =>
                                              if String.eqb kind "dest"
                                              then [{| Destination_Name := name;
                                                       Path := path |}]
                                              else []
                                          | _ => []
                                          end)%list
  /\ Includes c' = Includes c.
Proof.
  destruct tokens as [|t0 args]; cbn [interpret].
  { intros [= <-]. now rewrite !app_nil_r. }
  destruct (String.eqb_spec t0 "option") as [->|_].
  { destruct args as [|? [|? ?]]; try discriminate; intros [= <-]; cbn;
      now rewrite !app_nil_r. }
  destruct (String.eqb_spec t0 "dest") as [->|_].
  { destruct args as [|? [|? ?]]; try discriminate; intros [= <-]; cbn;
      now rewrite !app_nil_r. }
  destruct (String.eqb t0 "src" || String.eqb t0 "src/gz" || String.eqb t0 "src/sig")
    eqn:Hsrc.
  { destruct args as [|? [|? ?]]; try discriminate; intros [= <-]; cbn;
      now rewrite !app_nil_r. }
  destruct (String.eqb t0 "arch").
  { destruct args as [|? [|t2 ?]]; try discriminate.
    - intros [= <-]; cbn; now rewrite !app_nil_r.
    - cbn. destruct (version.Atoi t2); [|discriminate].
      intros [= <-]; cbn; now rewrite !app_nil_r. }
  destruct (String.eqb t0 "include"); [destruct args; discriminate|].
  destruct args as [|a1 [|a2 args]].
  - destruct (IndexByte t0 "="); [|discriminate].
    intros [= <-]; cbn; now rewrite !app_nil_r.
  - intros [= <-]; cbn; now rewrite !app_nil_r.
  - intros [= <-]; cbn. now rewrite !app_nil_r.
Qed.

Lemma scan_plain_declared p lines : forall lineNo c c',
  scan_plain p lines lineNo c = Some (Ok c') ->
  Feeds c' = (Feeds c ++ omap declared_feed lines)%list
  /\ Destinations c' = (Destinations c ++ omap declared_dest lines)%list
  /\ Includes c' = Includes c.
Proof.
  induction lines as [|line lines IH]; intros lineNo c c' Hs; cbn [scan_plain] in Hs.
  - injection Hs as <-. cbn. now rewrite !app_nil_r.
  - cbv zeta in Hs.
    change (omap ?f (line :: lines)) with
      (match f line with Some y => y :: omap f lines | None => omap f lines end).
    unfold declared_feed at 1, declared_dest at 1. cbv zeta.
    destruct (skipped (TrimSpace line)); [now apply IH in Hs|].
    destruct (interpret _ _ _ _) as [c1|err|c1 pattern] eqn:Hi; try discriminate.
    apply IH in Hs as (-> & -> & ->).
    apply interpret_Updated in Hi as (-> & -> & ->).
    rewrite <- !app_assoc.
    destruct (fields (TrimSpace line)) as [|kind [|name [|uri rest]]];
      cbn [app]; auto.
    destruct (_ || _), (String.eqb kind "dest"); cbn [app]; auto.
Qed.

Lemma scan_plain_total p lines : forall lineNo c,
  Forall plain_line lines -> exists r, scan_plain p lines lineNo c = Some r.
Proof.
  induction lines as [|line lines IH]; intros lineNo c Hp; cbn [scan_plain]; [eauto|].
  inversion Hp as [|? ? Hline Hrest]; subst. cbv zeta.
  destruct (skipped (TrimSpace line)); [now apply IH|].
  pose proof (interpret_plain c p (S lineNo) _ Hline) as Hi.
  destruct (interpret _ _ _ _); [now apply IH|eauto|contradiction].
Qed.

Lemma scan_plain_accepted p lines : forall lineNo c,
  Forall (fun line => skipped (TrimSpace line) = true
                      \/ accepted (fields (TrimSpace line))) lines ->
  exists c', scan_plain p lines lineNo c = Some (Ok c').
Proof.
  induction lines as [|line lines IH]; intros lineNo c Hp; cbn [scan_plain]; [eauto|].
  inversion Hp as [|? ? Hline Hrest]; subst. cbv zeta.
  destruct (skipped (TrimSpace line)); [now apply IH|].
  destruct Hline as [|Hacc]; [discriminate|].
  destruct (Hacc c p (S lineNo)) as [c1 ->]. now apply IH.
Qed.

(** X27. A configuration file without [include] directives is loaded in
    one call of [load]. When every line is blank, a comment or an
    accepted directive the load succeeds, and whenever it succeeds, the
    feeds and the destinations of the configuration are the ones the
    lines declare, in the order of the lines. *)
Theorem X27_Load_keeps_declaration_order fuel fs path lines :
  open_lines fs path = Ok (lines, None) ->
  Forall plain_line lines ->
  exists r,
    Load (S fuel) fs path = Some r
    /\ (Forall (fun line => skipped (TrimSpace line) = true
                            \/ accepted (fields (TrimSpace line))) lines ->
        exists c, r = Ok c)
    /\ (forall c, r = Ok c ->
          Feeds c = omap declared_feed lines
          /\ Destinations c = omap declared_dest lines
          /\ Includes c = []).
Proof.
  intros Ho Hp. unfold Load.
  destruct (scan_plain_total path lines 0 empty_Config Hp) as [r Hr].
  rewrite (load_plain fuel fs path _ lines None r); [|reflexivity|exact Ho|exact Hr].
  destruct r as [c|err].
  - eexists. split; [reflexivity|]. split; [eauto|].
    intros c0 [= <-]. apply scan_plain_declared in Hr. exact Hr.
  - eexists. split; [reflexivity|]. split; [|discriminate].
    intros Hacc. destruct (scan_plain_accepted path lines 0 empty_Config Hacc) as [c' Hc'].
    congruence.
Qed.

Lemma scan_plain_rejected p pre bad post msg : forall lineNo c,
  Forall (fun line => skipped (TrimSpace line) = true
                      \/ accepted (fields (TrimSpace line))) pre ->
  skipped (TrimSpace bad) = false ->
  rejected (fields (TrimSpace bad)) msg ->
  scan_plain p (pre ++ bad :: post) lineNo c
  = Some (Err (at_line p (S (lineNo + length pre)) msg)).
Proof.
  induction pre as [|line pre IH]; intros lineNo c Hpre Hs Hrej; cbn [app scan_plain].
  - cbv zeta. rewrite Hs, (Hrej c p (S lineNo)). cbn [length]. now rewrite Nat.add_0_r.
  - inversion Hpre as [|? ? Hline Hrest]; subst. cbv zeta. cbn [length].
    rewrite Nat.add_succ_r, <- Nat.add_succ_l.
    destruct (skipped (TrimSpace line)); [now apply IH|].
    destruct Hline as [|Hacc]; [discriminate|].
    destruct (Hacc c p (S lineNo)) as [c1 ->]. now apply IH.
Qed.

(** X28. When the lines before a rejected directive are blank lines,
    comments and accepted directives without [include], [Load] fails with
    the message of the rejected directive, prefixed with the path of the
    file and the number of the line, counted from one and with the blank
    lines and the comments; the lines after it are not looked at. *)
Theorem X28_Load_error_names_the_line fuel fs path pre bad post scan_err msg :
  open_lines fs path = Ok ((pre ++ bad :: post)%list, scan_err) ->
  Forall (fun line => skipped (TrimSpace line) = true
                      \/ accepted (fields (TrimSpace line))) pre ->
  skipped (TrimSpace bad) = false ->
  rejected (fields (TrimSpace bad)) msg ->
  Load (S fuel) fs path
  = Some (Err (errors_New (path ++ ":" ++ pretty (N.of_nat (S (length pre)))
                           ++ ": " ++ msg))).
Proof.
  intros Ho Hpre Hs Hrej. unfold Load.
  rewrite (load_plain fuel fs path _ (pre ++ bad :: post)%list scan_err
             (Err (at_line path (S (length pre)) msg))); [reflexivity|reflexivity|exact Ho|].
  apply (scan_plain_rejected path pre bad post msg 0 empty_Config); assumption.
Qed.

End load.

(** ** The properties on closed inputs *)

Lemma X5_witness :
  version.Compare "01.2" "1.10" = version.Compare "1.2" "1.10".
Proof.
  apply (X5_Compare_leading_zero "1.2" "1.10"); reflexivity.
Defined.

Lemma X7_witness :
  Forall (fun p => format.Fields p <> ∅)
    (format.Paragraphs
       (match format.ParseControl (H:=sample_runtime) examples.packages_a with
        | Ok cf => cf
        | Err _ => {| format.Paragraphs := [] |}
        end)).
Proof.
  apply (X7_ParseControl_no_empty_paragraph (H:=sample_runtime) examples.packages_a).
  vm_compute. reflexivity.
Defined.

Lemma X14_witness :
  indexed_package (H:=sample_runtime) examples.feed_a "foo"
    (examples.package examples.feed_a "foo" "1.0").
Proof.
  apply (X14_fetchFeed_packages (H:=sample_runtime) examples.world examples.feed_a ""
           (Some (downloader.New 0)) examples.index_a []).
  - vm_compute. reflexivity.
  - vm_compute. reflexivity.
Defined.

Lemma X16_witness :
  repo.fetchFeed (H:=sample_runtime)
    (answering world_gz "http://h/a/Packages" (Err os_ErrNotExist))
    examples.feed_a "cache" (Some (downloader.New 0))
  = repo.fetchFeed (H:=sample_runtime) world_gz examples.feed_a "cache"
      (Some (downloader.New 0)).
Proof.
  apply (X16_fetchFeed_prefers_gz (H:=sample_runtime) world_gz examples.feed_a "cache"
           (downloader.New 0) examples.packages_a (Err os_ErrNotExist)).
  vm_compute. reflexivity.
Defined.

Lemma X17_witness :
  exists idxs,
    repo.Update (H:=sample_runtime) examples.world [1; 0]%nat
      (Some examples.cfg_two_feeds) "cache" (Some (downloader.New 0)) = Ok idxs.
Proof.
  destruct (X17_Update_succeeds_iff (H:=sample_runtime) examples.world [1; 0]%nat
              examples.cfg_two_feeds "cache" (downloader.New 0) (perm_swap _ _ _))
    as [Hiff _].
  apply Hiff. intros feed Hfeed.
  apply elem_of_cons in Hfeed as [->|Hfeed]; [eexists; vm_compute; reflexivity|].
  apply list_elem_of_singleton in Hfeed as ->. eexists. vm_compute. reflexivity.
Defined.

Lemma X20_witness :
  exists pkg data,
    repo.Find (pkgmgr.indexes manager_archive) "foo" = Some pkg
    /\ repo.Filename pkg <> ""
    /\ pkgmgr.client manager_archive <> None
    /\ http_Get world_archive (archive_url pkg) = Ok data
    /\ "cache/foo_1.0.ipk"
       = filepath_Join (Runtime:=sample_runtime) (pkgmgr.cache manager_archive)
           (filepath_Base (Runtime:=sample_runtime) (repo.Filename pkg))
    /\ [FsMkdirAll "cache" 493; FsWriteFile "cache/foo_1.0.ipk.tmp" "archive" 420;
        FsRename "cache/foo_1.0.ipk.tmp" "cache/foo_1.0.ipk"]
       = [FsMkdirAll (filepath_Dir (Runtime:=sample_runtime) "cache/foo_1.0.ipk") 493;
          FsWriteFile ("cache/foo_1.0.ipk" ++ ".tmp") data 420;
          FsRename ("cache/foo_1.0.ipk" ++ ".tmp") "cache/foo_1.0.ipk"].
Proof.
  apply (X20_Install_success (H:=sample_runtime) world_archive manager_archive "foo").
  vm_compute. reflexivity.
Defined.

Lemma X23_witness :
  exists names,
    pkgmgr.ReverseDependencies (H:=sample_runtime) examples.manager_abcd
      (examples.whatdepends true ["C"]) = Ok names
    /\ (forall name, name ∈ names <->
          reached (H:=sample_runtime)
            (fun p => field_value p (pkgmgr.Field (examples.whatdepends true ["C"])))
            (examples.whatdepends true ["C"])
            (pkgmgr.universeOf (H:=sample_runtime) examples.manager_abcd
               (examples.whatdepends true ["C"])) name)
    /\ StronglySorted String.le names /\ NoDup names.
Proof.
  apply (X23_ReverseDependencies_closure (H:=sample_runtime) examples.manager_abcd
           (examples.whatdepends true ["C"])).
  - reflexivity.
  - discriminate.
  - intros pkg Hin. apply list_elem_of_In in Hin. revert pkg Hin.
    apply forallb_forall. vm_compute. reflexivity.
Defined.

Lemma X27_witness :
  exists r,
    config.Load (H:=sample_runtime) 1 (files_of conf_lines) "/etc/opkg.conf" = Some r
    /\ (Forall (fun line => config.skipped (TrimSpace line) = true
                            \/ accepted (H:=sample_runtime)
                                 (config.fields (TrimSpace line))) conf_lines ->
        exists c, r = Ok c)
    /\ (forall c, r = Ok c ->
          config.Feeds c = omap declared_feed conf_lines
          /\ config.Destinations c = omap declared_dest conf_lines
          /\ config.Includes c = []).
Proof.
  apply (X27_Load_keeps_declaration_order (H:=sample_runtime) 0 (files_of conf_lines)
           "/etc/opkg.conf" conf_lines).
  - reflexivity.
  - repeat constructor; unfold plain_line; vm_compute; discriminate.
Defined.

Lemma X28_witness :
  config.Load (H:=sample_runtime) 1
    (files_of ["src a http://h/a"; ""; "option verbose"; "include x"])
    "/etc/opkg.conf"
  = Some (Err (errors_New
                 ("/etc/opkg.conf" ++ ":" ++ pretty (N.of_nat 3) ++ ": "
                  ++ "option expects key and value"))).
Proof.
  apply (X28_Load_error_names_the_line (H:=sample_runtime) 0
           (files_of ["src a http://h/a"; ""; "option verbose"; "include x"])
           "/etc/opkg.conf" ["src a http://h/a"; ""] "option verbose" ["include x"]
           None "option expects key and value").
  - reflexivity.
  - constructor; [right; intros c p lineNo; eexists; reflexivity|].
    constructor; [left; reflexivity|constructor].
  - reflexivity.
  - intros c p lineNo. reflexivity.
Defined.

(** ** Dependencies and package information *)

Section dependencies.
Context `{Runtime}.
Import pkgmgr.

Lemma dependenciesFromParagraph_lookup p field tokens :
  dependenciesFromParagraph p !! field = Some tokens ->
  field ∈ relation_fields
  /\ format.Value p field <> ""
  /\ tokens = tokensFromRelations (format.Value p field).
Proof.
  unfold dependenciesFromParagraph.
  assert (forall fields (acc : gmap string (list string)),
            (forall f ts, acc !! f = Some ts ->
               f ∈ relation_fields /\ format.Value p f <> ""
               /\ ts = tokensFromRelations (format.Value p f)) ->
            (forall f, f ∈ fields -> f ∈ relation_fields) ->
            forall f ts,
              fold_left (fun result field =>
                 let value := format.Value p field in
                 if negb (String.eqb value "")
                 then <[field := tokensFromRelations value]> result
                 else result) fields acc !! f = Some ts ->
              f ∈ relation_fields /\ format.Value p f <> ""
              /\ ts = tokensFromRelations (format.Value p f)) as Hfold.
  { induction fields as [|x fields IH]; intros acc Hacc Hsub f ts; cbn [fold_left];
      [apply Hacc|].
    apply IH; [|intros g Hg; apply Hsub; now right].
    cbv zeta. intros g ts'.
    destruct (String.eqb_spec (format.Value p x) "") as [E|E]; cbn [negb]; [apply Hacc|].
    rewrite lookup_insert. case_decide as Hx; [|apply Hacc].
    subst g. intros [= <-]. split; [apply Hsub; now left|auto]. }
  apply Hfold; [|auto]. intros f ts. rewrite lookup_empty. discriminate.
Qed.

(** X29. What [Dependencies] returns has entries for relation fields
    only, and only for those that the paragraph of the package has a
    value for; the package of the indexes is preferred to the entry of
    the status database; and every name listed is a bare name, free of
    separators and version constraints. *)
Theorem X29_Dependencies_bare_names m name deps :
  Dependencies m name = Ok deps ->
  exists p,
    (match repo.Find (indexes m) name with
     | Some pkg => p = repo.Raw pkg
     | None => exists entry, pkgdb.byName (status m) !! name = Some entry
                             /\ p = pkgdb.Raw entry
     end)
    /\ forall field tokens, deps !! field = Some tokens ->
         field ∈ relation_fields
         /\ format.Value p field <> ""
         /\ Forall (fun token => IndexFunc relation_syntax token = None) tokens.
Proof.
  unfold Dependencies. destruct (ensureIndexesLoaded m); [discriminate|].
  assert (forall p field tokens, dependenciesFromParagraph p !! field = Some tokens ->
            field ∈ relation_fields /\ format.Value p field <> ""
            /\ Forall (fun token => IndexFunc relation_syntax token = None) tokens) as Hp.
  { intros p field tokens Hl.
    apply dependenciesFromParagraph_lookup in Hl as (Hf & Hv & ->).
    split; [exact Hf|]. split; [exact Hv|].
    apply Forall_forall. intros token. apply tokens_bare. }
  destruct (repo.Find (indexes m) name) as [pkg|].
  - intros [= <-]. exists (repo.Raw pkg). split; [reflexivity|apply Hp].
  - unfold pkgdb.Lookup. destruct (pkgdb.byName (status m) !! name) as [entry|];
      [|discriminate].
    intros [= <-]. exists (pkgdb.Raw entry). split; [eauto|apply Hp].
Qed.

Lemma flag_seen_fold (pkgs : list repo.Package) (f : repo.Package -> bool) :
  forall (paragraphs : list format.Paragraph) (seen : gmap string bool),
    fold_left (fun '(paragraphs, seen) pkg =>
                 if negb (f pkg) then (paragraphs, seen)
                 else ((paragraphs ++ [repo.Raw pkg])%list,
                       <[repo.Name pkg := true]> seen))
      pkgs (paragraphs, seen)
    = ((paragraphs ++ map repo.Raw (List.filter f pkgs))%list,
       fold_left (fun seen pkg => <[repo.Name pkg := true]> seen)
         (List.filter f pkgs) seen).
Proof.
  induction pkgs as [|pkg pkgs IH]; intros paragraphs seen; cbn [fold_left List.filter].
  - now rewrite app_nil_r.
  - destruct (f pkg); cbn [negb]; rewrite IH; [|reflexivity].
    cbn [map fold_left]. now rewrite <- app_assoc.
Qed.

Lemma flag_fold_names (pkgs : list repo.Package) : forall (seen : gmap string bool) k,
  flag (fold_left (fun seen pkg => <[repo.Name pkg := true]> seen) pkgs seen) k
  = flag seen k || existsb (String.eqb k) (map repo.Name pkgs).
Proof.
  induction pkgs as [|pkg pkgs IH]; intros seen k; cbn [fold_left map existsb].
  - now rewrite orb_false_r.
  - rewrite IH. unfold flag. rewrite lookup_insert.
    case_decide as E; cbn [default].
    + subst k. rewrite String.eqb_refl. cbn [orb]. now rewrite orb_true_r.
    + assert (String.eqb k (repo.Name pkg) = false) as ->.
      { apply String.eqb_neq. congruence. }
      reflexivity.
Qed.

(** X30. [InfoParagraphs] returns the paragraphs of the packages of the
    indexes whose name matches, in the order in which [All] lists them and
    once per index that has the package, followed by the paragraphs of the
    matching entries of the status database, in order of name, whose
    name no matching package of the indexes has. *)
Theorem X30_InfoParagraphs_order m patterns :
  indexesLoaded m = true ->
  let hits := List.filter (fun pkg => matchesAny (repo.Name pkg) patterns)
                (repo.All (indexes m)) in
  InfoParagraphs m patterns
  = Ok (map repo.Raw hits
        ++ map pkgdb.Raw
             (List.filter
                (fun entry =>
                   negb (existsb (String.eqb (pkgdb.Name entry)) (map repo.Name hits))
                   && matchesAny (pkgdb.Name entry) patterns)
                (pkgdb.Entries (status m))))%list.
Proof.
  intros Hl hits. unfold InfoParagraphs, ensureIndexesLoaded. rewrite Hl. cbn [negb].
  rewrite (flag_seen_fold (repo.All (indexes m))
             (fun pkg => matchesAny (repo.Name pkg) patterns) [] ∅).
  fold hits. cbn [app]. f_equal.
  generalize (map repo.Raw hits) as acc.
  induction (pkgdb.Entries (status m)) as [|entry entries IH]; intros acc;
    cbn [fold_left List.filter map].
  - now rewrite app_nil_r.
  - rewrite flag_fold_names.
    assert (flag (∅ : gmap string bool) (pkgdb.Name entry) = false) as ->
      by (unfold flag; now rewrite lookup_empty).
    cbn [orb].
    destruct (existsb _ _); cbn [negb andb]; [apply IH|].
    destruct (matchesAny _ _); [|apply IH].
    rewrite IH. cbn [map]. now rewrite <- app_assoc.
Qed.

End dependencies.

Lemma X30_witness :
  pkgmgr.InfoParagraphs (H:=sample_runtime)
    (examples.manager examples.cfg_two_feeds examples.status_removed
       [examples.index_a; examples.index_b] true) []
  = Ok [repo.Raw (examples.package examples.feed_a "foo" "1.0");
        repo.Raw (examples.package examples.feed_b "foo" "2.0")].
Proof.
  rewrite (X30_InfoParagraphs_order (H:=sample_runtime)
             (examples.manager examples.cfg_two_feeds examples.status_removed
                [examples.index_a; examples.index_b] true) [] eq_refl).
  vm_compute. reflexivity.
Defined.

Lemma X29_witness :
  exists p,
    (match repo.Find (pkgmgr.indexes examples.manager_abcd) "A" with
     | Some pkg => p = repo.Raw pkg
     | None => exists entry,
         pkgdb.byName (pkgmgr.status examples.manager_abcd) !! "A" = Some entry
         /\ p = pkgdb.Raw entry
     end)
    /\ forall field tokens,
         ({[ "Depends" := ["B"] ]} : gmap string (list string)) !! field = Some tokens ->
         field ∈ pkgmgr.relation_fields
         /\ format.Value (H:=sample_runtime) p field <> ""
         /\ Forall (fun token => IndexFunc relation_syntax token = None) tokens.
Proof.
  apply (X29_Dependencies_bare_names (H:=sample_runtime) examples.manager_abcd "A").
  vm_compute. reflexivity.
Defined.
